(** * nose-leak-detector: a shallow embedding of [nose_leak_detector/plugin.py]

    The development follows the layout of the plugin:
    - [Summary]: the rows of a pympler summary and the linear merge
      [_fast_get_summary_diff];
    - [Detector]: the plugin object, the collaborators it talks to (the
      garbage collector and the mock objects on the heap, the nose result
      objects, standard output) and the plugin's methods, written in a small
      state-and-exception monad;
    - the theorems about both. *)

From Stdlib Require Import ZArith String Ascii List Lia Bool OrderedTypeEx.
From stdpp Require Import base option list sorting gmap strings pretty.

Open Scope Z_scope.
Open Scope string_scope.

(* ===================================================================== *)
(** ** Summaries and their difference                                     *)
(* ===================================================================== *)

Module Summary.

(** A row of a pympler summary: [[class_key, count, total_size]].
    The source indexes rows by position; [row_key] is [row[0]],
    [row_count] is [row[1]] and [row_size] is [row[2]]. *)
Record row := Row { row_key : string; row_count : Z; row_size : Z }.

Definition summary := list row.

(** [objects_key = lambda object_footprint: object_footprint[0]] *)
Definition objects_key (object_footprint : row) : string :=
  row_key object_footprint.

(** [val_neg = lambda lval: [lval[0], -lval[1], -lval[2]]] *)
Definition val_neg (lval : row) : row :=
  Row (row_key lval) (- row_count lval) (- row_size lval).

(** An iterator over a list is the list of the rows it has yet to yield.
    [next_safe] calls [it.next()] (the iterator protocol of Python 2) and
    returns the value, the end flag and the advanced iterator. *)
Definition next_safe (it : list row) : option row * bool * list row :=
  match it with
  | [] => (None, true, [])
  | val :: it' => (Some val, false, it')
  end.

(** [sorted(l, key=objects_key)]: Python's sort is stable; this is the
    stable insertion sort on the key. *)
Fixpoint sorted_insert (x : row) (l : list row) : list row :=
  match l with
  | [] => [x]
  | y :: l' =>
      if (objects_key y <? objects_key x)%string
      then y :: sorted_insert x l'
      else x :: y :: l'
  end.

Definition sorted (l : list row) : list row := foldr sorted_insert [] l.

(** The local variables of the merge loop. *)
Record loop_state := LoopState {
  lit : list row;
  rit : list row;
  lval : option row;
  rval : option row;
  lend : bool;
  rend : bool;
  ret : list row
}.

(** One pass through the body of the [while]: it either leaves the loop
    through [break] with the final [ret], or comes back to the loop test
    (by [continue] or by reaching the end of the body). *)
Inductive pass := Break (r : list row) | Next (s : loop_state).

(** [if lval is None: ...] *)
Definition fetch_left (s : loop_state) : pass :=
  match lval s with
  | None =>
      if lend s then
        Break (match rval s with
               | Some r => ret s ++ (r :: rit s)
               | None => ret s
               end)
      else
        let '(v, e, it) := next_safe (lit s) in
        Next (LoopState it (rit s) v (rval s) e (rend s) (ret s))
  | Some _ => Next s
  end.

(** [if rval is None: ...] *)
Definition fetch_right (s : loop_state) : pass :=
  match rval s with
  | None =>
      if rend s then
        Break (match lval s with
               | Some l => ret s ++ (val_neg l :: map val_neg (lit s))
               | None => ret s
               end)
      else
        let '(v, e, it) := next_safe (rit s) in
        Next (LoopState (lit s) it (lval s) v (lend s) e (ret s))
  | Some _ => Next s
  end.

(** The comparison of the two current rows, after the
    [if lval is None or rval is None: continue] guard. *)
Definition compare_rows (s : loop_state) : loop_state :=
  match lval s, rval s with
  | Some l, Some r =>
      if (objects_key l =? objects_key r)%string then
        let '(lv, le, li) := next_safe (lit s) in
        let '(rv, re, ri) := next_safe (rit s) in
        LoopState li ri lv rv le re
          (ret s ++ [Row (row_key r) (row_count r - row_count l)
                                     (row_size r - row_size l)])
      else if (objects_key l <? objects_key r)%string then
        let '(lv, le, li) := next_safe (lit s) in
        LoopState li (rit s) lv (rval s) le (rend s) (ret s ++ [val_neg l])
      else
        let '(rv, re, ri) := next_safe (rit s) in
        LoopState (lit s) ri (lval s) rv (lend s) re (ret s ++ [r])
  | _, _ => s
  end.

Definition body (s : loop_state) : pass :=
  match fetch_left s with
  | Break r => Break r
  | Next s1 =>
      match fetch_right s1 with
      | Break r => Break r
      | Next s2 => Next (compare_rows s2)
      end
  end.

(** [while not lend or not rend: body]; [None] when the fuel is used up. *)
Fixpoint loop (fuel : nat) (s : loop_state) : option (list row) :=
  if negb (lend s) || negb (rend s) then
    match fuel with
    | O => None
    | S fuel' =>
        match body s with
        | Break r => Some r
        | Next s' => loop fuel' s'
        end
    end
  else Some (ret s).

Definition _fast_get_summary_diff (left right : list row)
  : option (list row) :=
  let lsorted := sorted left in
  let rsorted := sorted right in
  loop (length lsorted + length rsorted + 2)
       (LoopState lsorted rsorted None None false false []).

(** [[row for row in diff if row[1] or row[2]]] *)
Definition filter_nonzero (diff : list row) : list row :=
  filter (fun r => negb (row_count r =? 0)%Z || negb (row_size r =? 0)%Z = true)
         diff.

(** The hypotheses on the inputs: ascending by class key, keys unique. *)
Definition key_le (a b : row) : Prop :=
  (objects_key a <=? objects_key b)%string = true.

Definition key_lt (a b : row) : Prop :=
  (objects_key a ?= objects_key b)%string = Lt.

Definition ascending (l : list row) : Prop := Sorted key_le l.

Definition keys (l : list row) : list string := map objects_key l.

Definition unique_keys (l : list row) : Prop := NoDup (keys l).

(** The row emitted for a key that both sides have. *)
Definition delta (l r : row) : row :=
  Row (row_key r) (row_count r - row_count l) (row_size r - row_size l).

(** The merge the loop computes, by recursion on the two lists; the loop
    is shown equal to it below. *)
Fixpoint merge_diff (l : list row) : list row -> list row :=
  fix merge_right (r : list row) : list row :=
    match l, r with
    | [], _ => r
    | _, [] => map val_neg l
    | a :: l', b :: r' =>
        if (objects_key a =? objects_key b)%string then
          delta a b :: merge_diff l' r'
        else if (objects_key a <? objects_key b)%string then
          val_neg a :: merge_diff l' r
        else b :: merge_right r'
    end.

End Summary.

(* ===================================================================== *)
(** ** The plugin and its collaborators                                   *)
(* ===================================================================== *)

Module Detector.
Import Summary.

Definition LEVEL_DIR : Z := 1.
Definition LEVEL_MODULE : Z := 2.
Definition LEVEL_CLASS : Z := 3.
Definition LEVEL_TEST : Z := 4.

Definition IGNORED_MOCK_NAME_WORDS : list string :=
  ["NOSE_LEAK_DETECTOR_IGNORE"].

Record ReportDetail := { title : string; color : string }.

Definition REPORT_DETAILS : gmap Z ReportDetail :=
  <[LEVEL_DIR := {| title := "Directory"; color := "magenta" |}]>
  (<[LEVEL_MODULE := {| title := "Module"; color := "green" |}]>
  (<[LEVEL_CLASS := {| title := "Class"; color := "blue" |}]>
  (<[LEVEL_TEST := {| title := "Test"; color := "red" |}]> ∅))).

(** *** Strings *)

Definition nl : string := String (ascii_of_nat 10) "".

(** [word in s] on Python strings. *)
Fixpoint contains (word s : string) : bool :=
  String.prefix word s ||
  match s with
  | EmptyString => false
  | String _ s' => contains word s'
  end.

Definition upper_ascii (c : ascii) : ascii :=
  let n := nat_of_ascii c in
  if ((97 <=? n) && (n <=? 122))%nat then ascii_of_nat (n - 32) else c.

(** [str.upper()] *)
Fixpoint upper (s : string) : string :=
  match s with
  | EmptyString => EmptyString
  | String c s' => String (upper_ascii c) (upper s')
  end.

(** The [%s] rendering of a list of strings; the escaping that Python's
    [repr] applies inside each string is not modelled. *)
Definition str_of_list (l : list string) : string :=
  "[" ++ String.concat ", " (map (fun s => "'" ++ s ++ "'") l) ++ "]".

(** *** The heap of mock objects

    A mock keeps the identity it was allocated with: its position in
    [heap].  A weak reference is that identity; dereferencing it gives the
    object until the collector has reclaimed it. *)

Inductive liveness := Reachable | Unreachable | Collected.

Record mock_obj := MockObj {
  mock_state : liveness;
  mock_repr : string;                       (* repr(m) *)
  _mock_traceback : option (list string);   (* m.__dict__['_mock_traceback'] *)
  mock_vars : string                        (* str() of the other attributes *)
}.

Abbreviation weakref := nat.

(** *** Tests and result objects *)

(** What running a test does to the world. *)
Inductive action :=
| new_mock (repr vars : string) (stack : list string)
    (* mock.Mock(...): allocation, then mock.Base.__init__ *)
| release (m : weakref)              (* the object becomes unreachable *)
| set_repr (m : weakref) (repr : string)
| set_heap_summary (s : summary)
| set_maxrss (n : Z).

Record test_class := TestClass {
  class_id : nat;           (* identity of the class object *)
  class_name : string;      (* __name__ *)
  class_module : string     (* __module__ *)
}.

(** [test.test], the unittest case *)
Record test_case := TestCase {
  case_class : test_class;
  case_body : list action
}.

(** [test], the nose wrapper *)
Record test := Test {
  test_str : string;        (* str(test) *)
  test_test : test_case     (* test.test *)
}.

(** [type(a.test) is type(b.test)] *)
Definition same_type (a b : test) : bool :=
  Nat.eqb (class_id (case_class (test_test a)))
          (class_id (case_class (test_test b))).

(** The first argument of [addError]. *)
Inductive subject :=
| no_test                     (* None *)
| of_test (t : test)          (* a nose test *)
| of_case (c : test_case).    (* the case inside it *)

Inductive text := plain (s : string) | colored (s : string) (color : string).

(** Calls the plugin makes on its collaborators, oldest first.  A result
    object is named by its identity; the message is the exception's
    message when the call is made. *)
Inductive call :=
| gc_collect
| muppy_get_objects
| print (t : text)
| summary_print (rows : summary)
| stream_write (t : text)
| addError (result : nat) (who : subject) (message : string)
| stop (result : nat).

Record world := World {
  heap : list mock_obj;
  wrappers : nat;          (* wrappers installed around mock.Base.__init__ *)
  heap_summary : summary;  (* what summary.summarize would return now *)
  ru_maxrss : Z;
  calls : list call
}.

(** *** The plugin object *)

Record plugin := Plugin {
  detect_leaked_mocks : bool;
  fail_fast : bool;
  reporting_level : Z;
  check_for_leaks_before_next_test : bool;
  report_delta : bool;
  patch_mock : bool;
  failed_test_with_leak : bool;
  last_test : option test;
  last_test_result : option nat;
  level_name : gmap Z string;
  previous_summaries : gmap Z summary;
  current_summary : option summary;
  _final_exc_info : option string;   (* the stored exception's message *)
  mock_refs : list weakref;
  previous_mock_refs : list weakref
}.

(** [LeakDetectorPlugin.__init__] with the class attributes
    [detect_leaked_mocks = True] and [fail_fast = True]. *)
Definition __init__ : plugin :=
  {| detect_leaked_mocks := true;
     fail_fast := true;
     reporting_level := 0;
     check_for_leaks_before_next_test := true;
     report_delta := false;
     patch_mock := false;
     failed_test_with_leak := false;
     last_test := None;
     last_test_result := None;
     level_name := ∅;
     previous_summaries := ∅;
     current_summary := None;
     _final_exc_info := None;
     mock_refs := [];
     previous_mock_refs := [] |}.

Definition set_fail_fast (v : bool) (p : plugin) : plugin :=
  Plugin (detect_leaked_mocks p) v (reporting_level p)
    (check_for_leaks_before_next_test p) (report_delta p) (patch_mock p)
    (failed_test_with_leak p) (last_test p) (last_test_result p)
    (level_name p) (previous_summaries p) (current_summary p)
    (_final_exc_info p) (mock_refs p) (previous_mock_refs p).

Definition set_reporting_level (v : Z) (p : plugin) : plugin :=
  Plugin (detect_leaked_mocks p) (fail_fast p) v
    (check_for_leaks_before_next_test p) (report_delta p) (patch_mock p)
    (failed_test_with_leak p) (last_test p) (last_test_result p)
    (level_name p) (previous_summaries p) (current_summary p)
    (_final_exc_info p) (mock_refs p) (previous_mock_refs p).

Definition set_check_for_leaks_before_next_test (v : bool) (p : plugin) :=
  Plugin (detect_leaked_mocks p) (fail_fast p) (reporting_level p)
    v (report_delta p) (patch_mock p)
    (failed_test_with_leak p) (last_test p) (last_test_result p)
    (level_name p) (previous_summaries p) (current_summary p)
    (_final_exc_info p) (mock_refs p) (previous_mock_refs p).

Definition set_report_delta (v : bool) (p : plugin) :=
  Plugin (detect_leaked_mocks p) (fail_fast p) (reporting_level p)
    (check_for_leaks_before_next_test p) v (patch_mock p)
    (failed_test_with_leak p) (last_test p) (last_test_result p)
    (level_name p) (previous_summaries p) (current_summary p)
    (_final_exc_info p) (mock_refs p) (previous_mock_refs p).

Definition set_patch_mock (v : bool) (p : plugin) :=
  Plugin (detect_leaked_mocks p) (fail_fast p) (reporting_level p)
    (check_for_leaks_before_next_test p) (report_delta p) v
    (failed_test_with_leak p) (last_test p) (last_test_result p)
    (level_name p) (previous_summaries p) (current_summary p)
    (_final_exc_info p) (mock_refs p) (previous_mock_refs p).

Definition set_failed_test_with_leak (v : bool) (p : plugin) :=
  Plugin (detect_leaked_mocks p) (fail_fast p) (reporting_level p)
    (check_for_leaks_before_next_test p) (report_delta p) (patch_mock p)
    v (last_test p) (last_test_result p)
    (level_name p) (previous_summaries p) (current_summary p)
    (_final_exc_info p) (mock_refs p) (previous_mock_refs p).

Definition set_last_test (v : option test) (p : plugin) :=
  Plugin (detect_leaked_mocks p) (fail_fast p) (reporting_level p)
    (check_for_leaks_before_next_test p) (report_delta p) (patch_mock p)
    (failed_test_with_leak p) v (last_test_result p)
    (level_name p) (previous_summaries p) (current_summary p)
    (_final_exc_info p) (mock_refs p) (previous_mock_refs p).

Definition set_last_test_result (v : option nat) (p : plugin) :=
  Plugin (detect_leaked_mocks p) (fail_fast p) (reporting_level p)
    (check_for_leaks_before_next_test p) (report_delta p) (patch_mock p)
    (failed_test_with_leak p) (last_test p) v
    (level_name p) (previous_summaries p) (current_summary p)
    (_final_exc_info p) (mock_refs p) (previous_mock_refs p).

Definition set_level_name (v : gmap Z string) (p : plugin) :=
  Plugin (detect_leaked_mocks p) (fail_fast p) (reporting_level p)
    (check_for_leaks_before_next_test p) (report_delta p) (patch_mock p)
    (failed_test_with_leak p) (last_test p) (last_test_result p)
    v (previous_summaries p) (current_summary p)
    (_final_exc_info p) (mock_refs p) (previous_mock_refs p).

Definition set_previous_summaries (v : gmap Z summary) (p : plugin) :=
  Plugin (detect_leaked_mocks p) (fail_fast p) (reporting_level p)
    (check_for_leaks_before_next_test p) (report_delta p) (patch_mock p)
    (failed_test_with_leak p) (last_test p) (last_test_result p)
    (level_name p) v (current_summary p)
    (_final_exc_info p) (mock_refs p) (previous_mock_refs p).

Definition set_current_summary (v : option summary) (p : plugin) :=
  Plugin (detect_leaked_mocks p) (fail_fast p) (reporting_level p)
    (check_for_leaks_before_next_test p) (report_delta p) (patch_mock p)
    (failed_test_with_leak p) (last_test p) (last_test_result p)
    (level_name p) (previous_summaries p) v
    (_final_exc_info p) (mock_refs p) (previous_mock_refs p).

Definition set_final_exc_info (v : option string) (p : plugin) :=
  Plugin (detect_leaked_mocks p) (fail_fast p) (reporting_level p)
    (check_for_leaks_before_next_test p) (report_delta p) (patch_mock p)
    (failed_test_with_leak p) (last_test p) (last_test_result p)
    (level_name p) (previous_summaries p) (current_summary p)
    v (mock_refs p) (previous_mock_refs p).

Definition set_mock_refs (v : list weakref) (p : plugin) :=
  Plugin (detect_leaked_mocks p) (fail_fast p) (reporting_level p)
    (check_for_leaks_before_next_test p) (report_delta p) (patch_mock p)
    (failed_test_with_leak p) (last_test p) (last_test_result p)
    (level_name p) (previous_summaries p) (current_summary p)
    (_final_exc_info p) v (previous_mock_refs p).

Definition set_previous_mock_refs (v : list weakref) (p : plugin) :=
  Plugin (detect_leaked_mocks p) (fail_fast p) (reporting_level p)
    (check_for_leaks_before_next_test p) (report_delta p) (patch_mock p)
    (failed_test_with_leak p) (last_test p) (last_test_result p)
    (level_name p) (previous_summaries p) (current_summary p)
    (_final_exc_info p) (mock_refs p) v.

Definition set_heap (v : list mock_obj) (w : world) : world :=
  World v (wrappers w) (heap_summary w) (ru_maxrss w) (calls w).
Definition set_wrappers (v : nat) (w : world) : world :=
  World (heap w) v (heap_summary w) (ru_maxrss w) (calls w).
Definition set_heap_summary_of (v : summary) (w : world) : world :=
  World (heap w) (wrappers w) v (ru_maxrss w) (calls w).
Definition set_ru_maxrss (v : Z) (w : world) : world :=
  World (heap w) (wrappers w) (heap_summary w) v (calls w).
Definition log (c : call) (w : world) : world :=
  World (heap w) (wrappers w) (heap_summary w) (ru_maxrss w) (calls w ++ [c]).

(** *** The monad of the plugin's methods

    A method reads and writes the plugin object and the world around it,
    and either returns or raises.

    [history] is an auxiliary variable: it records, oldest first, each
    entry into [finished_level] with its arguments and each
    [check_for_leaks] with the value of its local [new_mocks].  No method
    reads it. *)

Inductive entry :=
| finished (level : Z) (name : string)
| checked (new_mocks : list weakref).

Record machine := Machine {
  self : plugin;
  env : world;
  history : list entry
}.

Inductive exn :=
| LeakDetected (message : string)
| KeyError (key : Z).

Inductive outcome (A : Type) :=
| Ret (a : A)
| Raise (e : exn).
Arguments Ret {A} a.
Arguments Raise {A} e.

Definition M (A : Type) : Type := machine -> outcome A * machine.

#[global] Instance M_ret : MRet M := fun A a s => (Ret a, s).
#[global] Instance M_bind : MBind M := fun A B f m s =>
  match m s with
  | (Ret a, s') => f a s'
  | (Raise e, s') => (Raise e, s')
  end.

Definition raise {A} (e : exn) : M A := fun s => (Raise e, s).
Definition get_self : M plugin := fun s => (Ret (self s), s).
Definition get_env : M world := fun s => (Ret (env s), s).
Definition update (f : plugin -> plugin) : M unit :=
  fun s => (Ret tt, Machine (f (self s)) (env s) (history s)).
Definition effect (f : world -> world) : M unit :=
  fun s => (Ret tt, Machine (self s) (f (env s)) (history s)).
Definition record (e : entry) : M unit :=
  fun s => (Ret tt, Machine (self s) (env s) (history s ++ [e])).
Definition emit (c : call) : M unit := effect (log c).
Definition when (b : bool) (m : M unit) : M unit := if b then m else mret tt.

(** [try: m except LeakDetected as e: handler(e.message)] *)
Definition try_except_LeakDetected (m : M unit) (handler : string -> M unit)
  : M unit :=
  fun s =>
    match m s with
    | (Raise (LeakDetected message), s') => handler message s'
    | r => r
    end.

(** *** The collector and weak references *)

Definition collect (o : mock_obj) : mock_obj :=
  match mock_state o with
  | Unreachable =>
      MockObj Collected (mock_repr o) (_mock_traceback o) (mock_vars o)
  | _ => o
  end.

(** The effect of [gc.collect()] on the heap. *)
Definition collected (w : world) : world := set_heap (map collect (heap w)) w.

(** [gc.collect()] *)
Definition gc_pass : M unit := effect (fun w => log gc_collect (collected w)).

(** [r()]: the object, or [None] once it has been reclaimed. *)
Definition deref (w : world) (r : weakref) : option mock_obj :=
  match heap w !! r with
  | Some o => match mock_state o with Collected => None | _ => Some o end
  | None => None
  end.

Definition is_live (w : world) (r : weakref) : bool :=
  match deref w r with Some _ => true | None => false end.

(** [repr(m)] of the object behind an identity. *)
Definition repr (w : world) (m : weakref) : string :=
  match heap w !! m with Some o => mock_repr o | None => "" end.

(** *** [get_summary] *)

Definition get_summary : M summary :=
  gc_pass;;
  emit muppy_get_objects;;
  w ← get_env;
  mret (heap_summary w).

(** *** [register_mock] *)

(** [traceback.format_stack(limit=n)] on a stack given oldest frame first *)
Definition format_stack (limit : nat) (stack : list string) : list string :=
  drop (length stack - limit)%nat stack.

Definition set_traceback (tb : option (list string)) (o : mock_obj) :=
  MockObj (mock_state o) (mock_repr o) tb (mock_vars o).

Definition register_mock (mock : weakref) (stack : list string) : M unit :=
  w ← get_env;
  when (match (heap w !! mock) ≫= _mock_traceback with
        | None | Some [] => true
        | Some _ => false
        end)
    (let frames :=
       List.filter (fun f => negb (contains "mock.py" f))
                   (removelast (format_stack 10 stack)) in
     effect (fun w => set_heap (alter (set_traceback (Some (rev frames)))
                                      mock (heap w)) w));;
  update (fun p => set_mock_refs (mock_refs p ++ [mock]) p).

(** *** [check_for_leaks] *)

(** [any(word in repr(m) for word in IGNORED_MOCK_NAME_WORDS)] *)
Definition ignored (w : world) (m : weakref) : bool :=
  existsb (fun word => contains word (repr w m)) IGNORED_MOCK_NAME_WORDS.

(** The locals [mocks], [filtered_mocks] and [new_mocks] of
    [check_for_leaks], as lists of identities; [w] is the world after the
    collection pass. *)
Definition mocks_of (w : world) (p : plugin) : list weakref :=
  List.filter (is_live w) (mock_refs p).

Definition filtered_mocks_of (w : world) (p : plugin) : list weakref :=
  List.filter (fun m => negb (ignored w m)) (mocks_of w p).

(** [set(id(r()) for r in self.previous_mock_refs)], without [id(None)],
    which is the identity of no mock *)
Definition previous_ids (w : world) (p : plugin) : list weakref :=
  List.filter (is_live w) (previous_mock_refs p).

Definition new_mocks_of (w : world) (p : plugin) : list weakref :=
  List.filter (fun m => negb (existsb (Nat.eqb m) (previous_ids w p)))
              (filtered_mocks_of w p).

(** [error_message(mock)]: [data.pop] removes the traceback from the mock
    itself. *)
Definition error_message (mock : weakref) : M string :=
  w ← get_env;
  match heap w !! mock with
  | Some o =>
      effect (fun w => set_heap (alter (set_traceback None) mock (heap w)) w);;
      mret (String.concat " --> "
              (default ["No traceback"] (_mock_traceback o))
            ++ " : " ++ mock_vars o)
  | None => mret ""
  end.

Fixpoint error_messages (new_mocks : list weakref) : M (list string) :=
  match new_mocks with
  | [] => mret []
  | m :: rest =>
      e ← error_message m;
      es ← error_messages rest;
      mret (e :: es)
  end.

Definition leak_message (count : nat) (errs : list string) : string :=
  "Found " ++ pretty count
  ++ " new mock(s) that have not been garbage collected:" ++ nl
  ++ str_of_list errs.

Definition check_for_leaks : M unit :=
  gc_pass;;
  p ← get_self;
  w ← get_env;
  let mocks := mocks_of w p in
  let new_mocks := new_mocks_of w p in
  record (checked new_mocks);;
  update (set_previous_mock_refs mocks);;
  match new_mocks with
  | [] => mret tt
  | _ :: _ =>
      errs ← error_messages new_mocks;
      raise (LeakDetected (leak_message (length new_mocks) errs))
  end.

(** *** Levels *)

(** [configure]: [level] is [int(options.leak_detector_level)] when the
    option is given. *)
Definition configure (level : option Z) (delta patch : bool) : M unit :=
  match level with
  | Some n => update (set_reporting_level n)
  | None => mret tt
  end;;
  update (set_report_delta delta);;
  update (set_patch_mock patch).

(** The string [get_level_path] builds from the plugin's fields. *)
Definition level_path (p : plugin) : string :=
  foldl (fun name i => name ++ "/" ++ default "???" (level_name p !! i))
        "" (rev (seqZ 1 (reporting_level p))).

Definition get_level_path : M string :=
  p ← get_self;
  mret (level_path p).

Definition started_level (level : Z) (name : string) : M unit :=
  update (fun p => set_level_name (<[level := name]> (level_name p)) p).

(** [d[k]] on a dict *)
Definition subscript {V} (d : gmap Z V) (k : Z) : M V :=
  match d !! k with
  | Some v => mret v
  | None => raise (KeyError k)
  end.

(** The body of [if self.report_delta:] in [finished_level]. *)
Definition memory_delta_report (level : Z) (name : string) : M unit :=
  detail ← subscript REPORT_DETAILS level;
  let report :=
    "Memory Delta Report for " ++ upper (title detail) ++ ": "
    ++ name ++ nl in
  w ← get_env;
  let memory_usage := ru_maxrss w in
  emit (print (plain ("Peak memory usage for " ++ name ++ ": "
                      ++ pretty memory_usage)));;
  p ← get_self;
  old_summary ← subscript (previous_summaries p) level;
  current ←
    match current_summary p with
    | None | Some [] =>
        s ← get_summary;
        update (set_current_summary (Some s));;
        mret s
    | Some s => mret s
    end;
  match _fast_get_summary_diff old_summary current with
  | None => mret tt
  | Some diff =>
      let filtered_diff := filter_nonzero diff in
      match filtered_diff with
      | _ :: _ =>
          emit (print (colored report (color detail)));;
          emit (summary_print filtered_diff);;
          emit (print (plain "None"))
      | [] =>
          emit (print (colored
            (report ++ "No changes" ++ nl
             ++ "Peak memory usage: " ++ pretty memory_usage)
            (color detail)))
      end;;
      update (fun p =>
        set_previous_summaries
          (<[level := current]> (previous_summaries p)) p)
  end.

Definition finished_level (level : Z) (name : string) : M unit :=
  record (finished level name);;
  p ← get_self;
  when (level <=? reporting_level p)%Z
    (update (set_check_for_leaks_before_next_test true));;
  if (level >? reporting_level p)%Z then mret tt
  else when (report_delta p) (memory_delta_report level name).

Definition create_initial_summary : M unit :=
  update (set_current_summary None);;
  p ← get_self;
  if report_delta p then
    initial_summary ← get_summary;
    when (bool_decide (previous_summaries p = ∅)
          && negb (reporting_level p =? 0)%Z)
      (update (fun p =>
         set_previous_summaries
           (foldl (fun d i => <[i := initial_summary]> d)
                  (previous_summaries p) (seqZ 1 LEVEL_TEST)) p))
  else mret tt.

(** *** Run start *)

(** The identities [muppy.get_objects()] enumerates: every mock that has
    not been reclaimed. *)
Definition get_objects (w : world) : list weakref :=
  List.filter (is_live w) (seq 0 (length (heap w))).

Definition begin : M unit :=
  create_initial_summary;;
  p ← get_self;
  when (detect_leaked_mocks p)
    (gc_pass;;
     emit muppy_get_objects;;
     w ← get_env;
     update (set_mock_refs (get_objects w));;
     when (patch_mock p)
       (effect (fun w => set_wrappers (S (wrappers w)) w))).

(** *** What happens outside the plugin *)

Fixpoint repeat_M (n : nat) (m : M unit) : M unit :=
  match n with
  | O => mret tt
  | S n' => m;; repeat_M n' m
  end.

Definition set_state (st : liveness) (o : mock_obj) :=
  MockObj st (mock_repr o) (_mock_traceback o) (mock_vars o).

Definition set_mock_repr (r : string) (o : mock_obj) :=
  MockObj (mock_state o) r (_mock_traceback o) (mock_vars o).

Definition drop_reference (o : mock_obj) : mock_obj :=
  match mock_state o with
  | Reachable => set_state Unreachable o
  | _ => o
  end.

Definition perform (a : action) : M unit :=
  match a with
  | new_mock r vars stack =>
      w ← get_env;
      let m := length (heap w) in
      effect (fun w => set_heap (heap w ++ [MockObj Reachable r None vars]) w);;
      (* each installed wrapper calls detector.register_mock(mock) *)
      repeat_M (wrappers w) (register_mock m stack)
  | release m =>
      effect (fun w => set_heap (alter drop_reference m (heap w)) w)
  | set_repr m r =>
      effect (fun w => set_heap (alter (set_mock_repr r) m (heap w)) w)
  | set_heap_summary s => effect (set_heap_summary_of s)
  | set_maxrss n => effect (set_ru_maxrss n)
  end.

Fixpoint perform_all (body : list action) : M unit :=
  match body with
  | [] => mret tt
  | a :: rest => perform a;; perform_all rest
  end.

(** *** Per-test hooks *)

Definition beforeTest (test : test) : M unit :=
  p ← get_self;
  match last_test p with
  | Some last =>
      when (negb (same_type last test))
        (finished_level LEVEL_CLASS
           (class_name (case_class (test_test last))));;
      when (same_type last test)
        (started_level LEVEL_CLASS
           (class_name (case_class (test_test test))))
  | None =>
      started_level LEVEL_CLASS (class_name (case_class (test_test test)))
  end;;
  started_level LEVEL_TEST (test_str test).

Definition afterTest (test : test) : M unit :=
  update (set_last_test (Some test));;
  finished_level LEVEL_TEST (test_str test).

(** [str(self.last_test)] and the object passed to [addError] *)
Definition str_of_last (t : option test) : string :=
  match t with Some t => test_str t | None => "None" end.

Definition subject_of_last (t : option test) : subject :=
  match t with Some t => of_test t | None => no_test end.

(** The closure [do_check] of [run_test]. *)
Definition do_check (test : test) (result : nat) (before : bool) : M unit :=
  try_except_LeakDetected check_for_leaks (fun message =>
    path ← get_level_path;
    let message := message ++ " at " ++ path in
    p ← get_self;
    match last_test_result p with
    | Some last_result =>
        emit (addError last_result (subject_of_last (last_test p)) message);;
        let message :=
          message ++ " for prior test '" ++ str_of_last (last_test p) ++ "'" in
        emit (addError result (of_test test) message)
    | None =>
        let message :=
          message ++ (if before then " before test"
                      else " before any tests were run") in
        emit (addError result (of_test test) message)
    end;;
    update (set_failed_test_with_leak true);;
    when (negb (fail_fast p)) (emit (stop result))).

Definition run_test (test : test) (result : nat) : M unit :=
  update (set_current_summary None);;
  p ← get_self;
  when (check_for_leaks_before_next_test p) (do_check test result true);;
  update (fun p =>
    set_level_name
      (<[LEVEL_MODULE := class_module (case_class (test_test test))]>
         (level_name p)) p);;
  perform_all (case_body (test_test test));;
  when (LEVEL_TEST <=? reporting_level p)%Z (do_check test result false);;
  update (set_last_test_result (Some result)).

(** *** Run end *)

Definition final_check : M unit :=
  p ← get_self;
  when (detect_leaked_mocks p
        && match _final_exc_info p with None => true | Some _ => false end)
    (update (set_current_summary None);;
     update (set_previous_summaries ∅);;
     try_except_LeakDetected check_for_leaks (fun message =>
       update (set_final_exc_info (Some message)))).

Definition report : M unit :=
  final_check;;
  p ← get_self;
  let msg := "Leak Detector Report: " in
  match _final_exc_info p with
  | Some message =>
      emit (stream_write (colored (msg ++ "FAILED: " ++ message ++ nl) "red"))
  | None =>
      emit (stream_write (colored
        (msg ++ "PASSED: All mocks have been reset or garbage collected."
         ++ nl) "green"))
  end.

Definition finalize (result : nat) : M unit :=
  final_check;;
  p ← get_self;
  w ← get_env;
  (* functools.wraps records the wrapped function as __wrapped__ *)
  when (patch_mock p && (0 <? wrappers w)%nat)
    (effect (set_wrappers (Nat.pred (wrappers w))));;
  match _final_exc_info p, last_test p with
  | Some message, Some last =>
      emit (addError result (of_case (test_test last)) message)
  | _, _ => mret tt
  end.

(** *** Runs *)

(** The hooks nose calls on the plugin, and what goes on around them. *)
Inductive event :=
| ev_begin
| ev_beforeTest (t : test)
| ev_run_test (t : test) (result : nat)
| ev_afterTest (t : test)
| ev_report
| ev_finalize (result : nat)
| ev_outside (a : action).

Definition handle (e : event) : M unit :=
  match e with
  | ev_begin => begin
  | ev_beforeTest t => beforeTest t
  | ev_run_test t result => run_test t result
  | ev_afterTest t => afterTest t
  | ev_report => report
  | ev_finalize result => finalize result
  | ev_outside a => perform a
  end.

(** A run: the events one after the other.  What an event's handler
    returns or raises is the caller's business; the next event finds the
    state the handler left. *)
Fixpoint run (es : list event) (s : machine) : machine :=
  match es with
  | [] => s
  | e :: rest => run rest (handle e s).2
  end.

Definition world0 : world := World [] 0 [] 0 [].

(** A plugin as nose creates it, in a given world. *)
Definition start (w : world) : machine := Machine __init__ w [].

End Detector.

(* ===================================================================== *)
(** ** The vocabulary of the theorems                                     *)
(* ===================================================================== *)

Import Summary.
Import Detector.

(** [preserves I m]: whatever [m] does, and whether it returns or raises,
    it leaves [I] true of the state when [I] was true before. *)
Definition preserves {A : Type} (I : machine -> Prop) (m : M A) : Prop :=
  forall s, I s -> I (m s).2.

(** [blind m]: what [m] returns and what it does to the plugin and to the
    world do not depend on the history. *)
Definition blind {A : Type} (m : M A) : Prop :=
  forall s s',
    self s = self s' -> env s = env s' ->
    (m s).1 = (m s').1 /\
    self (m s).2 = self (m s').2 /\
    env (m s).2 = env (m s').2.

Definition flag_set (s : machine) : Prop :=
  check_for_leaks_before_next_test (self s) = true.

(** The state of the mock with identity [m], if it was ever allocated. *)
Definition status (w : world) (m : weakref) : option liveness :=
  mock_state <$> heap w !! m.

Definition reachable (w : world) (m : weakref) : Prop :=
  status w m = Some Reachable.

(** Two worlds with the same mocks in the same states and with the same
    representations, and the same calls made so far; the tracebacks kept on
    the mocks may differ. *)
Definition same_mocks (w w' : world) : Prop :=
  (forall m, status w' m = status w m) /\
  (forall m, repr w' m = repr w m) /\
  length (heap w') = length (heap w) /\
  calls w' = calls w /\
  wrappers w' = wrappers w.

(** The number of checks so far whose [new_mocks] had [m] in it. *)
Definition reports (m : weakref) (h : list entry) : nat :=
  length (List.filter
            (fun e => match e with
                      | checked new_mocks => existsb (Nat.eqb m) new_mocks
                      | finished _ _ => false
                      end) h).

(** The invariant of a run, for a mock [m]: [m] was reported at most once,
    and once it has been reported it stays in the baseline and in the
    tracked list for as long as it is reachable. *)
Definition baseline_keeps (m : weakref) (s : machine) : Prop :=
  (reports m (history s) <= 1)%nat /\
  ((0 < reports m (history s))%nat ->
   (m < length (heap (env s)))%nat /\
   (reachable (env s) m ->
    m ∈ previous_mock_refs (self s) /\ m ∈ mock_refs (self s))).

(** What the world may do to an allocated mock [m]: it stays allocated, and
    if it is reachable afterwards it was reachable before. *)
Definition ages (m : weakref) (w w' : world) : Prop :=
  (length (heap w) <= length (heap w'))%nat /\
  ((m < length (heap w))%nat -> reachable w' m -> reachable w m).

(** The calls [do_check] makes once [check_for_leaks] has raised. *)
Definition leak_calls (p : plugin) (t : test) (result : nat) (before : bool)
           (message : string) : list call :=
  let message := message ++ " at " ++ level_path p in
  match last_test_result p with
  | Some last_result =>
      [addError last_result (subject_of_last (last_test p)) message;
       addError result (of_test t)
         (message ++ " for prior test '" ++ str_of_last (last_test p) ++ "'")]
  | None =>
      [addError result (of_test t)
         (message ++ (if before then " before test"
                      else " before any tests were run"))]
  end ++ (if fail_fast p then [] else [stop result]).

Definition is_stop (c : call) : bool :=
  match c with stop _ => true | _ => false end.

Definition is_addError (c : call) : bool :=
  match c with addError _ _ _ => true | _ => false end.

(** The plugin with which [final_check] enters [check_for_leaks]. *)
Definition summaries_cleared (p : plugin) : plugin :=
  set_previous_summaries ∅ (set_current_summary None p).

(** Every entry into [finished_level] so far was at class or test level. *)
Definition levels_ok (s : machine) : Prop :=
  forall level name,
    finished level name ∈ history s -> level = LEVEL_CLASS \/ level = LEVEL_TEST.

(** The calls that print a memory delta report. *)
Definition is_report (c : call) : bool :=
  match c with
  | print _ | summary_print _ => true
  | _ => false
  end.

(** The reporting level is [lvl], the flag is [b] and the reports printed
    so far are [out]. *)
Definition quiet (lvl : Z) (b : bool) (out : list call) (s : machine) : Prop :=
  reporting_level (self s) = lvl /\
  check_for_leaks_before_next_test (self s) = b /\
  List.filter is_report (calls (env s)) = out.

(** The three outcomes of comparing two keys, as the loop tests them. *)
Inductive key_order (a b : row) : Prop :=
| keys_equal :
    (objects_key a =? objects_key b)%string = true ->
    objects_key a = objects_key b -> key_order a b
| key_left_first :
    (objects_key a =? objects_key b)%string = false ->
    (objects_key a <? objects_key b)%string = true ->
    key_lt a b -> key_order a b
| key_right_first :
    (objects_key a =? objects_key b)%string = false ->
    (objects_key a <? objects_key b)%string = false ->
    key_lt b a -> key_order a b.

(** [raises_only E I m]: [m] keeps [I], and an exception that comes out of
    [m] is one of [E]. *)
Definition raises_only {A : Type} (E : exn -> Prop) (I : machine -> Prop)
           (m : M A) : Prop :=
  forall s, I s -> I (m s).2 /\ forall e, (m s).1 = Raise e -> E e.

(** Nothing is asked of the state. *)
Definition any_state (s : machine) : Prop := True.

Definition is_KeyError (e : exn) : Prop := exists k, e = KeyError k.

Definition is_LeakDetected (e : exn) : Prop :=
  exists message, e = LeakDetected message.

Definition no_exception (e : exn) : Prop := False.

(** The events of a run before its end: all but [report] and [finalize]. *)
Definition during_run (e : event) : Prop :=
  match e with
  | ev_report | ev_finalize _ => False
  | _ => True
  end.

(** The dict [previous_summaries] has the four levels. *)
Definition four_levels (d : gmap Z summary) : Prop :=
  forall l, 1 <= l <= 4 -> is_Some (d !! l).

(** When a delta report can be asked for at class or test level, the
    summaries it is made against are there. *)
Definition summaries_ready (s : machine) : Prop :=
  report_delta (self s) = true -> 3 <= reporting_level (self s) ->
  four_levels (previous_summaries (self s)).

(** The mock [m] has been released: it is garbage, collected or not yet. *)
Definition gone (w : world) (m : weakref) : Prop :=
  status w m = Some Unreachable \/ status w m = Some Collected.

(** The mock [m] has been released and [n] checks have reported it. *)
Definition released (m : weakref) (n : nat) (s : machine) : Prop :=
  gone (env s) m /\ reports m (history s) = n.

(** [not self.current_summary]: no summary is held, or an empty one. *)
Definition no_summary (p : plugin) : bool :=
  match current_summary p with
  | None | Some [] => true
  | Some (_ :: _) => false
  end.

(** The summary [finished_level] compares with: the one the plugin holds,
    or the one it takes of the heap when it holds none. *)
Definition summary_in_use (s : machine) : summary :=
  match current_summary (self s) with
  | None | Some [] => heap_summary (env s)
  | Some c => c
  end.

(** No wrapper is installed around [mock.Base.__init__], the plugin does
    not track the mock [m], and [n] checks have reported it. *)
Definition untracked (m : weakref) (n : nat) (s : machine) : Prop :=
  wrappers (env s) = 0%nat /\ (m ∉ mock_refs (self s)) /\
  reports m (history s) = n.

(** No name is recorded for the directory level, and the reporting level
    is [n]. *)
Definition directory_unnamed (n : Z) (s : machine) : Prop :=
  level_name (self s) !! LEVEL_DIR = None /\ reporting_level (self s) = n.

(** The previous test, when the test about to run is of another class. *)
Definition class_changed (p : plugin) (t : test) : option test :=
  match last_test p with
  | Some last => if same_type last t then None else Some last
  | None => None
  end.

(** The history is [h] and the level names are [d]. *)
Definition names_are (h : list entry) (d : gmap Z string) (s : machine) : Prop :=
  history s = h /\ level_name (self s) = d.

(** The history has grown from [h]. *)
Definition extends (h : list entry) (s : machine) : Prop :=
  exists rest, history s = (h ++ rest)%list.



(** [returns P m Q]: from a state where [P] holds, [m] returns a value,
    raising nothing, and [Q] holds of the value and the state it leaves. *)
Definition returns {A : Type} (P : machine -> Prop) (m : M A)
           (Q : A -> machine -> Prop) : Prop :=
  forall s, P s -> exists a, (m s).1 = Ret a /\ Q a (m s).2.

(** Every reference the plugin holds is to a mock that was allocated. *)
Definition refs_allocated (s : machine) : Prop :=
  forall m, m ∈ mock_refs (self s) \/ m ∈ previous_mock_refs (self s) ->
            (m < length (heap (env s)))%nat.

(** The same, with the mock [m] allocated too. *)
Definition allocated_with (m : weakref) (s : machine) : Prop :=
  refs_allocated s /\ (m < length (heap (env s)))%nat.

(* ===================================================================== *)
(** ** Plugins, tests and runs the examples are about                     *)
(* ===================================================================== *)

Definition summary_L : list row := [Row "A" 3 300; Row "B" 1 50].

Definition summary_R : list row := [Row "A" 3 300; Row "C" 2 80].

(** A plugin object reporting at class level, with the flag off. *)
Definition class_level_flag_cleared : machine :=
  Machine (set_check_for_leaks_before_next_test false
             (set_reporting_level LEVEL_CLASS __init__))
          world0 [].

(** A run that reports memory deltas at test level, just after [begin]. *)
Definition test_level_after_begin : machine :=
  run [ev_begin]
      (configure (Some LEVEL_TEST) true false
         (start (World [] 0 [Row "A" 3 300] 1024 []))).2.

(** A world where a mock is alive before nose creates the plugin. *)
Definition world_with_mock : world :=
  World [MockObj Reachable "<Mock id='140'>" None "{}"] 0 [] 0 [].

Definition case_A : test_class := TestClass 1 "CaseA" "mod_a".

Definition test_nothing : test := Test "test_nothing" (TestCase case_A []).

(** Two tests of one class; the first creates a mock and keeps it. *)
Definition test_leaky : test :=
  Test "test_leaky (mod_a.CaseA)"
       (TestCase case_A
          [new_mock "<Mock id='141'>" "{}"
             ["File run.py"; "File test_a.py, in test_leaky";
              "File mock.py, in __init__"; "File plugin.py, in wrapper";
              "File plugin.py, in register_mock"]]).

Definition test_clean : test :=
  Test "test_clean (mod_a.CaseA)" (TestCase case_A []).

(** A plugin as nose configures it by default but for the level;
    [fail_fast] is the class attribute, [True]. *)
Definition configured (level : Z) : machine :=
  (configure (Some level) false true (start world0)).2.

(** The state in which [run_test] finds the plugin for the second test,
    at class level: the mock of the first test is still there. *)
Definition before_second_test : machine :=
  run [ev_begin; ev_beforeTest test_leaky; ev_run_test test_leaky 7;
       ev_afterTest test_leaky; ev_beforeTest test_clean]
      (configured LEVEL_CLASS).

Definition leak_of_first_test : string :=
  "Found 1 new mock(s) that have not been garbage collected:" ++ nl
  ++ "['File plugin.py, in wrapper --> File test_a.py, in test_leaky"
  ++ " --> File run.py : {}']".

(** The run of the leaking test at test level, with [fail_fast] as given. *)
Definition leaky_run (ff : bool) : machine :=
  run [ev_begin; ev_beforeTest test_leaky; ev_run_test test_leaky 7]
      (Machine (set_fail_fast ff (self (configured LEVEL_TEST))) world0 []).

(** The run of the two tests at class level, to its last [afterTest]. *)
Definition two_tests : list event :=
  [ev_begin; ev_beforeTest test_leaky; ev_run_test test_leaky 7;
   ev_afterTest test_leaky; ev_beforeTest test_clean;
   ev_run_test test_clean 8; ev_afterTest test_clean].

(** A test double that is meant to live on, and says so in its name. *)
Definition after_ignored_mock : machine :=
  run [ev_begin;
       ev_outside (new_mock "<Mock name='NOSE_LEAK_DETECTOR_IGNORE' id='142'>"
                            "{}" ["File conftest.py"; "File plugin.py"])]
      (configured LEVEL_CLASS).

(** The state after a test at class level that kept its mock: the final
    check is the first to see it. *)
Definition after_leaky_test : machine :=
  run [ev_begin; ev_beforeTest test_leaky; ev_run_test test_leaky 7;
       ev_afterTest test_leaky]
      (configured LEVEL_CLASS).

(** A plugin that reports memory deltas at test level and patches
    [mock], before [begin]; the heap has three objects of one class. *)
Definition delta_run_start : machine :=
  (configure (Some LEVEL_TEST) true true
     (start (World [] 0 [Row "A" 3 300] 1024 []))).2.

(** The same plugin once [report] has made the final check. *)
Definition after_final_report : machine :=
  run [ev_begin; ev_report] delta_run_start.

(** The call stack at the registration of the mock of [test_leaky]. *)
Definition stack_of_test_leaky : list string :=
  ["File run.py"; "File test_a.py, in test_leaky";
   "File mock.py, in __init__"; "File plugin.py, in wrapper";
   "File plugin.py, in register_mock"].

(** A mock made outside any test and dropped at once. *)
Definition released_mock : machine :=
  run [ev_begin;
       ev_outside (new_mock "<Mock id='141'>" "{}" stack_of_test_leaky);
       ev_outside (release 0)]
      (configured LEVEL_CLASS).

(** One test that makes no mock, then the report. *)
Definition one_clean_test : list event :=
  [ev_beforeTest test_clean; ev_run_test test_clean 8;
   ev_afterTest test_clean; ev_report].

(** The leaking test, then the report. *)
Definition one_leaky_test : list event :=
  [ev_beforeTest test_leaky; ev_run_test test_leaky 7;
   ev_afterTest test_leaky; ev_report].

(** A run at test level with the patch option off, just after [begin]. *)
Definition unpatched_after_begin : machine :=
  run [ev_begin] (configure (Some LEVEL_TEST) false false (start world0)).2.

(** The message of the check that finds the mock of [world_with_mock]. *)
Definition leak_of_existing_mock : string :=
  "Found 1 new mock(s) that have not been garbage collected:" ++ nl
  ++ "['No traceback : {}']".

(* ===================================================================== *)
(** ** The summary difference is a merge                                  *)
(* ===================================================================== *)

Section StringOrder.

Lemma compare_refl (a : string) : (a ?= a)%string = Eq.
Proof. apply String_as_OT.cmp_eq. reflexivity. Qed.

Lemma compare_lt_trans (a b c : string) :
  (a ?= b)%string = Lt -> (b ?= c)%string = Lt -> (a ?= c)%string = Lt.
Proof.
  intros H1 H2. apply String_as_OT.cmp_lt.
  apply String_as_OT.cmp_lt in H1, H2.
  eapply String_as_OT.lt_trans; eassumption.
Qed.

Lemma compare_lt_irrefl (a : string) : (a ?= a)%string <> Lt.
Proof. rewrite compare_refl. discriminate. Qed.

Lemma compare_gt_lt (a b : string) :
  (a ?= b)%string = Gt -> (b ?= a)%string = Lt.
Proof.
  intros H. rewrite String.compare_antisym, H. reflexivity.
Qed.

Lemma ltb_lt (a b : string) : (a <? b)%string = true <-> (a ?= b)%string = Lt.
Proof.
  unfold String.ltb. destruct (a ?= b)%string; split; congruence.
Qed.

Lemma leb_cases (a b : string) :
  (a <=? b)%string = true <-> a = b \/ (a ?= b)%string = Lt.
Proof.
  unfold String.leb. destruct (a ?= b)%string eqn:E; split; intros H.
  - left. apply String_as_OT.cmp_eq. exact E.
  - reflexivity.
  - right. reflexivity.
  - reflexivity.
  - discriminate.
  - destruct H as [-> | H]; [|discriminate].
    rewrite compare_refl in E. discriminate.
Qed.

Lemma leb_trans (a b c : string) :
  (a <=? b)%string = true -> (b <=? c)%string = true ->
  (a <=? c)%string = true.
Proof.
  rewrite !leb_cases. intros [-> | H1] [-> | H2]; auto.
  right. eapply compare_lt_trans; eassumption.
Qed.

End StringOrder.

#[local] Instance key_le_trans : Transitive key_le.
Proof. intros a b c. unfold key_le. apply leb_trans. Qed.

#[local] Instance key_lt_trans : Transitive key_lt.
Proof. intros a b c. unfold key_lt. apply compare_lt_trans. Qed.

Lemma strictly_ascending (l : list row) :
  ascending l -> unique_keys l -> StronglySorted key_lt l.
Proof.
  intros Hs Hu. apply Sorted_StronglySorted in Hs; [|apply key_le_trans].
  induction Hs as [|a l Hl IH Ha]; constructor.
  - apply IH. unfold unique_keys, keys in *. simpl in Hu.
    apply NoDup_cons in Hu. tauto.
  - unfold unique_keys, keys in Hu. simpl in Hu. apply NoDup_cons in Hu.
    destruct Hu as [Hnotin _].
    rewrite Forall_forall in *. intros b Hb.
    specialize (Ha b Hb). unfold key_le in Ha. apply leb_cases in Ha.
    destruct Ha as [Heq | Hlt]; [|exact Hlt].
    exfalso. apply Hnotin. rewrite Heq. apply list_elem_of_fmap.
    exists b. split; [reflexivity|exact Hb].
Qed.

(** A strictly ascending list is a fixed point of [sorted]. *)
Lemma sorted_insert_head (a : row) (l : list row) :
  Forall (key_lt a) l -> sorted_insert a l = a :: l.
Proof.
  destruct l as [|b l]; [reflexivity|]. intros H.
  apply Forall_cons in H. destruct H as [H _]. simpl.
  destruct (objects_key b <? objects_key a)%string eqn:E; [|reflexivity].
  apply ltb_lt in E. exfalso.
  apply (compare_lt_irrefl (objects_key a)).
  eapply compare_lt_trans; eassumption.
Qed.

Lemma sorted_fixed (l : list row) : StronglySorted key_lt l -> sorted l = l.
Proof.
  induction 1 as [|a l Hl IH Ha]; [reflexivity|].
  unfold sorted in *. simpl. rewrite IH. apply sorted_insert_head, Ha.
Qed.

Lemma sorted_insert_length (a : row) (l : list row) :
  length (sorted_insert a l) = S (length l).
Proof.
  induction l as [|b l IH]; [reflexivity|]. simpl.
  destruct (objects_key b <? objects_key a)%string; simpl; congruence.
Qed.

Lemma sorted_length (l : list row) : length (sorted l) = length l.
Proof.
  induction l as [|a l IH]; [reflexivity|].
  unfold sorted in *. simpl. rewrite sorted_insert_length. congruence.
Qed.

Section LoopIsMerge.

Lemma merge_diff_nil_l (r : list row) : merge_diff [] r = r.
Proof. destruct r; reflexivity. Qed.

Lemma merge_diff_nil_r (l : list row) : merge_diff l [] = map val_neg l.
Proof. destruct l; reflexivity. Qed.

Lemma merge_diff_cons (a b : row) (l r : list row) :
  merge_diff (a :: l) (b :: r) =
  if (objects_key a =? objects_key b)%string then delta a b :: merge_diff l r
  else if (objects_key a <? objects_key b)%string
       then val_neg a :: merge_diff l (b :: r)
       else b :: merge_diff (a :: l) r.
Proof. reflexivity. Qed.

(** With both current rows present the pass is the comparison. *)
Lemma loop_both (fuel : nat) (l r : list row) (a b : row) (acc : list row) :
  loop (S fuel) (LoopState l r (Some a) (Some b) false false acc) =
  loop fuel (compare_rows (LoopState l r (Some a) (Some b) false false acc)).
Proof. reflexivity. Qed.

Lemma loop_compare (fuel : nat) :
  forall (a b : row) (l r acc : list row),
    (length l + length r + 1 <= fuel)%nat ->
    loop fuel (compare_rows (LoopState l r (Some a) (Some b) false false acc))
    = Some (acc ++ merge_diff (a :: l) (b :: r))%list.
Proof.
  induction fuel as [|fuel IH]; intros a b l r acc Hfuel; [lia|].
  rewrite merge_diff_cons. unfold compare_rows. cbn [lval rval lit rit ret lend rend].
  destruct (objects_key a =? objects_key b)%string.
  - destruct l as [|a' l], r as [|b' r]; cbn [next_safe].
    + rewrite merge_diff_nil_l. reflexivity.
    + rewrite merge_diff_nil_l. cbn. rewrite <- app_assoc. reflexivity.
    + rewrite merge_diff_nil_r. cbn. rewrite <- app_assoc. reflexivity.
    + rewrite loop_both, IH by (simpl in Hfuel; lia).
      rewrite <- app_assoc. reflexivity.
  - destruct (objects_key a <? objects_key b)%string.
    + destruct l as [|a' l]; cbn [next_safe].
      * rewrite merge_diff_nil_l. cbn. rewrite <- app_assoc. reflexivity.
      * rewrite loop_both, IH by (simpl in Hfuel; lia).
        rewrite <- app_assoc. reflexivity.
    + destruct r as [|b' r]; cbn [next_safe].
      * rewrite merge_diff_nil_r. cbn. rewrite <- app_assoc. reflexivity.
      * rewrite loop_both, IH by (simpl in Hfuel; lia).
        rewrite <- app_assoc. reflexivity.
Qed.

Lemma loop_from_start (fuel : nat) (l r : list row) :
  (length l + length r + 2 <= fuel)%nat ->
  loop fuel (LoopState l r None None false false []) = Some (merge_diff l r).
Proof.
  intros Hfuel. destruct fuel as [|[|fuel]]; [lia|lia|].
  destruct l as [|a l], r as [|b r]; try reflexivity.
  change (loop (S (S fuel)) (LoopState (a :: l) (b :: r) None None false false []))
    with (loop (S fuel)
            (compare_rows (LoopState l r (Some a) (Some b) false false []))).
  rewrite loop_compare by (simpl in Hfuel; lia). reflexivity.
Qed.

(** The loop always comes to an end, on any two summaries, and returns
    the merge of the two sorted inputs. *)
Lemma fast_get_summary_diff_merge (left right : list row) :
  _fast_get_summary_diff left right
  = Some (merge_diff (sorted left) (sorted right)).
Proof. unfold _fast_get_summary_diff. apply loop_from_start. lia. Qed.

End LoopIsMerge.

Section MergeFacts.

Lemma key_order_total (a b : row) : key_order a b.
Proof.
  destruct (objects_key a =? objects_key b)%string eqn:E.
  - apply keys_equal; [exact E|]. apply String.eqb_eq, E.
  - destruct (objects_key a <? objects_key b)%string eqn:L.
    + apply key_left_first; auto. apply ltb_lt, L.
    + apply key_right_first; auto. unfold key_lt.
      destruct (objects_key a ?= objects_key b)%string eqn:C.
      * apply String_as_OT.cmp_eq in C. apply String.eqb_neq in E.
        contradiction.
      * apply ltb_lt in C. congruence.
      * apply compare_gt_lt, C.
Qed.

Lemma key_lt_neq (a b : row) : key_lt a b -> objects_key a <> objects_key b.
Proof.
  unfold key_lt. intros H E. rewrite E in H.
  exact (compare_lt_irrefl _ H).
Qed.

Lemma key_lt_asym (a b : row) : key_lt a b -> key_lt b a -> False.
Proof.
  unfold key_lt. intros H1 H2.
  apply (compare_lt_irrefl (objects_key a)).
  eapply compare_lt_trans; eassumption.
Qed.

Lemma key_lt_same_key (a b c : row) :
  objects_key b = objects_key c -> key_lt a b -> key_lt a c.
Proof. unfold key_lt. intros <-. auto. Qed.

Lemma val_neg_key (a : row) : objects_key (val_neg a) = objects_key a.
Proof. reflexivity. Qed.

Lemma keys_val_neg (l : list row) : keys (map val_neg l) = keys l.
Proof.
  unfold keys. rewrite <- list_fmap_compose. apply list_fmap_ext.
  intros i x _. reflexivity.
Qed.

Lemma keys_cons (a : row) (l : list row) :
  keys (a :: l) = objects_key a :: keys l.
Proof. reflexivity. Qed.

Lemma delta_key (a b : row) : objects_key (delta a b) = objects_key b.
Proof. reflexivity. Qed.

(** The keys of the output are those of either input; this needs no
    hypothesis on the inputs. *)
Lemma merge_diff_keys (l r : list row) (k : string) :
  k ∈ keys (merge_diff l r) <-> k ∈ keys l \/ k ∈ keys r.
Proof.
  revert r. induction l as [|a l IHl]; intros r.
  - rewrite merge_diff_nil_l. change (keys []) with (@nil string).
    rewrite elem_of_nil. tauto.
  - induction r as [|b r IHr].
    + rewrite merge_diff_nil_r, keys_val_neg.
      change (keys []) with (@nil string). rewrite elem_of_nil. tauto.
    + rewrite merge_diff_cons.
      destruct (key_order_total a b) as [E Heq | E L _ | E L _];
        rewrite E; try rewrite L; rewrite !keys_cons, !elem_of_cons.
      * rewrite IHl, delta_key, Heq. tauto.
      * rewrite IHl, val_neg_key, keys_cons, elem_of_cons. tauto.
      * rewrite IHr, keys_cons, elem_of_cons. tauto.
Qed.

Lemma merge_diff_bound (x : row) (l r : list row) :
  Forall (key_lt x) l -> Forall (key_lt x) r ->
  Forall (key_lt x) (merge_diff l r).
Proof.
  rewrite !Forall_forall. intros Hl Hr y Hy.
  assert (Hk : objects_key y ∈ keys (merge_diff l r)).
  { apply list_elem_of_fmap. exists y. auto. }
  apply merge_diff_keys in Hk.
  destruct Hk as [Hk | Hk]; apply list_elem_of_fmap in Hk;
    destruct Hk as [z [Hz Hin]];
    eapply key_lt_same_key; [symmetry; exact Hz | auto | symmetry; exact Hz | auto].
Qed.

Lemma StronglySorted_tail (a : row) (l : list row) :
  StronglySorted key_lt (a :: l) ->
  StronglySorted key_lt l /\ Forall (key_lt a) l.
Proof. intros H. inversion H; subst. auto. Qed.

Lemma Forall_key_lt_trans (a b : row) (l : list row) :
  key_lt a b -> Forall (key_lt b) l -> Forall (key_lt a) l.
Proof.
  intros Hab Hb. eapply Forall_impl; [exact Hb|]. intros c Hbc.
  eapply key_lt_trans; eassumption.
Qed.

Lemma val_neg_sorted (l : list row) :
  StronglySorted key_lt l -> StronglySorted key_lt (map val_neg l).
Proof.
  induction 1 as [|a l Hl IH Ha]; simpl; constructor; [exact IH|].
  rewrite Forall_forall in *. intros y Hy.
  apply list_elem_of_fmap in Hy. destruct Hy as [z [-> Hz]].
  apply (Ha z Hz).
Qed.

(** On strictly ascending inputs the output is strictly ascending. *)
Lemma merge_diff_sorted (l r : list row) :
  StronglySorted key_lt l -> StronglySorted key_lt r ->
  StronglySorted key_lt (merge_diff l r).
Proof.
  revert r. induction l as [|a l IHl]; intros r Hl Hr.
  - rewrite merge_diff_nil_l. exact Hr.
  - apply StronglySorted_tail in Hl. destruct Hl as [Hl Ha].
    induction r as [|b r IHr].
    + rewrite merge_diff_nil_r. apply val_neg_sorted.
      constructor; assumption.
    + pose proof Hr as Hr0.
      apply StronglySorted_tail in Hr. destruct Hr as [Hr Hb].
      rewrite merge_diff_cons.
      destruct (key_order_total a b) as [E Heq | E L Hlt | E L Hlt];
        rewrite E; try rewrite L; constructor.
      * apply IHl; assumption.
      * apply merge_diff_bound.
        -- eapply Forall_impl; [exact Ha|]. intros c Hc.
           unfold key_lt in *. rewrite delta_key, <- Heq. exact Hc.
        -- exact Hb.
      * apply IHl; assumption.
      * apply merge_diff_bound; [exact Ha|].
        constructor; [exact Hlt|].
        eapply Forall_key_lt_trans; eassumption.
      * apply IHr. exact Hr.
      * apply merge_diff_bound; [|exact Hb].
        constructor; [exact Hlt|].
        eapply Forall_key_lt_trans; eassumption.
Qed.

End MergeFacts.

Section MergeRows.

Lemma key_in_keys (x : row) (l : list row) : x ∈ l -> objects_key x ∈ keys l.
Proof. intros H. apply list_elem_of_fmap. exists x. auto. Qed.

(** A row of the left summary whose key the right one lacks comes out
    negated. *)
Lemma merge_diff_left_only (l r : list row) (x : row) :
  x ∈ l -> objects_key x ∉ keys r -> val_neg x ∈ merge_diff l r.
Proof.
  revert r. induction l as [|a l IHl]; intros r Hx Hk.
  - apply elem_of_nil in Hx. contradiction.
  - induction r as [|b r IHr].
    + rewrite merge_diff_nil_r. apply list_elem_of_fmap. exists x. auto.
    + rewrite keys_cons, not_elem_of_cons in Hk. destruct Hk as [Hkb Hkr].
      rewrite merge_diff_cons.
      destruct (key_order_total a b) as [E Heq | E L _ | E L _];
        rewrite E; try rewrite L; apply elem_of_cons.
      * right. apply elem_of_cons in Hx. destruct Hx as [-> | Hx].
        -- contradiction.
        -- apply IHl; assumption.
      * apply elem_of_cons in Hx. destruct Hx as [-> | Hx]; [left; reflexivity|].
        right. apply IHl; [assumption|].
        rewrite keys_cons, not_elem_of_cons. auto.
      * right. apply IHr. exact Hkr.
Qed.

(** A row of the right summary whose key the left one lacks comes out
    as it is. *)
Lemma merge_diff_right_only (l r : list row) (x : row) :
  x ∈ r -> objects_key x ∉ keys l -> x ∈ merge_diff l r.
Proof.
  revert r. induction l as [|a l IHl]; intros r Hx Hk.
  - rewrite merge_diff_nil_l. exact Hx.
  - rewrite keys_cons, not_elem_of_cons in Hk. destruct Hk as [Hka Hkl].
    induction r as [|b r IHr].
    + apply elem_of_nil in Hx. contradiction.
    + rewrite merge_diff_cons.
      destruct (key_order_total a b) as [E Heq | E L _ | E L _];
        rewrite E; try rewrite L; apply elem_of_cons.
      * right. apply elem_of_cons in Hx. destruct Hx as [-> | Hx].
        -- symmetry in Heq. contradiction.
        -- apply IHl; assumption.
      * right. apply IHl; assumption.
      * apply elem_of_cons in Hx. destruct Hx as [-> | Hx]; [left; reflexivity|].
        right. apply IHr. exact Hx.
Qed.

Lemma bound_excludes (a x : row) (l : list row) :
  Forall (key_lt a) l -> x ∈ l -> objects_key x <> objects_key a.
Proof.
  rewrite Forall_forall. intros H Hx E.
  apply (key_lt_neq a x); [apply H, Hx | symmetry; exact E].
Qed.

(** A key that both strictly ascending summaries have comes out with the
    difference of the two rows. *)
Lemma merge_diff_both (l r : list row) (x y : row) :
  StronglySorted key_lt l -> StronglySorted key_lt r ->
  x ∈ l -> y ∈ r -> objects_key x = objects_key y ->
  delta x y ∈ merge_diff l r.
Proof.
  revert r. induction l as [|a l IHl]; intros r Hl Hr Hx Hy Hxy.
  - apply elem_of_nil in Hx. contradiction.
  - apply StronglySorted_tail in Hl. destruct Hl as [Hl Ha].
    induction r as [|b r IHr].
    + apply elem_of_nil in Hy. contradiction.
    + pose proof Hr as Hr0.
      apply StronglySorted_tail in Hr. destruct Hr as [Hr Hb].
      rewrite merge_diff_cons.
      apply elem_of_cons in Hx. apply elem_of_cons in Hy.
      destruct (key_order_total a b) as [E Heq | E L Hlt | E L Hlt];
        rewrite E; try rewrite L; apply elem_of_cons.
      * destruct Hx as [-> | Hx], Hy as [-> | Hy].
        -- left. reflexivity.
        -- exfalso. apply (bound_excludes b y r Hb Hy). congruence.
        -- exfalso. apply (bound_excludes a x l Ha Hx). congruence.
        -- right. apply IHl; assumption.
      * right. destruct Hx as [-> | Hx].
        -- exfalso. destruct Hy as [-> | Hy].
           ++ apply (key_lt_neq a b Hlt Hxy).
           ++ apply (key_lt_asym a b Hlt).
              eapply key_lt_same_key; [symmetry; exact Hxy|].
              rewrite Forall_forall in Hb. apply Hb, Hy.
        -- apply IHl; try assumption.
           apply elem_of_cons. exact Hy.
      * destruct Hy as [-> | Hy].
        -- exfalso. destruct Hx as [-> | Hx].
           ++ apply (key_lt_neq b a Hlt). symmetry. exact Hxy.
           ++ apply (key_lt_asym b a Hlt).
              eapply key_lt_same_key; [exact Hxy|].
              rewrite Forall_forall in Ha. apply Ha, Hx.
        -- right. apply IHr; assumption.
Qed.

Lemma unique_key_row (l : list row) (x y : row) :
  NoDup (keys l) -> x ∈ l -> y ∈ l -> objects_key x = objects_key y -> x = y.
Proof.
  induction l as [|a l IH]; intros Hn Hx Hy E.
  - apply elem_of_nil in Hx. contradiction.
  - rewrite keys_cons in Hn. apply NoDup_cons in Hn. destruct Hn as [Ha Hn].
    apply elem_of_cons in Hx. apply elem_of_cons in Hy.
    destruct Hx as [-> | Hx], Hy as [-> | Hy]; auto.
    + exfalso. apply Ha. rewrite E. apply key_in_keys, Hy.
    + exfalso. apply Ha. rewrite <- E. apply key_in_keys, Hx.
Qed.

Lemma strictly_sorted_unique (l : list row) :
  StronglySorted key_lt l -> NoDup (keys l).
Proof.
  induction 1 as [|a l Hl IH Ha]; [constructor|].
  rewrite keys_cons. apply NoDup_cons. split; [|exact IH].
  intros Hin. apply list_elem_of_fmap in Hin. destruct Hin as [x [E Hx]].
  apply (bound_excludes a x l Ha Hx). symmetry. exact E.
Qed.

End MergeRows.

(* ===================================================================== *)
(** ** C1: the summary difference                                         *)
(* ===================================================================== *)

(** C1. For summaries [L] and [R] sorted ascending by class key, each with
    unique keys, [_fast_get_summary_diff L R] returns a list [out] with:
    the keys of [out] are exactly the keys of [L] together with those of
    [R], each once; a key on both sides comes out with
    [(R.count - L.count, R.size - L.size)]; a key only in [L] comes out as
    [(-L.count, -L.size)]; a key only in [R] comes out as the row of [R];
    and [out] has no other rows. *)
Theorem fast_get_summary_diff_union (L R : list row) :
  ascending L -> unique_keys L -> ascending R -> unique_keys R ->
  exists out : list row,
    _fast_get_summary_diff L R = Some out /\
    unique_keys out /\
    (forall k, k ∈ keys out <-> k ∈ keys L \/ k ∈ keys R) /\
    (forall l r, l ∈ L -> r ∈ R -> row_key l = row_key r ->
       Row (row_key r) (row_count r - row_count l) (row_size r - row_size l)
       ∈ out) /\
    (forall l, l ∈ L -> row_key l ∉ keys R ->
       Row (row_key l) (- row_count l) (- row_size l) ∈ out) /\
    (forall r, r ∈ R -> row_key r ∉ keys L -> r ∈ out) /\
    (forall x, x ∈ out ->
       (exists l r, l ∈ L /\ r ∈ R /\ row_key l = row_key r /\
          x = Row (row_key r) (row_count r - row_count l)
                  (row_size r - row_size l)) \/
       (exists l, l ∈ L /\ (row_key l ∉ keys R) /\
          x = Row (row_key l) (- row_count l) (- row_size l)) \/
       (x ∈ R /\ row_key x ∉ keys L)).
Proof.
  intros HaL HuL HaR HuR.
  pose proof (strictly_ascending L HaL HuL) as HL.
  pose proof (strictly_ascending R HaR HuR) as HR.
  exists (merge_diff L R).
  assert (Hu : unique_keys (merge_diff L R)).
  { apply strictly_sorted_unique, merge_diff_sorted; assumption. }
  assert (Hboth : forall l r, l ∈ L -> r ∈ R -> row_key l = row_key r ->
            delta l r ∈ merge_diff L R).
  { intros l r Hl Hr E. apply merge_diff_both; assumption. }
  split; [|split; [|split; [|split; [|split; [|split]]]]].
  - rewrite fast_get_summary_diff_merge, !sorted_fixed by assumption.
    reflexivity.
  - exact Hu.
  - intros k. apply merge_diff_keys.
  - exact Hboth.
  - intros l Hl Hk. apply (merge_diff_left_only L R l Hl Hk).
  - intros r Hr Hk. apply (merge_diff_right_only L R r Hr Hk).
  - intros x Hx.
    pose proof (key_in_keys x _ Hx) as Hk. apply merge_diff_keys in Hk.
    destruct (decide (objects_key x ∈ keys L)) as [HinL | HninL];
      destruct (decide (objects_key x ∈ keys R)) as [HinR | HninR].
    + left. apply list_elem_of_fmap in HinL, HinR.
      destruct HinL as [l [El Hl]], HinR as [r [Er Hr]].
      exists l, r. repeat split; try assumption.
      * unfold objects_key in *. congruence.
      * apply (unique_key_row (merge_diff L R)); try assumption.
        apply Hboth; try assumption. unfold objects_key in *. congruence.
    + right. left. apply list_elem_of_fmap in HinL.
      destruct HinL as [l [El Hl]]. exists l.
      assert (Hnl : row_key l ∉ keys R).
      { unfold objects_key in *. rewrite <- El. exact HninR. }
      repeat split; try assumption.
      apply (unique_key_row (merge_diff L R)); try assumption.
      apply (merge_diff_left_only L R l Hl Hnl).
    + right. right. split; [|exact HninL].
      apply list_elem_of_fmap in HinR. destruct HinR as [r [Er Hr]].
      assert (Hnr : row_key r ∉ keys L).
      { unfold objects_key in *. rewrite <- Er. exact HninL. }
      assert (x = r) as ->; [|exact Hr].
      apply (unique_key_row (merge_diff L R)); try assumption.
      apply (merge_diff_right_only L R r Hr Hnr).
    + tauto.
Qed.

(** The rows of the two summaries above: the difference has the three keys,
    and the rows that changed are those of B and C. *)
Example diff_of_two_summaries :
  _fast_get_summary_diff summary_L summary_R
  = Some [Row "A" 0 0; Row "B" (-1) (-50); Row "C" 2 80] /\
  filter_nonzero [Row "A" 0 0; Row "B" (-1) (-50); Row "C" 2 80]
  = [Row "B" (-1) (-50); Row "C" 2 80].
Proof. split; reflexivity. Qed.

Lemma fast_get_summary_diff_union_witness :
  exists out : list row,
    _fast_get_summary_diff summary_L summary_R = Some out /\
    unique_keys out /\
    (forall k, k ∈ keys out <-> k ∈ keys summary_L \/ k ∈ keys summary_R) /\
    (forall l r, l ∈ summary_L -> r ∈ summary_R -> row_key l = row_key r ->
       Row (row_key r) (row_count r - row_count l) (row_size r - row_size l)
       ∈ out) /\
    (forall l, l ∈ summary_L -> row_key l ∉ keys summary_R ->
       Row (row_key l) (- row_count l) (- row_size l) ∈ out) /\
    (forall r, r ∈ summary_R -> row_key r ∉ keys summary_L -> r ∈ out) /\
    (forall x, x ∈ out ->
       (exists l r, l ∈ summary_L /\ r ∈ summary_R /\ row_key l = row_key r /\
          x = Row (row_key r) (row_count r - row_count l)
                  (row_size r - row_size l)) \/
       (exists l, l ∈ summary_L /\ (row_key l ∉ keys summary_R) /\
          x = Row (row_key l) (- row_count l) (- row_size l)) \/
       (x ∈ summary_R /\ row_key x ∉ keys summary_L)).
Proof.
  apply (fast_get_summary_diff_union summary_L summary_R).
  - repeat constructor.
  - apply (bool_decide_unpack _). vm_compute. reflexivity.
  - repeat constructor.
  - apply (bool_decide_unpack _). vm_compute. reflexivity.
Defined.

(* ===================================================================== *)
(** ** Reasoning about methods                                            *)
(* ===================================================================== *)

Section Preservation.

Context (I : machine -> Prop).

Lemma preserves_ret {A} (a : A) : preserves I (mret a).
Proof. intros s H. exact H. Qed.

Lemma preserves_raise {A} (e : exn) : preserves I (@raise A e).
Proof. intros s H. exact H. Qed.

Lemma preserves_get_self : preserves I get_self.
Proof. intros s H. exact H. Qed.

Lemma preserves_get_env : preserves I get_env.
Proof. intros s H. exact H. Qed.

Lemma preserves_bind {A B} (m : M A) (f : A -> M B) :
  preserves I m -> (forall a, preserves I (f a)) -> preserves I (m ≫= f).
Proof.
  intros Hm Hf s H. unfold mbind, M_bind.
  specialize (Hm s H). destruct (m s) as [[a | e] s']; simpl in *.
  - apply Hf, Hm.
  - exact Hm.
Qed.

Lemma preserves_when (b : bool) (m : M unit) :
  preserves I m -> preserves I (when b m).
Proof. intros Hm. destruct b; [exact Hm | apply preserves_ret]. Qed.

Lemma preserves_try (m : M unit) (handler : string -> M unit) :
  preserves I m -> (forall msg, preserves I (handler msg)) ->
  preserves I (try_except_LeakDetected m handler).
Proof.
  intros Hm Hh s H. unfold try_except_LeakDetected.
  specialize (Hm s H). destruct (m s) as [[a | [msg | k]] s']; simpl in *.
  - exact Hm.
  - apply Hh, Hm.
  - exact Hm.
Qed.

Lemma preserves_subscript {V} (d : gmap Z V) (k : Z) :
  preserves I (subscript d k).
Proof.
  unfold subscript. destruct (d !! k); [apply preserves_ret | apply preserves_raise].
Qed.

Lemma preserves_repeat (n : nat) (m : M unit) :
  preserves I m -> preserves I (repeat_M n m).
Proof.
  intros Hm. induction n as [|n IH]; simpl.
  - apply preserves_ret.
  - apply preserves_bind; [exact Hm | intros _; exact IH].
Qed.

End Preservation.

(** Breaks a goal [preserves I m] down along the structure of [m], leaving
    the goals for the assignments and calls [m] is made of. *)
Ltac preserve_step :=
  match goal with
  | |- preserves _ (mret _) => apply preserves_ret
  | |- preserves _ (raise _) => apply preserves_raise
  | |- preserves _ get_self => apply preserves_get_self
  | |- preserves _ get_env => apply preserves_get_env
  | |- preserves _ (subscript _ _) => apply preserves_subscript
  | |- preserves _ (_ ≫= _) => apply preserves_bind; [|intros ?]
  | |- preserves _ (when _ _) => apply preserves_when
  | |- preserves _ (try_except_LeakDetected _ _) =>
      apply preserves_try; [|intros ?]
  | |- preserves _ (repeat_M _ _) => apply preserves_repeat
  | |- preserves _ (match ?x with _ => _ end) => destruct x
  end.

Ltac preserve := repeat preserve_step.

(* ===================================================================== *)
(** ** The history is auxiliary                                           *)
(* ===================================================================== *)

Section Blind.

Lemma blind_ret {A} (a : A) : blind (mret a).
Proof. intros s s' Hs He. auto. Qed.

Lemma blind_raise {A} (e : exn) : blind (@raise A e).
Proof. intros s s' Hs He. auto. Qed.

Lemma blind_get_self : blind get_self.
Proof.
  intros s s' Hs He. unfold get_self. cbn [fst snd]. rewrite Hs. auto.
Qed.

Lemma blind_get_env : blind get_env.
Proof.
  intros s s' Hs He. unfold get_env. cbn [fst snd]. rewrite He. auto.
Qed.

Lemma blind_update (f : plugin -> plugin) : blind (update f).
Proof.
  intros s s' Hs He. unfold update. cbn [fst snd self env]. rewrite Hs. auto.
Qed.

Lemma blind_effect (g : world -> world) : blind (effect g).
Proof.
  intros s s' Hs He. unfold effect. cbn [fst snd self env]. rewrite He. auto.
Qed.

Lemma blind_emit (c : call) : blind (emit c).
Proof. apply blind_effect. Qed.

Lemma blind_gc_pass : blind gc_pass.
Proof. apply blind_effect. Qed.

Lemma blind_record (e : entry) : blind (record e).
Proof. intros s s' Hs He. unfold record. cbn [fst snd self env]. auto. Qed.

Lemma blind_bind {A B} (m : M A) (f : A -> M B) :
  blind m -> (forall a, blind (f a)) -> blind (m ≫= f).
Proof.
  intros Hm Hf s s' Hs He. unfold mbind, M_bind.
  destruct (Hm s s' Hs He) as (H1 & H2 & H3).
  destruct (m s) as [[a | e] s1], (m s') as [[a' | e'] s1'];
    cbn [fst snd] in *; try discriminate.
  - injection H1 as ->. apply Hf; assumption.
  - injection H1 as ->. auto.
Qed.

Lemma blind_when (b : bool) (m : M unit) : blind m -> blind (when b m).
Proof. intros Hm. destruct b; [exact Hm | apply blind_ret]. Qed.

Lemma blind_try (m : M unit) (handler : string -> M unit) :
  blind m -> (forall msg, blind (handler msg)) ->
  blind (try_except_LeakDetected m handler).
Proof.
  intros Hm Hh s s' Hs He. unfold try_except_LeakDetected.
  destruct (Hm s s' Hs He) as (H1 & H2 & H3).
  destruct (m s) as [[a | [msg | k]] s1], (m s') as [[a' | [msg' | k']] s1'];
    cbn [fst snd] in *; try discriminate; auto.
  injection H1 as ->. apply Hh; assumption.
Qed.

Lemma blind_subscript {V} (d : gmap Z V) (k : Z) : blind (subscript d k).
Proof.
  unfold subscript. destruct (d !! k); [apply blind_ret | apply blind_raise].
Qed.

Lemma blind_repeat (n : nat) (m : M unit) : blind m -> blind (repeat_M n m).
Proof.
  intros Hm. induction n as [|n IH]; simpl.
  - apply blind_ret.
  - apply blind_bind; [exact Hm | intros _; exact IH].
Qed.

End Blind.

Ltac blind_step :=
  match goal with
  | |- blind (mret _) => apply blind_ret
  | |- blind (raise _) => apply blind_raise
  | |- blind get_self => apply blind_get_self
  | |- blind get_env => apply blind_get_env
  | |- blind (subscript _ _) => apply blind_subscript
  | |- blind (update _) => apply blind_update
  | |- blind (effect _) => apply blind_effect
  | |- blind (emit _) => apply blind_emit
  | |- blind gc_pass => apply blind_gc_pass
  | |- blind (record _) => apply blind_record
  | |- blind (_ ≫= _) => apply blind_bind; [|intros ?]
  | |- blind (when _ _) => apply blind_when
  | |- blind (try_except_LeakDetected _ _) => apply blind_try; [|intros ?]
  | |- blind (repeat_M _ _) => apply blind_repeat
  | |- blind (match ?x with _ => _ end) => destruct x
  end.

Ltac blindly := repeat blind_step.

Section BlindMethods.

Lemma blind_get_summary : blind get_summary.
Proof. unfold get_summary. blindly. Qed.

Lemma blind_register_mock (m : weakref) (stack : list string) :
  blind (register_mock m stack).
Proof. unfold register_mock. blindly. Qed.

Lemma blind_error_messages (l : list weakref) : blind (error_messages l).
Proof.
  induction l as [|m l IH]; cbn [error_messages]; blindly; [|exact IH].
  unfold error_message. blindly.
Qed.

Lemma blind_check_for_leaks : blind check_for_leaks.
Proof. unfold check_for_leaks. blindly. apply blind_error_messages. Qed.

Lemma blind_finished_level (level : Z) (name : string) :
  blind (finished_level level name).
Proof.
  unfold finished_level, memory_delta_report.
  blindly; apply blind_get_summary.
Qed.

Lemma blind_perform (a : action) : blind (perform a).
Proof. destruct a; unfold perform; blindly. apply blind_register_mock. Qed.

Lemma blind_perform_all (body : list action) : blind (perform_all body).
Proof.
  induction body as [|a body IH]; cbn [perform_all]; blindly; [|exact IH].
  apply blind_perform.
Qed.

Lemma blind_do_check (t : test) (result : nat) (before : bool) :
  blind (do_check t result before).
Proof.
  unfold do_check, get_level_path. blindly. apply blind_check_for_leaks.
Qed.

Lemma blind_final_check : blind final_check.
Proof. unfold final_check. blindly. apply blind_check_for_leaks. Qed.

Lemma blind_handle (e : event) : blind (handle e).
Proof.
  destruct e; cbn [handle].
  - unfold begin, create_initial_summary. blindly. apply blind_get_summary.
  - unfold beforeTest, started_level. blindly. apply blind_finished_level.
  - unfold run_test. blindly;
      first [apply blind_do_check | apply blind_perform_all].
  - unfold afterTest. blindly. apply blind_finished_level.
  - unfold report. blindly; apply blind_final_check.
  - unfold finalize. blindly; apply blind_final_check.
  - apply blind_perform.
Qed.

(** Whatever history a run starts from, the plugin and the world end up
    the same: the history only records. *)
Lemma history_is_auxiliary (es : list event) (s : machine) (h : list entry) :
  self (run es (Machine (self s) (env s) h)) = self (run es s) /\
  env (run es (Machine (self s) (env s) h)) = env (run es s).
Proof.
  assert (H : forall s s', self s = self s' -> env s = env s' ->
                           self (run es s) = self (run es s') /\
                           env (run es s) = env (run es s')).
  { induction es as [|e es IH]; intros s1 s2 Hs He; cbn [run]; [auto|].
    destruct (blind_handle e s1 s2 Hs He) as (_ & H2 & H3).
    apply IH; assumption. }
  apply H; reflexivity.
Qed.

End BlindMethods.

(* ===================================================================== *)
(** ** C5: [finished_level] and the reporting level                       *)
(* ===================================================================== *)

Lemma get_summary_flag_set : preserves flag_set get_summary.
Proof.
  unfold get_summary, gc_pass, emit. preserve; intros s H; exact H.
Qed.

Lemma memory_delta_report_flag_set (level : Z) (name : string) :
  preserves flag_set (memory_delta_report level name).
Proof.
  unfold memory_delta_report, emit.
  preserve; try apply get_summary_flag_set; intros s H; exact H.
Qed.

(** What [finished_level] does before it looks at [report_delta]. *)
Lemma finished_level_unfold (level : Z) (name : string) (s : machine) :
  finished_level level name s =
  let p := self s in
  let s1 :=
    Machine (if (level <=? reporting_level p)%Z
             then set_check_for_leaks_before_next_test true p else p)
            (env s) (history s ++ [finished level name]) in
  if (level >? reporting_level p)%Z then (Ret tt, s1)
  else when (report_delta p) (memory_delta_report level name) s1.
Proof.
  unfold finished_level, mbind, M_bind, record, get_self, when, update.
  simpl. destruct (level <=? reporting_level (self s))%Z; simpl;
    destruct (level >? reporting_level (self s))%Z; reflexivity.
Qed.

(** C5, as the code has it. [finished_level level name] compares with
    [level <= reporting_level], and levels are numbered from the coarsest
    (Directory, 1) to the finest (Test, 4): when [level] is at or coarser
    than the reporting level the flag [check_for_leaks_before_next_test] is
    set, whatever happens next; when [level] is finer than the reporting
    level the call returns at once and changes neither the plugin nor the
    world. *)
Theorem finished_level_threshold (level : Z) (name : string) (s : machine) :
  (level <= reporting_level (self s) ->
   check_for_leaks_before_next_test (self (finished_level level name s).2)
   = true) /\
  (reporting_level (self s) < level ->
   (finished_level level name s).1 = Ret tt /\
   self (finished_level level name s).2 = self s /\
   env (finished_level level name s).2 = env s).
Proof.
  rewrite finished_level_unfold. cbv zeta. split; intros H.
  - apply Z.leb_le in H. rewrite H.
    destruct (level >? reporting_level (self s))%Z; [reflexivity|].
    apply preserves_when; [apply memory_delta_report_flag_set|].
    reflexivity.
  - assert (Hle : (level <=? reporting_level (self s))%Z = false)
      by (apply Z.leb_gt; exact H).
    assert (Hgt : (level >? reporting_level (self s))%Z = true)
      by (apply Z.gtb_lt; exact H).
    rewrite Hle, Hgt. auto.
Qed.

Lemma finished_level_threshold_witness :
  check_for_leaks_before_next_test
    (self (finished_level LEVEL_CLASS "CaseA" class_level_flag_cleared).2)
  = true /\
  ((finished_level LEVEL_TEST "test_one" class_level_flag_cleared).1 = Ret tt /\
   self (finished_level LEVEL_TEST "test_one" class_level_flag_cleared).2
   = self class_level_flag_cleared /\
   env (finished_level LEVEL_TEST "test_one" class_level_flag_cleared).2
   = env class_level_flag_cleared).
Proof.
  split.
  - apply (proj1 (finished_level_threshold LEVEL_CLASS "CaseA"
                    class_level_flag_cleared)).
    vm_compute. discriminate.
  - apply (proj2 (finished_level_threshold LEVEL_TEST "test_one"
                    class_level_flag_cleared)).
    vm_compute. reflexivity.
Defined.

(** C5 as stated fails both ways.  Class (3) is coarser than Test (4):
    in a run with the reporting level at Test and delta reports on,
    [finished_level LEVEL_CLASS] takes a summary and prints a report.  Test
    is finer than Class: with the reporting level at Class,
    [finished_level LEVEL_TEST] does not touch the flag, as shows on a
    plugin object whose flag is off (the plugin itself never turns it
    off). *)
Lemma finished_level_counterexample :
  (LEVEL_CLASS < reporting_level (self test_level_after_begin) /\
   calls (env test_level_after_begin) = [gc_collect; muppy_get_objects;
                                         gc_collect; muppy_get_objects] /\
   calls (env (finished_level LEVEL_CLASS "CaseA" test_level_after_begin).2)
   = [gc_collect; muppy_get_objects; gc_collect; muppy_get_objects;
      print (plain "Peak memory usage for CaseA: 1024");
      gc_collect; muppy_get_objects;
      print (colored
               ("Memory Delta Report for CLASS: CaseA" ++ nl ++ "No changes"
                ++ nl ++ "Peak memory usage: 1024") "blue")]) /\
  (reporting_level (self class_level_flag_cleared) <= LEVEL_TEST /\
   check_for_leaks_before_next_test
     (self (finished_level LEVEL_TEST "test_one" class_level_flag_cleared).2)
   = false).
Proof.
  split; split; [reflexivity | split; vm_compute; reflexivity
                | vm_compute; discriminate | reflexivity].
Qed.

(* ===================================================================== *)
(** ** Liveness of mocks                                                  *)
(* ===================================================================== *)

Section Liveness.

Lemma lookup_map {A B} (f : A -> B) (l : list A) (i : nat) :
  map f l !! i = f <$> l !! i.
Proof.
  revert i. induction l as [|a l IH]; intros [|i]; simpl; auto.
Qed.

Lemma is_live_status (w : world) (m : weakref) :
  is_live w m =
  match status w m with
  | Some Reachable | Some Unreachable => true
  | Some Collected | None => false
  end.
Proof.
  unfold is_live, deref, status. destruct (heap w !! m) as [o|]; simpl;
    [destruct (mock_state o)|]; reflexivity.
Qed.

Lemma collect_state (o : mock_obj) :
  mock_state (collect o) =
  match mock_state o with Reachable => Reachable | _ => Collected end.
Proof. unfold collect. destruct (mock_state o) eqn:E; simpl; auto. Qed.

Lemma collect_repr (o : mock_obj) : mock_repr (collect o) = mock_repr o.
Proof. unfold collect. destruct (mock_state o); reflexivity. Qed.

Lemma collect_idem (o : mock_obj) : collect (collect o) = collect o.
Proof.
  unfold collect. destruct (mock_state o) eqn:E; simpl; rewrite ?E; reflexivity.
Qed.

Lemma collected_idem (w : world) : collected (collected w) = collected w.
Proof.
  unfold collected, set_heap. simpl. f_equal.
  rewrite map_map. apply map_ext. intros o. apply collect_idem.
Qed.

Lemma status_collected (w : world) (m : weakref) :
  status (collected w) m =
  match status w m with
  | Some Reachable => Some Reachable
  | Some _ => Some Collected
  | None => None
  end.
Proof.
  unfold status, collected, set_heap. cbn [heap].
  rewrite lookup_map.
  destruct (heap w !! m) as [o|]; cbn [fmap option_fmap option_map];
    [|reflexivity].
  rewrite collect_state. destruct (mock_state o); reflexivity.
Qed.

(** After a collection pass the live mocks are the reachable ones. *)
Lemma is_live_collected (w : world) (m : weakref) :
  is_live (collected w) m = true <-> reachable w m.
Proof.
  rewrite is_live_status, status_collected. unfold reachable.
  destruct (status w m) as [[]|]; split; congruence.
Qed.

Lemma repr_collected (w : world) (m : weakref) :
  repr (collected w) m = repr w m.
Proof.
  unfold repr, collected, set_heap. cbn [heap]. rewrite lookup_map.
  destruct (heap w !! m) as [o|]; cbn [fmap option_fmap option_map];
    [apply collect_repr | reflexivity].
Qed.

Lemma status_alter (f : mock_obj -> mock_obj) (i : nat) (w : world)
      (m : weakref) :
  (forall o, mock_state (f o) = mock_state o) ->
  status (set_heap (alter f i (heap w)) w) m = status w m.
Proof.
  intros Hf. unfold status, set_heap. cbn [heap].
  destruct (decide (i = m)) as [-> | Hne].
  - rewrite list_lookup_alter_eq. destruct (heap w !! m); simpl; [|reflexivity].
    rewrite Hf. reflexivity.
  - rewrite list_lookup_alter_ne by exact Hne. reflexivity.
Qed.

Lemma status_release (i : nat) (w : world) (m : weakref) :
  reachable (set_heap (alter drop_reference i (heap w)) w) m ->
  reachable w m.
Proof.
  unfold reachable, status, set_heap. cbn [heap].
  destruct (decide (i = m)) as [-> | Hne].
  - rewrite list_lookup_alter_eq. destruct (heap w !! m) as [o|]; simpl; [|auto].
    unfold drop_reference. destruct (mock_state o) eqn:E; simpl; congruence.
  - rewrite list_lookup_alter_ne by exact Hne. auto.
Qed.

Lemma status_alloc (o : mock_obj) (w : world) (m : weakref) :
  (m < length (heap w))%nat ->
  status (set_heap (heap w ++ [o]) w) m = status w m.
Proof.
  intros H. unfold status, set_heap. cbn [heap].
  rewrite lookup_app_l by exact H.
  reflexivity.
Qed.

Lemma status_allocated (w : world) (m : weakref) :
  is_Some (status w m) <-> (m < length (heap w))%nat.
Proof.
  unfold status. rewrite fmap_is_Some. apply lookup_lt_is_Some.
Qed.

Lemma reachable_allocated (w : world) (m : weakref) :
  reachable w m -> (m < length (heap w))%nat.
Proof. intros H. apply status_allocated. rewrite H. eauto. Qed.

Lemma elem_of_get_objects (w : world) (m : weakref) :
  m ∈ get_objects w <-> is_live w m = true.
Proof.
  unfold get_objects. rewrite list_elem_of_In, filter_In, <- list_elem_of_In.
  rewrite elem_of_seq. split; [tauto|]. intros H. split; [|exact H].
  rewrite is_live_status in H. split; [lia|]. simpl.
  apply status_allocated. destruct (status w m); [eauto | discriminate].
Qed.

End Liveness.

(* ===================================================================== *)
(** ** What a check does                                                  *)
(* ===================================================================== *)

Section CheckForLeaks.

Lemma same_mocks_refl (w : world) : same_mocks w w.
Proof. unfold same_mocks. auto. Qed.

Lemma same_mocks_trans (w1 w2 w3 : world) :
  same_mocks w1 w2 -> same_mocks w2 w3 -> same_mocks w1 w3.
Proof.
  unfold same_mocks. intros (A1 & B1 & C1 & D1 & E1) (A2 & B2 & C2 & D2 & E2).
  repeat split; intros; congruence.
Qed.

Lemma same_mocks_is_live (w w' : world) (m : weakref) :
  same_mocks w w' -> is_live w' m = is_live w m.
Proof. intros (A & _). rewrite !is_live_status, A. reflexivity. Qed.

Lemma repr_alter (f : mock_obj -> mock_obj) (i : nat) (w : world)
      (m : weakref) :
  (forall o, mock_repr (f o) = mock_repr o) ->
  repr (set_heap (alter f i (heap w)) w) m = repr w m.
Proof.
  intros Hf. unfold repr, set_heap. cbn [heap].
  destruct (decide (i = m)) as [-> | Hne].
  - rewrite list_lookup_alter_eq. destruct (heap w !! m); simpl; auto.
  - rewrite list_lookup_alter_ne by exact Hne. reflexivity.
Qed.

Lemma same_mocks_set_traceback (tb : option (list string)) (i : nat)
      (w : world) :
  same_mocks w (set_heap (alter (set_traceback tb) i (heap w)) w).
Proof.
  repeat split.
  - intros m. apply status_alter. reflexivity.
  - intros m. apply repr_alter. reflexivity.
  - unfold set_heap. cbn [heap]. apply length_alter.
Qed.

(** [error_message] returns, and touches nothing but the traceback. *)
Lemma error_message_spec (m : weakref) (s : machine) :
  exists (e : string) (w' : world),
    error_message m s = (Ret e, Machine (self s) w' (history s)) /\
    same_mocks (env s) w'.
Proof.
  unfold error_message, mbind, M_bind, get_env, effect. simpl.
  destruct (heap (env s) !! m) as [o|]; simpl.
  - eexists _, _. split; [reflexivity|]. apply same_mocks_set_traceback.
  - exists "", (env s). split; [destruct s; reflexivity | apply same_mocks_refl].
Qed.

Lemma error_messages_spec (l : list weakref) (s : machine) :
  exists (es : list string) (w' : world),
    error_messages l s = (Ret es, Machine (self s) w' (history s)) /\
    same_mocks (env s) w'.
Proof.
  revert s. induction l as [|m l IH]; intros s.
  - exists [], (env s). split; [destruct s; reflexivity | apply same_mocks_refl].
  - cbn [error_messages]. unfold mbind at 1, M_bind at 1.
    destruct (error_message_spec m s) as (e & w1 & -> & H1).
    unfold mbind at 1, M_bind at 1.
    destruct (IH (Machine (self s) w1 (history s))) as (es & w2 & -> & H2).
    simpl in *. eexists _, _. split; [reflexivity|].
    eapply same_mocks_trans; eassumption.
Qed.

(** The state a check leaves behind, up to the tracebacks read off the
    reported mocks, and how it ends. *)
Lemma check_for_leaks_unfold (s : machine) :
  check_for_leaks s =
  let w := collected (env s) in
  let new_mocks := new_mocks_of w (self s) in
  let s1 :=
    Machine (set_previous_mock_refs (mocks_of w (self s)) (self s))
            (log gc_collect w)
            (history s ++ [checked new_mocks]) in
  match new_mocks with
  | [] => (Ret tt, s1)
  | _ :: _ =>
      (errs ← error_messages new_mocks;
       raise (LeakDetected (leak_message (length new_mocks) errs))) s1
  end.
Proof.
  unfold check_for_leaks, gc_pass, mbind, M_bind, effect, get_self, get_env,
    record, update.
  cbn [self env history].
  change (new_mocks_of (log gc_collect (collected (env s))) (self s))
    with (new_mocks_of (collected (env s)) (self s)).
  change (mocks_of (log gc_collect (collected (env s))) (self s))
    with (mocks_of (collected (env s)) (self s)).
  cbv zeta.
  destruct (new_mocks_of (collected (env s)) (self s)); reflexivity.
Qed.

Lemma check_for_leaks_spec (s : machine) :
  let w := collected (env s) in
  let new_mocks := new_mocks_of w (self s) in
  exists w' : world,
    same_mocks (log gc_collect w) w' /\
    (check_for_leaks s).2 =
      Machine (set_previous_mock_refs (mocks_of w (self s)) (self s)) w'
              (history s ++ [checked new_mocks]) /\
    match new_mocks with
    | [] => (check_for_leaks s).1 = Ret tt /\ w' = log gc_collect w
    | _ :: _ => exists message, (check_for_leaks s).1 = Raise (LeakDetected message)
    end.
Proof.
  cbv zeta. rewrite check_for_leaks_unfold. cbv zeta.
  destruct (new_mocks_of (collected (env s)) (self s)) as [|m l] eqn:E.
  - eexists. split; [apply same_mocks_refl|]. simpl. auto.
  - unfold mbind, M_bind.
    match goal with
    | |- context [error_messages ?l ?s1] =>
        destruct (error_messages_spec l s1) as (es & w' & -> & Hw)
    end.
    simpl in *. exists w'. split; [exact Hw|]. split; [reflexivity|].
    eexists. reflexivity.
Qed.

End CheckForLeaks.

(* ===================================================================== *)
(** ** C6 and C8: the baseline and the ignore marker                      *)
(* ===================================================================== *)

Section Substring.

Lemma append_cons (c : ascii) (a b : string) :
  String c a ++ b = String c (a ++ b).
Proof. reflexivity. Qed.

Lemma append_nil (b : string) : "" ++ b = b.
Proof. reflexivity. Qed.

Lemma prefix_spec (word s : string) :
  String.prefix word s = true <-> exists post, s = word ++ post.
Proof.
  revert s. induction word as [|c word IH]; intros s.
  - simpl. split; [intros _; exists s; reflexivity | destruct s; reflexivity].
  - destruct s as [|d s]; simpl.
    + split; [discriminate|].
      intros [post H]. rewrite append_cons in H. discriminate.
    + destruct (Ascii.ascii_dec c d) as [-> | Hne].
      * rewrite IH.
        split; intros [post H]; exists post; rewrite append_cons in *;
          congruence.
      * split; [discriminate|].
        intros [post H]. rewrite append_cons in H. congruence.
Qed.

(** [contains word s] is Python's [word in s]: [word] occurs in [s]. *)
Lemma contains_spec (word s : string) :
  contains word s = true <-> exists pre post, s = pre ++ word ++ post.
Proof.
  induction s as [|c s IH]; simpl.
  - rewrite orb_false_r.
    change (match word with "" => true | String _ _ => false end)
      with (String.prefix word "").
    rewrite prefix_spec. split.
    + intros [post H]. exists "", post. exact H.
    + intros (pre & post & H). destruct pre; [eauto|].
      rewrite append_cons in H. discriminate.
  - rewrite orb_true_iff, IH.
    change (match word with
            | "" => true
            | String a1 s1' => if Ascii.ascii_dec a1 c then String.prefix s1' s else false
            end) with (String.prefix word (String c s)).
    rewrite prefix_spec. split.
    + intros [[post H] | (pre & post & H)].
      * exists "", post. exact H.
      * exists (String c pre), post. rewrite append_cons. congruence.
    + intros (pre & post & H). destruct pre as [|d pre].
      * left. eauto.
      * right. exists pre, post. rewrite append_cons in H. congruence.
Qed.

End Substring.

Lemma elem_of_mocks_of (w : world) (p : plugin) (m : weakref) :
  m ∈ mocks_of w p <-> m ∈ mock_refs p /\ is_live w m = true.
Proof.
  unfold mocks_of. rewrite !list_elem_of_In. apply filter_In.
Qed.

Lemma elem_of_previous_ids (w : world) (p : plugin) (m : weakref) :
  m ∈ previous_ids w p <-> m ∈ previous_mock_refs p /\ is_live w m = true.
Proof.
  unfold previous_ids. rewrite !list_elem_of_In. apply filter_In.
Qed.

Lemma existsb_eqb (m : weakref) (l : list weakref) :
  existsb (Nat.eqb m) l = true <-> m ∈ l.
Proof.
  rewrite existsb_exists, list_elem_of_In. split.
  - intros (x & Hx & E). apply Nat.eqb_eq in E. subst. exact Hx.
  - intros H. exists m. split; [exact H | apply Nat.eqb_refl].
Qed.

(** The new-leak set: tracked, live, not ignored, not in the baseline. *)
Lemma elem_of_new_mocks_of (w : world) (p : plugin) (m : weakref) :
  m ∈ new_mocks_of w p <->
  m ∈ mock_refs p /\ is_live w m = true /\ ignored w m = false /\
  m ∉ previous_ids w p.
Proof.
  unfold new_mocks_of, filtered_mocks_of.
  rewrite list_elem_of_In, !filter_In, <- list_elem_of_In, elem_of_mocks_of.
  rewrite !negb_true_iff.
  assert (H : existsb (Nat.eqb m) (previous_ids w p) = false
              <-> m ∉ previous_ids w p).
  { rewrite <- existsb_eqb. symmetry. apply not_true_iff_false. }
  tauto.
Qed.

(** C6. After [check_for_leaks], whether it raised or returned,
    [previous_mock_refs] is the list of the tracked references that were
    live at the check (after its collection pass): it keeps the mocks that
    carry an ignore marker, it has no reference to a collected mock, and
    all its mocks are still live when the check is over. *)
Theorem check_for_leaks_baseline (s : machine) :
  previous_mock_refs (self (check_for_leaks s).2)
  = List.filter (is_live (collected (env s))) (mock_refs (self s)) /\
  (forall m, m ∈ previous_mock_refs (self (check_for_leaks s).2) <->
             m ∈ mock_refs (self s) /\ is_live (collected (env s)) m = true) /\
  (forall m, m ∈ previous_mock_refs (self (check_for_leaks s).2) ->
             is_live (env (check_for_leaks s).2) m = true).
Proof.
  destruct (check_for_leaks_spec s) as (w' & Hw & -> & _). cbn [self env].
  split; [reflexivity|]. split.
  - intros m. apply elem_of_mocks_of.
  - intros m Hm. apply elem_of_mocks_of in Hm. destruct Hm as [_ Hm].
    rewrite (same_mocks_is_live _ _ m Hw). exact Hm.
Qed.

(** C8. At a check, a mock whose representation contains one of the words
    of [IGNORED_MOCK_NAME_WORDS] is not in the new-leak set, however long
    it has been live; and it is no cause of a [LeakDetected]: if the check
    raises, some other mock, with no marker, is in the new-leak set, and if
    every live tracked mock carries a marker the check returns normally. *)
Theorem ignored_mock_never_new (s : machine) (m : weakref)
        (word pre post : string) :
  word ∈ IGNORED_MOCK_NAME_WORDS ->
  repr (env s) m = pre ++ word ++ post ->
  (m ∉ new_mocks_of (collected (env s)) (self s)) /\
  (forall message,
     (check_for_leaks s).1 = Raise (LeakDetected message) ->
     exists m', m' ∈ new_mocks_of (collected (env s)) (self s) /\ m' <> m /\
                ignored (collected (env s)) m' = false) /\
  ((forall m', m' ∈ mock_refs (self s) ->
               is_live (collected (env s)) m' = true ->
               ignored (collected (env s)) m' = true) ->
   (check_for_leaks s).1 = Ret tt).
Proof.
  intros Hword Hrepr.
  assert (Hig : ignored (collected (env s)) m = true).
  { unfold ignored. rewrite repr_collected. apply existsb_exists.
    exists word. split; [apply list_elem_of_In, Hword|].
    apply contains_spec. eauto. }
  assert (Hnot : m ∉ new_mocks_of (collected (env s)) (self s)).
  { rewrite elem_of_new_mocks_of. intros (_ & _ & H & _). congruence. }
  destruct (check_for_leaks_spec s) as (w' & _ & _ & Hout).
  split; [exact Hnot|]. split.
  - intros message Hraise.
    destruct (new_mocks_of (collected (env s)) (self s)) as [|m' l] eqn:E.
    + destruct Hout as [Hret _]. congruence.
    + exists m'. assert (Hin : m' ∈ m' :: l) by apply list_elem_of_here.
      split; [exact Hin|]. rewrite <- E in Hin. split.
      * intros ->. apply Hnot, list_elem_of_here.
      * apply elem_of_new_mocks_of in Hin. tauto.
  - intros Hall.
    destruct (new_mocks_of (collected (env s)) (self s)) as [|m' l] eqn:E.
    + tauto.
    + exfalso. assert (Hin : m' ∈ new_mocks_of (collected (env s)) (self s))
        by (rewrite E; apply list_elem_of_here).
      apply elem_of_new_mocks_of in Hin. destruct Hin as (H1 & H2 & H3 & _).
      rewrite (Hall m' H1 H2) in H3. discriminate.
Qed.

(* ===================================================================== *)
(** ** C7: a mock is reported once                                        *)
(* ===================================================================== *)

Section ReportedOnce.

Context (m : weakref).

Lemma reports_app (h : list entry) (e : entry) :
  reports m (h ++ [e]) =
  (reports m h +
   match e with
   | checked new_mocks => if existsb (Nat.eqb m) new_mocks then 1 else 0
   | finished _ _ => 0
   end)%nat.
Proof.
  unfold reports. rewrite List.filter_app, length_app. f_equal.
  destruct e as [level name | new_mocks]; simpl; [reflexivity|].
  destruct (existsb (Nat.eqb m) new_mocks); reflexivity.
Qed.

Lemma ages_same_heap (w w' : world) : heap w' = heap w -> ages m w w'.
Proof.
  intros H. unfold ages, reachable, status. rewrite H. auto.
Qed.

Lemma ages_collected (w : world) : ages m w (collected w).
Proof.
  split.
  - unfold collected, set_heap. cbn [heap]. rewrite length_map. lia.
  - intros _. unfold reachable. rewrite status_collected.
    destruct (status w m) as [[]|]; congruence.
Qed.

Lemma ages_alter_state (f : mock_obj -> mock_obj) (i : nat) (w : world) :
  (forall o, mock_state (f o) = mock_state o) ->
  ages m w (set_heap (alter f i (heap w)) w).
Proof.
  intros Hf. split.
  - unfold set_heap. cbn [heap]. rewrite length_alter. lia.
  - intros _. unfold reachable. rewrite status_alter by exact Hf. auto.
Qed.

Lemma ages_release (i : nat) (w : world) :
  ages m w (set_heap (alter drop_reference i (heap w)) w).
Proof.
  split.
  - unfold set_heap. cbn [heap]. rewrite length_alter. lia.
  - intros _. apply status_release.
Qed.

Lemma ages_alloc (o : mock_obj) (w : world) :
  ages m w (set_heap (heap w ++ [o]) w).
Proof.
  split.
  - unfold set_heap. cbn [heap]. rewrite length_app. lia.
  - intros Hm. unfold reachable. rewrite status_alloc by exact Hm. auto.
Qed.

Lemma ages_trans (w1 w2 w3 : world) :
  ages m w1 w2 -> ages m w2 w3 -> ages m w1 w3.
Proof.
  intros [L1 R1] [L2 R2]. split; [lia|].
  intros Hm H3. apply R1; [exact Hm|]. apply R2; [lia | exact H3].
Qed.

Lemma keeps_effect (g : world -> world) :
  (forall w, ages m w (g w)) -> preserves (baseline_keeps m) (effect g).
Proof.
  intros Hg s [H1 H2]. split; [exact H1|]. cbn [snd effect self env history].
  intros Hr. destruct (H2 Hr) as [Hlen Hkeep].
  destruct (Hg (env s)) as [Hl Hback]. split; [lia|].
  intros Hreach. apply Hkeep, Hback; assumption.
Qed.

Lemma keeps_emit (c : call) : preserves (baseline_keeps m) (emit c).
Proof. apply keeps_effect. intros w. apply ages_same_heap. reflexivity. Qed.

Lemma keeps_gc_pass : preserves (baseline_keeps m) gc_pass.
Proof.
  apply keeps_effect. intros w. eapply ages_trans; [apply ages_collected|].
  apply ages_same_heap. reflexivity.
Qed.

Lemma keeps_update (f : plugin -> plugin) :
  (forall p, mock_refs (f p) = mock_refs p) ->
  (forall p, previous_mock_refs (f p) = previous_mock_refs p) ->
  preserves (baseline_keeps m) (update f).
Proof.
  intros Hr Hp s H. unfold baseline_keeps in *.
  cbn [snd update self env history]. rewrite Hr, Hp. exact H.
Qed.

Lemma keeps_track (m' : weakref) :
  preserves (baseline_keeps m)
            (update (fun p => set_mock_refs (mock_refs p ++ [m']) p)).
Proof.
  intros s [H1 H2]. split; [exact H1|].
  cbn [snd update self env history set_mock_refs mock_refs previous_mock_refs].
  intros Hr. destruct (H2 Hr) as [Hlen Hkeep]. split; [exact Hlen|].
  intros Hreach. destruct (Hkeep Hreach) as [Hp Ht]. split; [exact Hp|].
  apply elem_of_app. left. exact Ht.
Qed.

Lemma keeps_record_finished (level : Z) (name : string) :
  preserves (baseline_keeps m) (record (finished level name)).
Proof.
  intros s H. unfold baseline_keeps in *.
  cbn [snd record self env history]. rewrite reports_app, Nat.add_0_r.
  exact H.
Qed.

End ReportedOnce.

Ltac keeps_leaf :=
  match goal with
  | |- preserves _ (emit _) => apply keeps_emit
  | |- preserves _ gc_pass => apply keeps_gc_pass
  | |- preserves _ (record (finished _ _)) => apply keeps_record_finished
  | |- preserves _ (update (fun p => set_mock_refs (mock_refs p ++ _) p)) =>
      apply keeps_track
  | |- preserves _ (update _) => apply keeps_update; reflexivity
  | |- preserves _ (effect _) =>
      apply keeps_effect; intros ?;
      first [ apply ages_same_heap; reflexivity
            | apply ages_alter_state; reflexivity
            | apply ages_release
            | apply ages_alloc ]
  end.

Ltac keeps := repeat first [preserve_step | keeps_leaf].

Section ReportedOnceMethods.

Context (m : weakref).

Lemma keeps_get_summary : preserves (baseline_keeps m) get_summary.
Proof. unfold get_summary. keeps. Qed.

Lemma keeps_register_mock (m' : weakref) (stack : list string) :
  preserves (baseline_keeps m) (register_mock m' stack).
Proof. unfold register_mock. keeps. Qed.

Lemma keeps_error_message (m' : weakref) :
  preserves (baseline_keeps m) (error_message m').
Proof. unfold error_message. keeps. Qed.

Lemma keeps_error_messages (l : list weakref) :
  preserves (baseline_keeps m) (error_messages l).
Proof.
  induction l as [|m' l IH]; cbn [error_messages]; keeps.
  - apply keeps_error_message.
  - exact IH.
Qed.

(** The step of a check: the entry in the history and the new baseline. *)
Lemma keeps_check_step (s : machine) :
  baseline_keeps m s ->
  baseline_keeps m
    (Machine (set_previous_mock_refs
                (mocks_of (collected (env s)) (self s)) (self s))
             (log gc_collect (collected (env s)))
             (history s ++ [checked (new_mocks_of (collected (env s)) (self s))])).
Proof.
  intros [H1 H2]. unfold baseline_keeps.
  cbn [self env history set_previous_mock_refs previous_mock_refs mock_refs].
  rewrite reports_app.
  change (heap (log gc_collect (collected (env s))))
    with (heap (collected (env s))).
  change (reachable (log gc_collect (collected (env s))) m)
    with (reachable (collected (env s)) m).
  assert (Hlen : length (heap (collected (env s))) = length (heap (env s))).
  { unfold collected, set_heap. cbn [heap]. apply length_map. }
  assert (Hre : reachable (collected (env s)) m -> reachable (env s) m).
  { unfold reachable. rewrite status_collected.
    destruct (status (env s) m) as [[]|]; congruence. }
  rewrite Hlen.
  destruct (existsb (Nat.eqb m) (new_mocks_of (collected (env s)) (self s)))
    eqn:E.
  - apply existsb_eqb, elem_of_new_mocks_of in E.
    destruct E as (Ht & Hlive & _ & Hnew).
    assert (Hr : reachable (env s) m) by (apply is_live_collected, Hlive).
    assert (H0 : reports m (history s) = 0%nat).
    { destruct (reports m (history s)) as [|n] eqn:En; [reflexivity|].
      exfalso. apply Hnew. apply elem_of_previous_ids.
      split; [|exact Hlive]. apply H2; [lia | exact Hr]. }
    rewrite H0. split; [simpl; lia|]. intros _.
    split; [apply reachable_allocated, Hr|]. intros _.
    split; [|exact Ht]. apply elem_of_mocks_of. auto.
  - rewrite Nat.add_0_r. split; [exact H1|]. intros Hrep.
    destruct (H2 Hrep) as [Hl Hkeep]. split; [exact Hl|]. intros Hr.
    destruct (Hkeep (Hre Hr)) as [Hp Ht]. split; [|exact Ht].
    apply elem_of_mocks_of. split; [exact Ht|].
    apply is_live_collected, Hre, Hr.
Qed.

Lemma keeps_check_for_leaks : preserves (baseline_keeps m) check_for_leaks.
Proof.
  intros s H. rewrite check_for_leaks_unfold. cbv zeta.
  pose proof (keeps_check_step s H) as H1.
  destruct (new_mocks_of (collected (env s)) (self s)) as [|m' l]; [exact H1|].
  revert H1. generalize (m' :: l). intros new_mocks.
  match goal with
  | |- baseline_keeps m ?s1 -> baseline_keeps m (?k ?s1).2 =>
      assert (Hk : preserves (baseline_keeps m) k);
      [| intros H1; apply Hk, H1]
  end.
  keeps. apply keeps_error_messages.
Qed.

End ReportedOnceMethods.

Lemma preserves_get_env_bind {A} (I : machine -> Prop) (k : world -> M A) :
  (forall s, I s -> I (k (env s) s).2) -> preserves I (get_env ≫= k).
Proof. intros H s Hs. apply H, Hs. Qed.

Lemma preserves_get_self_bind {A} (I : machine -> Prop) (k : plugin -> M A) :
  (forall s, I s -> I (k (self s) s).2) -> preserves I (get_self ≫= k).
Proof. intros H s Hs. apply H, Hs. Qed.

Section ReportedOnceHooks.

Context (m : weakref).

Lemma keeps_memory_delta_report (level : Z) (name : string) :
  preserves (baseline_keeps m) (memory_delta_report level name).
Proof. unfold memory_delta_report. keeps; apply keeps_get_summary. Qed.

Lemma keeps_finished_level (level : Z) (name : string) :
  preserves (baseline_keeps m) (finished_level level name).
Proof. unfold finished_level. keeps. apply keeps_memory_delta_report. Qed.

Lemma keeps_started_level (level : Z) (name : string) :
  preserves (baseline_keeps m) (started_level level name).
Proof. unfold started_level. keeps. Qed.

Lemma keeps_create_initial_summary :
  preserves (baseline_keeps m) create_initial_summary.
Proof. unfold create_initial_summary. keeps. apply keeps_get_summary. Qed.

(** [begin] replaces the tracked list by the live mocks. *)
Lemma keeps_snapshot (s : machine) :
  baseline_keeps m s ->
  baseline_keeps m
    (Machine (set_mock_refs (get_objects (env s)) (self s)) (env s) (history s)).
Proof.
  intros [H1 H2]. split; [exact H1|].
  cbn [self env history set_mock_refs previous_mock_refs mock_refs].
  intros Hr. destruct (H2 Hr) as [Hlen Hkeep]. split; [exact Hlen|].
  intros Hreach. split; [apply Hkeep, Hreach|].
  apply elem_of_get_objects. rewrite is_live_status, Hreach. reflexivity.
Qed.

Lemma keeps_begin : preserves (baseline_keeps m) begin.
Proof.
  unfold begin.
  apply preserves_bind; [apply keeps_create_initial_summary | intros _].
  apply preserves_bind; [apply preserves_get_self | intros p].
  apply preserves_when.
  apply preserves_bind; [apply keeps_gc_pass | intros _].
  apply preserves_bind; [apply keeps_emit | intros _].
  apply preserves_get_env_bind. intros s H.
  apply keeps_snapshot in H. revert H.
  match goal with
  | |- baseline_keeps m ?s1 -> baseline_keeps m ((update ?f ≫= ?k) s).2 =>
      change ((update f ≫= k) s) with (k tt s1);
      assert (Hk : preserves (baseline_keeps m) (k tt));
      [| intros H1; apply Hk, H1]
  end.
  keeps.
Qed.

Lemma keeps_perform (a : action) : preserves (baseline_keeps m) (perform a).
Proof.
  destruct a; unfold perform; keeps. apply keeps_register_mock.
Qed.

Lemma keeps_perform_all (body : list action) :
  preserves (baseline_keeps m) (perform_all body).
Proof.
  induction body as [|a body IH]; cbn [perform_all]; keeps.
  - apply keeps_perform.
  - exact IH.
Qed.

Lemma keeps_beforeTest (t : test) : preserves (baseline_keeps m) (beforeTest t).
Proof.
  unfold beforeTest.
  keeps; first [apply keeps_finished_level | apply keeps_started_level].
Qed.

Lemma keeps_afterTest (t : test) : preserves (baseline_keeps m) (afterTest t).
Proof. unfold afterTest. keeps. apply keeps_finished_level. Qed.

Lemma keeps_get_level_path : preserves (baseline_keeps m) get_level_path.
Proof. unfold get_level_path. keeps. Qed.

Lemma keeps_do_check (t : test) (result : nat) (before : bool) :
  preserves (baseline_keeps m) (do_check t result before).
Proof.
  unfold do_check.
  keeps; first [apply keeps_check_for_leaks | apply keeps_get_level_path].
Qed.

Lemma keeps_run_test (t : test) (result : nat) :
  preserves (baseline_keeps m) (run_test t result).
Proof.
  unfold run_test.
  keeps; first [apply keeps_do_check | apply keeps_perform_all].
Qed.

Lemma keeps_final_check : preserves (baseline_keeps m) final_check.
Proof. unfold final_check. keeps. apply keeps_check_for_leaks. Qed.

Lemma keeps_report : preserves (baseline_keeps m) report.
Proof. unfold report. keeps; apply keeps_final_check. Qed.

Lemma keeps_finalize (result : nat) :
  preserves (baseline_keeps m) (finalize result).
Proof. unfold finalize. keeps; apply keeps_final_check. Qed.

Lemma keeps_handle (e : event) : preserves (baseline_keeps m) (handle e).
Proof.
  destruct e; cbn [handle].
  - apply keeps_begin.
  - apply keeps_beforeTest.
  - apply keeps_run_test.
  - apply keeps_afterTest.
  - apply keeps_report.
  - apply keeps_finalize.
  - apply keeps_perform.
Qed.

Lemma keeps_run (es : list event) (s : machine) :
  baseline_keeps m s -> baseline_keeps m (run es s).
Proof.
  revert s. induction es as [|e es IH]; intros s H; cbn [run]; [exact H|].
  apply IH, keeps_handle, H.
Qed.

End ReportedOnceHooks.

(** C7. In any run, whatever the hooks, the tests and the world do, a mock
    is in the new-leak set of at most one check.  Once it has been
    reported, for as long as it is reachable (never released), it is in the
    baseline [previous_mock_refs] and live there, hence outside the
    new-leak set of the next check. *)
Theorem mock_reported_at_most_once (es : list event) (p : plugin) (w : world)
        (m : weakref) :
  (reports m (history (run es (Machine p w []))) <= 1)%nat /\
  ((0 < reports m (history (run es (Machine p w []))))%nat ->
   reachable (env (run es (Machine p w []))) m ->
   m ∈ previous_ids (collected (env (run es (Machine p w []))))
                    (self (run es (Machine p w []))) /\
   m ∉ new_mocks_of (collected (env (run es (Machine p w []))))
                    (self (run es (Machine p w [])))).
Proof.
  assert (H0 : baseline_keeps m (Machine p w [])).
  { unfold baseline_keeps, reports. cbn [history List.filter length].
    split; [lia|]. intros H. lia. }
  apply (keeps_run m es) in H0. destruct H0 as [H1 H2].
  split; [exact H1|]. intros Hrep Hreach.
  destruct (H2 Hrep) as [_ Hkeep]. destruct (Hkeep Hreach) as [Hprev _].
  assert (Hin : m ∈ previous_ids (collected (env (run es (Machine p w []))))
                                 (self (run es (Machine p w [])))).
  { apply elem_of_previous_ids. split; [exact Hprev|].
    apply is_live_collected, Hreach. }
  split; [exact Hin|].
  rewrite elem_of_new_mocks_of. tauto.
Qed.

(* ===================================================================== *)
(** ** C4: what [begin] records                                           *)
(* ===================================================================== *)

Lemma get_objects_heap (w w' : world) :
  heap w' = heap w -> get_objects w' = get_objects w.
Proof.
  intros H. unfold get_objects. rewrite H. apply filter_ext.
  intros m. unfold is_live, deref. rewrite H. reflexivity.
Qed.

Lemma heap_collected_twice (w : world) :
  map collect (map collect (heap w)) = map collect (heap w).
Proof. rewrite map_map. apply map_ext. intros o. apply collect_idem. Qed.

Lemma create_initial_summary_spec (s : machine) :
  (create_initial_summary s).1 = Ret tt /\
  detect_leaked_mocks (self (create_initial_summary s).2)
  = detect_leaked_mocks (self s) /\
  patch_mock (self (create_initial_summary s).2) = patch_mock (self s) /\
  mock_refs (self (create_initial_summary s).2) = mock_refs (self s) /\
  previous_mock_refs (self (create_initial_summary s).2)
  = previous_mock_refs (self s) /\
  map collect (heap (env (create_initial_summary s).2))
  = map collect (heap (env s)).
Proof.
  unfold create_initial_summary, get_summary, gc_pass, emit, effect,
    update, when, mbind, M_bind, mret, M_ret, get_self, get_env.
  cbn [self env history fst snd set_current_summary report_delta].
  destruct (report_delta (self s)); cbn [fst snd self env].
  - match goal with
    | |- context [if ?b then _ else _] => destruct b
    end; cbn [fst snd self env heap log collected set_heap];
      rewrite ?heap_collected_twice; repeat split; reflexivity.
  - repeat split; reflexivity.
Qed.

(** [begin] with mock detection on: the heap has been through a collection
    pass, the tracked list is the list of the live mocks, and the baseline
    is as it was. *)
Lemma begin_spec (s : machine) :
  detect_leaked_mocks (self s) = true ->
  heap (env (begin s).2) = heap (collected (env s)) /\
  mock_refs (self (begin s).2) = get_objects (collected (env s)) /\
  previous_mock_refs (self (begin s).2) = previous_mock_refs (self s).
Proof.
  intros Hd.
  destruct (create_initial_summary_spec s) as (Hret & Hdet & _ & _ & Hprev & Hheap).
  assert (E : begin s =
              (p ← get_self;
               when (detect_leaked_mocks p)
                 (gc_pass;;
                  emit muppy_get_objects;;
                  w ← get_env;
                  update (set_mock_refs (get_objects w));;
                  when (patch_mock p)
                    (effect (fun w => set_wrappers (S (wrappers w)) w))))
                (create_initial_summary s).2).
  { unfold begin. unfold mbind at 1, M_bind at 1.
    destruct (create_initial_summary s) as [o s1]. cbn [fst snd] in *.
    subst o. reflexivity. }
  rewrite E. clear E. revert Hdet Hprev Hheap.
  generalize ((create_initial_summary s).2). intros s1 Hdet Hprev Hheap.
  unfold gc_pass, emit, effect, update, when, mbind, M_bind, mret, M_ret,
    get_self, get_env.
  cbn [self env history fst snd]. rewrite Hdet, Hd.
  cbn [self env history fst snd].
  destruct (patch_mock (self s1));
    cbn [self env history fst snd heap log collected set_heap set_wrappers
         set_mock_refs mock_refs previous_mock_refs];
    rewrite Hheap; (split; [reflexivity|]); (split; [|exact Hprev]);
    apply get_objects_heap; cbn [heap log collected set_heap];
    rewrite Hheap; reflexivity.
Qed.

Lemma status_heap (w w' : world) (m : weakref) :
  heap w' = heap w -> status w' m = status w m.
Proof. intros H. unfold status. rewrite H. reflexivity. Qed.

Lemma repr_heap (w w' : world) (m : weakref) :
  heap w' = heap w -> repr w' m = repr w m.
Proof. intros H. unfold repr. rewrite H. reflexivity. Qed.

Lemma ignored_repr (w w' : world) (m : weakref) :
  repr w' m = repr w m -> ignored w' m = ignored w m.
Proof. intros H. unfold ignored. rewrite H. reflexivity. Qed.

(** C4, as the code has it. [begin] puts the mocks that are live at run
    start in the tracked list [mock_refs]; the baseline
    [previous_mock_refs] stays as it was, empty at run start.  So a mock
    that was there before the run, is still reachable and carries no ignore
    marker is in the new-leak set of the first check after [begin]; and in
    the whole run it is reported by one check at most. *)
Theorem begin_tracks_existing_mocks (s : machine) (m : weakref) :
  detect_leaked_mocks (self s) = true ->
  previous_mock_refs (self s) = [] ->
  history s = [] ->
  reachable (env s) m ->
  ignored (env s) m = false ->
  previous_mock_refs (self (begin s).2) = [] /\
  m ∈ mock_refs (self (begin s).2) /\
  m ∈ new_mocks_of (collected (env (begin s).2)) (self (begin s).2) /\
  (forall es, (reports m (history (run es (begin s).2)) <= 1)%nat).
Proof.
  intros Hd Hprev Hhist Hreach Hig.
  destruct (begin_spec s Hd) as (Hheap & Hrefs & Hp).
  assert (Hin : m ∈ mock_refs (self (begin s).2)).
  { rewrite Hrefs. apply elem_of_get_objects, is_live_collected, Hreach. }
  assert (Hst : status (env (begin s).2) m = Some Reachable).
  { rewrite (status_heap _ _ m Hheap), status_collected.
    unfold reachable in Hreach. rewrite Hreach. reflexivity. }
  split; [congruence|]. split; [exact Hin|]. split.
  - apply elem_of_new_mocks_of. split; [exact Hin|]. split; [|split].
    + apply is_live_collected. exact Hst.
    + rewrite <- Hig. apply ignored_repr.
      rewrite repr_collected, (repr_heap _ _ m Hheap). apply repr_collected.
    + rewrite elem_of_previous_ids, Hp, Hprev. intros [H _].
      apply elem_of_nil in H. exact H.
  - intros es.
    assert (H0 : baseline_keeps m s).
    { unfold baseline_keeps, reports. rewrite Hhist.
      cbn [List.filter length]. split; [lia|]. intros H. lia. }
    apply (keeps_begin m), (keeps_run m es) in H0. apply H0.
Qed.

Lemma begin_tracks_existing_mocks_witness :
  previous_mock_refs (self (begin (start world_with_mock)).2) = [] /\
  0%nat ∈ mock_refs (self (begin (start world_with_mock)).2) /\
  0%nat ∈ new_mocks_of (collected (env (begin (start world_with_mock)).2))
                       (self (begin (start world_with_mock)).2) /\
  (forall es,
     (reports 0 (history (run es (begin (start world_with_mock)).2)) <= 1)%nat).
Proof.
  apply (begin_tracks_existing_mocks (start world_with_mock) 0%nat);
    reflexivity.
Defined.

(** C4 as stated fails: the mock of [world_with_mock] is alive before
    [begin] and nothing releases it, yet [begin] leaves the baseline empty
    and the check before the first test finds it new and records an
    error. *)
Lemma begin_baseline_counterexample :
  reachable world_with_mock 0 /\
  previous_mock_refs (self (run [ev_begin] (start world_with_mock))) = [] /\
  mock_refs (self (run [ev_begin] (start world_with_mock))) = [0%nat] /\
  history (run [ev_begin; ev_beforeTest test_nothing;
                ev_run_test test_nothing 7] (start world_with_mock))
  = [checked [0%nat]] /\
  calls (env (run [ev_begin; ev_beforeTest test_nothing;
                   ev_run_test test_nothing 7] (start world_with_mock)))
  = [gc_collect; muppy_get_objects; gc_collect;
     addError 7 (of_test test_nothing)
       ("Found 1 new mock(s) that have not been garbage collected:" ++ nl
        ++ "['No traceback : {}'] at  before test")].
Proof. repeat split; vm_compute; reflexivity. Qed.

(* ===================================================================== *)
(** ** C2 and C3: what [do_check] does with a leak                        *)
(* ===================================================================== *)

Lemma check_for_leaks_raise (s s1 : machine) (e : exn) :
  check_for_leaks s = (Raise e, s1) ->
  calls (env s1) = (calls (env s) ++ [gc_collect])%list /\
  exists (message : string) (w' : world),
    e = LeakDetected message /\
    s1 = Machine (set_previous_mock_refs
                    (mocks_of (collected (env s)) (self s)) (self s))
                 w'
                 (history s ++ [checked (new_mocks_of (collected (env s)) (self s))]).
Proof.
  intros H. destruct (check_for_leaks_spec s) as (w' & Hw & Hs & Hout).
  rewrite H in Hs, Hout. cbn [fst snd] in *. subst s1. cbn [env].
  destruct Hw as (_ & _ & _ & Hcalls & _). split; [exact Hcalls|].
  destruct (new_mocks_of (collected (env s)) (self s)) as [|m l] eqn:E.
  - destruct Hout as [Hret _]. discriminate.
  - destruct Hout as [message Hm]. exists message, w'.
    split; [congruence | reflexivity].
Qed.

Lemma do_check_leak (t : test) (result : nat) (before : bool)
      (s s1 : machine) (message : string) :
  check_for_leaks s = (Raise (LeakDetected message), s1) ->
  (do_check t result before s).1 = Ret tt /\
  calls (env (do_check t result before s).2)
  = (calls (env s) ++ [gc_collect] ++ leak_calls (self s) t result before message)%list /\
  failed_test_with_leak (self (do_check t result before s).2) = true.
Proof.
  intros H. destruct (check_for_leaks_raise s s1 _ H) as (Hcalls & msg & w' & _ & Hs1).
  unfold do_check, try_except_LeakDetected. rewrite H.
  unfold leak_calls, get_level_path, emit, effect, update, when, mbind, M_bind,
    mret, M_ret, get_self.
  cbn [self env history fst snd].
  assert (Hp1 : last_test_result (self s1) = last_test_result (self s))
    by (rewrite Hs1; reflexivity).
  assert (Hp2 : last_test (self s1) = last_test (self s))
    by (rewrite Hs1; reflexivity).
  assert (Hp3 : fail_fast (self s1) = fail_fast (self s))
    by (rewrite Hs1; reflexivity).
  assert (Hp4 : level_path (self s1) = level_path (self s))
    by (rewrite Hs1; reflexivity).
  rewrite Hp1, Hp2, Hp3, Hp4.
  destruct (last_test_result (self s)); destruct (fail_fast (self s));
    cbn [self env history fst snd negb log calls set_failed_test_with_leak
         failed_test_with_leak];
    rewrite Hcalls, <- ?app_assoc; auto.
Qed.

(** C3, as the code has it. When a check made by [do_check] (the check
    before a test among them) raises and the result object of a previous
    test is known, the error is recorded twice: on that result object
    against [last_test], and then, with [for prior test '...'] added to the
    message, on the current result object against the test that is about
    to run. *)
Theorem leak_recorded_against_prior_and_current
        (t : test) (result last_result : nat) (before : bool)
        (s : machine) (message : string) :
  (check_for_leaks s).1 = Raise (LeakDetected message) ->
  last_test_result (self s) = Some last_result ->
  calls (env (do_check t result before s).2)
  = (calls (env s)
     ++ [gc_collect;
         addError last_result (subject_of_last (last_test (self s)))
           (message ++ " at " ++ level_path (self s));
         addError result (of_test t)
           ((message ++ " at " ++ level_path (self s))
            ++ " for prior test '" ++ str_of_last (last_test (self s)) ++ "'")]
     ++ (if fail_fast (self s) then [] else [stop result]))%list.
Proof.
  intros Hraise Hlast.
  destruct (do_check_leak t result before s (check_for_leaks s).2 message)
    as (_ & Hcalls & _).
  { destruct (check_for_leaks s) as [o s1]. cbn [fst snd] in *. congruence. }
  rewrite Hcalls. unfold leak_calls. rewrite Hlast. reflexivity.
Qed.

Lemma leak_recorded_against_prior_and_current_witness :
  calls (env (do_check test_clean 8 true before_second_test).2)
  = (calls (env before_second_test)
     ++ [gc_collect;
         addError 7 (of_test test_leaky)
           (leak_of_first_test ++ " at /CaseA/mod_a/???");
         addError 8 (of_test test_clean)
           ((leak_of_first_test ++ " at /CaseA/mod_a/???")
            ++ " for prior test 'test_leaky (mod_a.CaseA)'")]
     ++ [])%list.
Proof.
  apply (leak_recorded_against_prior_and_current
           test_clean 8 7 true before_second_test leak_of_first_test).
  - vm_compute. reflexivity.
  - vm_compute. reflexivity.
Defined.

(** C3 as stated fails: the leak of the first test, found by the check
    before the second test, is recorded against the first test and also
    against the second, the test that is about to run. *)
Lemma prior_test_only_counterexample :
  last_test_result (self before_second_test) = Some 7%nat /\
  last_test (self before_second_test) = Some test_leaky /\
  calls (env (run [ev_run_test test_clean 8] before_second_test))
  = [gc_collect; muppy_get_objects; gc_collect; gc_collect;
     addError 7 (of_test test_leaky)
       (leak_of_first_test ++ " at /CaseA/mod_a/???");
     addError 8 (of_test test_clean)
       (leak_of_first_test ++ " at /CaseA/mod_a/???"
        ++ " for prior test 'test_leaky (mod_a.CaseA)'")].
Proof. repeat split; vm_compute; reflexivity. Qed.

(** Whether a leak stops the run: [do_check] calls [result.stop()] exactly
    when [fail_fast] is off. *)
Lemma do_check_stops (t : test) (result : nat) (before : bool) (s : machine)
      (message : string) :
  (check_for_leaks s).1 = Raise (LeakDetected message) ->
  List.filter is_stop (calls (env (do_check t result before s).2))
  = (List.filter is_stop (calls (env s))
     ++ (if fail_fast (self s) then [] else [stop result]))%list.
Proof.
  intros Hraise.
  destruct (do_check_leak t result before s (check_for_leaks s).2 message)
    as (_ & Hcalls & _).
  { destruct (check_for_leaks s) as [o s1]. cbn [fst snd] in *. congruence. }
  rewrite Hcalls. unfold leak_calls. rewrite !List.filter_app.
  destruct (last_test_result (self s)); destruct (fail_fast (self s));
    cbn [List.filter is_stop app]; rewrite ?app_nil_r; reflexivity.
Qed.

(** C2, on the code. With [fail_fast] on, as it is by default, the leak of
    the test is found by the check after it and recorded by [addError], and
    [stop] is not called; with [fail_fast] off, [stop] is called. *)
Theorem fail_fast_leak_does_not_stop :
  fail_fast (self (configured LEVEL_TEST)) = true /\
  history (leaky_run true) = [checked []; checked [0%nat]] /\
  List.filter is_addError (calls (env (leaky_run true)))
  = [addError 7 (of_test test_leaky)
       (leak_of_first_test ++ " at /test_leaky (mod_a.CaseA)/CaseA/mod_a/???"
        ++ " before any tests were run")] /\
  List.filter is_stop (calls (env (leaky_run true))) = [] /\
  List.filter is_stop (calls (env (leaky_run false))) = [stop 7].
Proof. repeat split; vm_compute; reflexivity. Qed.

(* ===================================================================== *)
(** ** C9: the final check, twice                                         *)
(* ===================================================================== *)

(** Straight after a check, with the same mocks live, nothing is new. *)
Lemma nothing_new_after_check (w w' : world) (p : plugin) :
  (forall m, is_live w' m = is_live w m) ->
  previous_mock_refs p = mocks_of w p ->
  new_mocks_of w' p = [].
Proof.
  intros Hlive Hprev. apply elem_of_nil_inv. intros m Hm.
  apply elem_of_new_mocks_of in Hm. destruct Hm as (Ht & Hl & _ & Hnew).
  apply Hnew, elem_of_previous_ids. split; [|exact Hl].
  rewrite Hprev. apply elem_of_mocks_of. split; [exact Ht|].
  rewrite <- Hlive. exact Hl.
Qed.

Lemma final_check_skip (s : machine) :
  detect_leaked_mocks (self s) = false \/ _final_exc_info (self s) <> None ->
  final_check s = (Ret tt, s).
Proof.
  intros H. unfold final_check, mbind, M_bind, get_self, when.
  cbn [self env history fst snd].
  destruct (detect_leaked_mocks (self s)); destruct (_final_exc_info (self s));
    try reflexivity.
  destruct H as [H | H]; [discriminate | contradiction].
Qed.

Lemma final_check_run (s : machine) :
  detect_leaked_mocks (self s) = true ->
  _final_exc_info (self s) = None ->
  final_check s =
  try_except_LeakDetected check_for_leaks
    (fun message => update (set_final_exc_info (Some message)))
    (Machine (summaries_cleared (self s)) (env s) (history s)).
Proof.
  intros Hd Hf. unfold final_check, mbind, M_bind, get_self, when, update.
  cbn [self env history fst snd]. rewrite Hd, Hf. reflexivity.
Qed.

(** A final check that runs either finds nothing, and leaves the state of
    a check that returned, or stores the leak. *)
Lemma final_check_outcome (s : machine) :
  detect_leaked_mocks (self s) = true ->
  _final_exc_info (self s) = None ->
  (final_check s).1 = Ret tt /\
  ((new_mocks_of (collected (env s)) (self s) = [] /\
    (final_check s).2 =
      Machine (set_previous_mock_refs (mocks_of (collected (env s)) (self s))
                 (summaries_cleared (self s)))
              (log gc_collect (collected (env s)))
              (history s ++ [checked []])) \/
   (exists message, _final_exc_info (self (final_check s).2) = Some message)).
Proof.
  intros Hd Hf. rewrite (final_check_run s Hd Hf).
  unfold try_except_LeakDetected.
  pose proof (check_for_leaks_spec
                (Machine (summaries_cleared (self s)) (env s) (history s)))
    as (w' & Hw & Hs & Hout).
  cbv zeta in Hs, Hout. cbn [self env history] in Hs, Hout.
  change (new_mocks_of (collected (env s)) (summaries_cleared (self s)))
    with (new_mocks_of (collected (env s)) (self s)) in *.
  change (mocks_of (collected (env s)) (summaries_cleared (self s)))
    with (mocks_of (collected (env s)) (self s)) in *.
  destruct (check_for_leaks _) as [o s1]. cbn [fst snd] in *.
  destruct (new_mocks_of (collected (env s)) (self s)) as [|m l].
  - destruct Hout as [-> ->]. split; [reflexivity|]. left. auto.
  - destruct Hout as [message ->]. subst s1. split; [reflexivity|].
    right. exists message. reflexivity.
Qed.

(** C9, as the code has it. The final check never raises, and a second
    call right after the first leaves the stored outcome as the first left
    it.  When the first call stored a leak, the second does nothing at all.
    When the first call found no leak, nothing is stored, and the second
    call goes through [check_for_leaks] again: one more collection pass,
    one more detection, which finds nothing new. *)
Theorem final_check_twice (s : machine) :
  (final_check s).1 = Ret tt /\
  (final_check (final_check s).2).1 = Ret tt /\
  _final_exc_info (self (final_check (final_check s).2).2)
  = _final_exc_info (self (final_check s).2) /\
  (_final_exc_info (self (final_check s).2) <> None ->
   final_check (final_check s).2 = (Ret tt, (final_check s).2)) /\
  (detect_leaked_mocks (self s) = true ->
   _final_exc_info (self (final_check s).2) = None ->
   calls (env (final_check (final_check s).2).2)
   = (calls (env (final_check s).2) ++ [gc_collect])%list /\
   history (final_check (final_check s).2).2
   = (history (final_check s).2 ++ [checked []])%list).
Proof.
  assert (Hskip : forall s', _final_exc_info (self s') <> None ->
                             final_check s' = (Ret tt, s')).
  { intros s' H. apply final_check_skip. right. exact H. }
  destruct (detect_leaked_mocks (self s)) eqn:Hd.
  2: { rewrite (final_check_skip s) by (left; exact Hd). cbn [fst snd].
       rewrite (final_check_skip s) by (left; exact Hd). cbn [fst snd].
       repeat split; auto; discriminate. }
  destruct (_final_exc_info (self s)) as [stored|] eqn:Hf.
  { assert (Hne : _final_exc_info (self s) <> None) by congruence.
    rewrite (Hskip s Hne). cbn [fst snd]. rewrite (Hskip s Hne). cbn [fst snd].
    repeat split; auto; congruence. }
  destruct (final_check_outcome s Hd Hf) as (Hret & [[Hnew Hs1] | [message Hm]]).
  - (* the first call found nothing *)
    set (s1 := (final_check s).2) in *.
    assert (Hd1 : detect_leaked_mocks (self s1) = true)
      by (rewrite Hs1; exact Hd).
    assert (Hf1 : _final_exc_info (self s1) = None)
      by (rewrite Hs1; exact Hf).
    destruct (final_check_outcome s1 Hd1 Hf1) as (Hret1 & [[_ Hs2] | [message Hm]]).
    + split; [exact Hret|]. split; [exact Hret1|]. split; [|split].
      * rewrite Hs2. reflexivity.
      * intros H. congruence.
      * intros _ _. rewrite Hs2. split; reflexivity.
    + exfalso.
      assert (Hnone : new_mocks_of (collected (env s1)) (self s1) = []).
      { apply (nothing_new_after_check (collected (env s))).
        - intros m. rewrite Hs1. rewrite !is_live_status.
          change (env (Machine _ (log gc_collect (collected (env s))) _))
            with (log gc_collect (collected (env s))).
          rewrite (status_heap (collected (env s))
                     (collected (log gc_collect (collected (env s)))) m).
          + reflexivity.
          + unfold collected, log, set_heap. cbn [heap].
            apply heap_collected_twice.
        - rewrite Hs1. reflexivity. }
      rewrite (final_check_run s1 Hd1 Hf1) in Hm.
      unfold try_except_LeakDetected in Hm.
      pose proof (check_for_leaks_spec
                    (Machine (summaries_cleared (self s1)) (env s1) (history s1)))
        as (w' & _ & Hs & Hout).
      cbv zeta in Hs, Hout. cbn [self env history] in Hs, Hout.
      change (new_mocks_of (collected (env s1)) (summaries_cleared (self s1)))
        with (new_mocks_of (collected (env s1)) (self s1)) in *.
      rewrite Hnone in Hout. destruct Hout as [Ho _].
      destruct (check_for_leaks _) as [o s2]. cbn [fst snd] in *. subst o s2.
      change (_final_exc_info (self s1) = Some message) in Hm.
      congruence.
  - (* the first call stored a leak *)
    assert (Hne : _final_exc_info (self (final_check s).2) <> None) by congruence.
    rewrite (Hskip _ Hne). cbn [fst snd].
    repeat split; auto; congruence.
Qed.

(** C9 as stated fails when there is no leak: the report phase and the
    finalize hook each make a collection pass and a detection. *)
Lemma final_check_counterexample :
  calls (env (final_check (start world0)).2) = [gc_collect] /\
  calls (env (final_check (final_check (start world0)).2).2)
  = [gc_collect; gc_collect] /\
  calls (env (run [ev_report; ev_finalize 9] (start world0)))
  = [gc_collect;
     stream_write
       (colored ("Leak Detector Report: PASSED: "
                 ++ "All mocks have been reset or garbage collected." ++ nl)
                "green");
     gc_collect] /\
  history (run [ev_report; ev_finalize 9] (start world0))
  = [checked []; checked []].
Proof. repeat split; vm_compute; reflexivity. Qed.

(* ===================================================================== *)
(** ** C10: the levels [finished_level] is called with                    *)
(* ===================================================================== *)

Section Levels.

Lemma levels_record_checked (l : list weakref) :
  preserves levels_ok (record (checked l)).
Proof.
  intros s H level name Hin. cbn [snd record history] in Hin.
  apply elem_of_app in Hin. destruct Hin as [Hin | Hin]; [eauto|].
  apply list_elem_of_singleton in Hin. discriminate.
Qed.

Lemma levels_record_finished (level : Z) (name : string) :
  level = LEVEL_CLASS \/ level = LEVEL_TEST ->
  preserves levels_ok (record (finished level name)).
Proof.
  intros Hl s H level' name' Hin. cbn [snd record history] in Hin.
  apply elem_of_app in Hin. destruct Hin as [Hin | Hin]; [eauto|].
  apply list_elem_of_singleton in Hin. congruence.
Qed.

End Levels.

Ltac levels_leaf :=
  match goal with
  | |- preserves _ (record (checked _)) => apply levels_record_checked
  | |- preserves _ (emit _) => intros ? ?; assumption
  | |- preserves _ gc_pass => intros ? ?; assumption
  | |- preserves _ (update _) => intros ? ?; assumption
  | |- preserves _ (effect _) => intros ? ?; assumption
  end.

Ltac levels := repeat first [preserve_step | levels_leaf].

Section LevelsMethods.

Lemma levels_get_summary : preserves levels_ok get_summary.
Proof. unfold get_summary. levels. Qed.

Lemma levels_register_mock (m : weakref) (stack : list string) :
  preserves levels_ok (register_mock m stack).
Proof. unfold register_mock. levels. Qed.

Lemma levels_error_messages (l : list weakref) :
  preserves levels_ok (error_messages l).
Proof.
  induction l as [|m l IH]; cbn [error_messages]; levels; [|exact IH].
  unfold error_message. levels.
Qed.

Lemma levels_check_for_leaks : preserves levels_ok check_for_leaks.
Proof. unfold check_for_leaks. levels. apply levels_error_messages. Qed.

Lemma levels_finished_level (level : Z) (name : string) :
  level = LEVEL_CLASS \/ level = LEVEL_TEST ->
  preserves levels_ok (finished_level level name).
Proof.
  intros Hl. unfold finished_level.
  apply preserves_bind; [apply levels_record_finished, Hl | intros _].
  levels. unfold memory_delta_report. levels; apply levels_get_summary.
Qed.

Lemma levels_perform_all (body : list action) :
  preserves levels_ok (perform_all body).
Proof.
  induction body as [|a body IH]; cbn [perform_all]; levels; [|exact IH].
  destruct a; unfold perform; levels. apply levels_register_mock.
Qed.

Lemma levels_do_check (t : test) (result : nat) (before : bool) :
  preserves levels_ok (do_check t result before).
Proof.
  unfold do_check, get_level_path. levels. apply levels_check_for_leaks.
Qed.

Lemma levels_final_check : preserves levels_ok final_check.
Proof. unfold final_check. levels. apply levels_check_for_leaks. Qed.

Lemma levels_handle (e : event) : preserves levels_ok (handle e).
Proof.
  destruct e; cbn [handle].
  - unfold begin, create_initial_summary. levels. apply levels_get_summary.
  - unfold beforeTest, started_level. levels.
    apply levels_finished_level. left. reflexivity.
  - unfold run_test. levels;
      first [apply levels_do_check | apply levels_perform_all].
  - unfold afterTest. levels. apply levels_finished_level. right. reflexivity.
  - unfold report. levels; apply levels_final_check.
  - unfold finalize. levels; apply levels_final_check.
  - destruct a; unfold perform; levels. apply levels_register_mock.
Qed.

Lemma levels_run (es : list event) (s : machine) :
  levels_ok s -> levels_ok (run es s).
Proof.
  revert s. induction es as [|e es IH]; intros s H; cbn [run]; [exact H|].
  apply IH, levels_handle, H.
Qed.

End LevelsMethods.

Section Quiet.

Context (lvl : Z) (b : bool) (out : list call).

Lemma quiet_update (f : plugin -> plugin) :
  (forall p, reporting_level (f p) = reporting_level p) ->
  (forall p, check_for_leaks_before_next_test (f p)
             = check_for_leaks_before_next_test p) ->
  preserves (quiet lvl b out) (update f).
Proof.
  intros H1 H2 s H. unfold quiet in *. cbn [snd update self env].
  rewrite H1, H2. exact H.
Qed.

Lemma quiet_effect (g : world -> world) :
  (forall w, List.filter is_report (calls (g w))
             = List.filter is_report (calls w)) ->
  preserves (quiet lvl b out) (effect g).
Proof.
  intros Hg s H. unfold quiet in *. cbn [snd effect self env].
  rewrite Hg. exact H.
Qed.

Lemma filter_report_log (c : call) (w : world) :
  is_report c = false ->
  List.filter is_report (calls (log c w)) = List.filter is_report (calls w).
Proof.
  intros Hc. unfold log. cbn [calls]. rewrite List.filter_app.
  cbn [List.filter]. rewrite Hc. apply app_nil_r.
Qed.

Lemma quiet_emit (c : call) :
  is_report c = false -> preserves (quiet lvl b out) (emit c).
Proof.
  intros Hc. apply quiet_effect. intros w. apply filter_report_log, Hc.
Qed.

Lemma quiet_gc_pass : preserves (quiet lvl b out) gc_pass.
Proof.
  apply quiet_effect. intros w.
  rewrite filter_report_log by reflexivity. reflexivity.
Qed.

Lemma quiet_record (e : entry) : preserves (quiet lvl b out) (record e).
Proof. intros s H. exact H. Qed.

End Quiet.

Ltac quiet_leaf :=
  match goal with
  | |- preserves _ (record _) => apply quiet_record
  | |- preserves _ (emit _) => apply quiet_emit; reflexivity
  | |- preserves _ gc_pass => apply quiet_gc_pass
  | |- preserves _ (update _) => apply quiet_update; reflexivity
  | |- preserves _ (effect _) => apply quiet_effect; reflexivity
  end.

Ltac quietly := repeat first [preserve_step | quiet_leaf].

Section QuietMethods.

Context (lvl : Z) (b : bool) (out : list call).
Context (Hlvl : lvl = LEVEL_DIR \/ lvl = LEVEL_MODULE).

Lemma quiet_get_summary : preserves (quiet lvl b out) get_summary.
Proof. unfold get_summary. quietly. Qed.

Lemma quiet_register_mock (m : weakref) (stack : list string) :
  preserves (quiet lvl b out) (register_mock m stack).
Proof. unfold register_mock. quietly. Qed.

Lemma quiet_error_messages (l : list weakref) :
  preserves (quiet lvl b out) (error_messages l).
Proof.
  induction l as [|m l IH]; cbn [error_messages]; quietly; [|exact IH].
  unfold error_message. quietly.
Qed.

Lemma quiet_check_for_leaks : preserves (quiet lvl b out) check_for_leaks.
Proof. unfold check_for_leaks. quietly. apply quiet_error_messages. Qed.

(** With the reporting level at Directory or Module, a scope exit at
    class or test level returns at once. *)
Lemma quiet_finished_level (level : Z) (name : string) :
  level = LEVEL_CLASS \/ level = LEVEL_TEST ->
  preserves (quiet lvl b out) (finished_level level name).
Proof.
  intros Hl s (H1 & H2 & H3). rewrite finished_level_unfold. cbv zeta.
  rewrite H1.
  assert (Hle : (level <=? lvl)%Z = false).
  { apply Z.leb_gt. unfold LEVEL_DIR, LEVEL_MODULE, LEVEL_CLASS, LEVEL_TEST in *.
    lia. }
  assert (Hgt : (level >? lvl)%Z = true).
  { apply Z.gtb_lt. unfold LEVEL_DIR, LEVEL_MODULE, LEVEL_CLASS, LEVEL_TEST in *.
    lia. }
  rewrite Hle, Hgt. unfold quiet. auto.
Qed.

Lemma quiet_perform_all (body : list action) :
  preserves (quiet lvl b out) (perform_all body).
Proof.
  induction body as [|a body IH]; cbn [perform_all]; quietly; [|exact IH].
  destruct a; unfold perform; quietly. apply quiet_register_mock.
Qed.

Lemma quiet_do_check (t : test) (result : nat) (before : bool) :
  preserves (quiet lvl b out) (do_check t result before).
Proof.
  unfold do_check, get_level_path. quietly. apply quiet_check_for_leaks.
Qed.

Lemma quiet_final_check : preserves (quiet lvl b out) final_check.
Proof. unfold final_check. quietly. apply quiet_check_for_leaks. Qed.

Lemma quiet_handle (e : event) : preserves (quiet lvl b out) (handle e).
Proof.
  destruct e; cbn [handle].
  - unfold begin, create_initial_summary. quietly. apply quiet_get_summary.
  - unfold beforeTest, started_level. quietly.
    apply quiet_finished_level. left. reflexivity.
  - unfold run_test. quietly;
      first [apply quiet_do_check | apply quiet_perform_all].
  - unfold afterTest. quietly. apply quiet_finished_level. right. reflexivity.
  - unfold report. quietly; apply quiet_final_check.
  - unfold finalize. quietly; apply quiet_final_check.
  - destruct a; unfold perform; quietly. apply quiet_register_mock.
Qed.

Lemma quiet_run (es : list event) (s : machine) :
  quiet lvl b out s -> quiet lvl b out (run es s).
Proof.
  revert s. induction es as [|e es IH]; intros s H; cbn [run]; [exact H|].
  apply IH, quiet_handle, H.
Qed.

End QuietMethods.

(** C10. In any run, [finished_level] is entered at class level or at test
    level only.  So when the reporting level is 1 (Directory) or 2
    (Module), the flag [check_for_leaks_before_next_test] is at the end of
    the run what it was at the start: no scope exit has set it; and no
    memory delta report has been printed. *)
Theorem finished_level_class_or_test_only (es : list event) (p : plugin)
        (w : world) :
  (forall level name,
     finished level name ∈ history (run es (Machine p w [])) ->
     level = LEVEL_CLASS \/ level = LEVEL_TEST) /\
  (reporting_level p = LEVEL_DIR \/ reporting_level p = LEVEL_MODULE ->
   check_for_leaks_before_next_test (self (run es (Machine p w [])))
   = check_for_leaks_before_next_test p /\
   List.filter is_report (calls (env (run es (Machine p w []))))
   = List.filter is_report (calls w)).
Proof.
  split.
  - apply levels_run. intros level name H. apply elem_of_nil in H.
    contradiction.
  - intros Hlvl.
    assert (H : quiet (reporting_level p)
                      (check_for_leaks_before_next_test p)
                      (List.filter is_report (calls w))
                      (Machine p w [])).
    { unfold quiet. auto. }
    apply (quiet_run _ _ _ Hlvl es) in H. destruct H as (_ & H2 & H3). auto.
Qed.

(* ===================================================================== *)
(** ** The theorems, on the run of two tests                              *)
(* ===================================================================== *)

(** In the run of the two tests the mock of the first test is reported by
    the check before the second test, and by no other. *)
Example two_tests_history :
  history (run two_tests (configured LEVEL_CLASS))
  = [checked []; finished 4 "test_leaky (mod_a.CaseA)";
     checked [0%nat]; finished 4 "test_clean (mod_a.CaseA)"] /\
  history (run (two_tests ++ [ev_report; ev_finalize 9]) (configured LEVEL_CLASS))
  = [checked []; finished 4 "test_leaky (mod_a.CaseA)";
     checked [0%nat]; finished 4 "test_clean (mod_a.CaseA)";
     checked []; checked []].
Proof. split; vm_compute; reflexivity. Qed.

Lemma mock_reported_at_most_once_witness :
  (reports 0 (history (run two_tests
                           (Machine (self (configured LEVEL_CLASS)) world0 [])))
   <= 1)%nat /\
  (0%nat ∈ previous_ids
     (collected (env (run two_tests
                          (Machine (self (configured LEVEL_CLASS)) world0 []))))
     (self (run two_tests (Machine (self (configured LEVEL_CLASS)) world0 []))) /\
   0%nat ∉ new_mocks_of
     (collected (env (run two_tests
                          (Machine (self (configured LEVEL_CLASS)) world0 []))))
     (self (run two_tests (Machine (self (configured LEVEL_CLASS)) world0 [])))).
Proof.
  destruct (mock_reported_at_most_once
              two_tests (self (configured LEVEL_CLASS)) world0 0%nat)
    as [H1 H2].
  split; [exact H1|]. apply H2.
  - vm_compute. constructor.
  - vm_compute. reflexivity.
Defined.

Lemma check_for_leaks_baseline_witness :
  previous_mock_refs (self (check_for_leaks before_second_test).2)
  = List.filter (is_live (collected (env before_second_test)))
                (mock_refs (self before_second_test)) /\
  (forall m, m ∈ previous_mock_refs (self (check_for_leaks before_second_test).2)
             <-> m ∈ mock_refs (self before_second_test) /\
                 is_live (collected (env before_second_test)) m = true) /\
  (forall m, m ∈ previous_mock_refs (self (check_for_leaks before_second_test).2)
             -> is_live (env (check_for_leaks before_second_test).2) m = true).
Proof. exact (check_for_leaks_baseline before_second_test). Defined.

Lemma ignored_mock_never_new_witness :
  (0%nat ∉ new_mocks_of (collected (env after_ignored_mock))
                        (self after_ignored_mock)) /\
  (forall message,
     (check_for_leaks after_ignored_mock).1 = Raise (LeakDetected message) ->
     exists m', m' ∈ new_mocks_of (collected (env after_ignored_mock))
                                  (self after_ignored_mock) /\
                m' <> 0%nat /\
                ignored (collected (env after_ignored_mock)) m' = false) /\
  ((forall m', m' ∈ mock_refs (self after_ignored_mock) ->
               is_live (collected (env after_ignored_mock)) m' = true ->
               ignored (collected (env after_ignored_mock)) m' = true) ->
   (check_for_leaks after_ignored_mock).1 = Ret tt).
Proof.
  apply (ignored_mock_never_new after_ignored_mock 0%nat
           "NOSE_LEAK_DETECTOR_IGNORE" "<Mock name='" "' id='142'>").
  - apply list_elem_of_here.
  - vm_compute. reflexivity.
Defined.

Lemma final_check_twice_witness :
  final_check (final_check after_leaky_test).2
  = (Ret tt, (final_check after_leaky_test).2) /\
  (calls (env (final_check (final_check (start world0)).2).2)
   = (calls (env (final_check (start world0)).2) ++ [gc_collect])%list /\
   history (final_check (final_check (start world0)).2).2
   = (history (final_check (start world0)).2 ++ [checked []])%list).
Proof.
  split.
  - apply (final_check_twice after_leaky_test). vm_compute. discriminate.
  - apply (final_check_twice (start world0)); vm_compute; reflexivity.
Defined.

Lemma finished_level_class_or_test_only_witness :
  (forall level name,
     finished level name
     ∈ history (run two_tests
                    (Machine (self (configured LEVEL_MODULE)) world0 [])) ->
     level = LEVEL_CLASS \/ level = LEVEL_TEST) /\
  (check_for_leaks_before_next_test
     (self (run two_tests (Machine (self (configured LEVEL_MODULE)) world0 [])))
   = check_for_leaks_before_next_test (self (configured LEVEL_MODULE)) /\
   List.filter is_report
     (calls (env (run two_tests
                      (Machine (self (configured LEVEL_MODULE)) world0 []))))
   = List.filter is_report (calls world0)).
Proof.
  destruct (finished_level_class_or_test_only
              two_tests (self (configured LEVEL_MODULE)) world0) as [H1 H2].
  split; [exact H1|]. apply H2. right. vm_compute. reflexivity.
Defined.

(* ===================================================================== *)
(** ** More on the summary difference                                     *)
(* ===================================================================== *)

Section SortedInputs.

Lemma sorted_insert_perm (a : row) (l : list row) :
  sorted_insert a l ≡ₚ a :: l.
Proof.
  induction l as [|b l IH]; [reflexivity|]. simpl.
  destruct (objects_key b <? objects_key a)%string; [|reflexivity].
  rewrite IH. apply Permutation_swap.
Qed.

(** [sorted] keeps the rows, all of them. *)
Lemma sorted_perm (l : list row) : sorted l ≡ₚ l.
Proof.
  induction l as [|a l IH]; [reflexivity|].
  unfold sorted in *. simpl. rewrite sorted_insert_perm, IH. reflexivity.
Qed.

Lemma key_le_total (a b : row) : key_lt a b \/ key_le b a.
Proof.
  destruct (key_order_total a b) as [_ E | _ _ H | _ _ H].
  - right. apply leb_cases. left. symmetry. exact E.
  - left. exact H.
  - right. apply leb_cases. right. exact H.
Qed.

Lemma key_lt_le (a b : row) : key_lt a b -> key_le a b.
Proof. intros H. apply leb_cases. right. exact H. Qed.

Lemma sorted_insert_ascending (a : row) (l : list row) :
  StronglySorted key_le l -> StronglySorted key_le (sorted_insert a l).
Proof.
  induction 1 as [|b l Hl IH Hb]; simpl.
  - repeat constructor.
  - destruct (objects_key b <? objects_key a)%string eqn:E.
    + constructor; [exact IH|].
      rewrite sorted_insert_perm. constructor; [|exact Hb].
      apply key_lt_le, ltb_lt, E.
    + assert (Hab : key_le a b).
      { destruct (key_le_total b a) as [H | H]; [|exact H].
        apply ltb_lt in H. congruence. }
      constructor; [constructor; assumption|].
      constructor; [exact Hab|].
      eapply Forall_impl; [exact Hb|]. intros c Hc.
      eapply key_le_trans; eassumption.
Qed.

Lemma sorted_ascending (l : list row) : StronglySorted key_le (sorted l).
Proof.
  induction l as [|a l IH]; [constructor|].
  unfold sorted in *. simpl. apply sorted_insert_ascending, IH.
Qed.

Lemma keys_sorted (l : list row) (k : string) :
  k ∈ keys (sorted l) <-> k ∈ keys l.
Proof. unfold keys. rewrite (sorted_perm l). reflexivity. Qed.

End SortedInputs.

Section MergeAnyInputs.

Lemma key_le_same_key (a b c : row) :
  objects_key b = objects_key c -> key_le a b -> key_le a c.
Proof. unfold key_le. intros <-. auto. Qed.

Lemma merge_diff_lower_bound (x : row) (l r : list row) :
  Forall (key_le x) l -> Forall (key_le x) r ->
  Forall (key_le x) (merge_diff l r).
Proof.
  rewrite !Forall_forall. intros Hl Hr y Hy.
  assert (Hk : objects_key y ∈ keys (merge_diff l r))
    by (apply key_in_keys, Hy).
  apply merge_diff_keys in Hk.
  destruct Hk as [Hk | Hk]; apply list_elem_of_fmap in Hk;
    destruct Hk as [z [Hz Hin]];
    eapply key_le_same_key; [symmetry; exact Hz | auto | symmetry; exact Hz | auto].
Qed.

Lemma val_neg_ascending (l : list row) :
  StronglySorted key_le l -> StronglySorted key_le (map val_neg l).
Proof.
  induction 1 as [|a l Hl IH Ha]; simpl; constructor; [exact IH|].
  rewrite Forall_forall in *. intros y Hy.
  apply list_elem_of_fmap in Hy. destruct Hy as [z [-> Hz]].
  apply (Ha z Hz).
Qed.

Lemma Forall_key_le_trans (a b : row) (l : list row) :
  key_le a b -> Forall (key_le b) l -> Forall (key_le a) l.
Proof.
  intros Hab Hb. eapply Forall_impl; [exact Hb|]. intros c Hbc.
  eapply key_le_trans; eassumption.
Qed.

(** The merge of two ascending lists is ascending, keys repeated or not. *)
Lemma merge_diff_ascending (l r : list row) :
  StronglySorted key_le l -> StronglySorted key_le r ->
  StronglySorted key_le (merge_diff l r).
Proof.
  revert r. induction l as [|a l IHl]; intros r Hl Hr.
  - rewrite merge_diff_nil_l. exact Hr.
  - pose proof Hl as Hl0. inversion Hl as [|? ? Hl' Ha]; subst.
    induction r as [|b r IHr].
    + rewrite merge_diff_nil_r. apply val_neg_ascending, Hl0.
    + pose proof Hr as Hr0. inversion Hr as [|? ? Hr' Hb]; subst.
      rewrite merge_diff_cons.
      destruct (key_order_total a b) as [E Heq | E L Hlt | E L Hlt];
        rewrite E; try rewrite L; constructor.
      * apply IHl; assumption.
      * apply merge_diff_lower_bound; [|exact Hb].
        eapply Forall_impl; [exact Ha|]. intros c Hc.
        unfold key_le in *. rewrite delta_key, <- Heq. exact Hc.
      * apply IHl; assumption.
      * apply merge_diff_lower_bound; [exact Ha|].
        constructor; [apply key_lt_le, Hlt|].
        eapply Forall_key_le_trans; [apply key_lt_le, Hlt | exact Hb].
      * apply IHr. exact Hr'.
      * apply merge_diff_lower_bound; [|exact Hb].
        constructor; [apply key_lt_le, Hlt|].
        eapply Forall_key_le_trans; [apply key_lt_le, Hlt | exact Ha].
Qed.

Lemma merge_diff_length (l r : list row) :
  (length (merge_diff l r) <= length l + length r)%nat.
Proof.
  revert r. induction l as [|a l IHl]; intros r.
  - rewrite merge_diff_nil_l. simpl. lia.
  - induction r as [|b r IHr].
    + rewrite merge_diff_nil_r, length_map. lia.
    + rewrite merge_diff_cons.
      destruct (objects_key a =? objects_key b)%string;
        [|destruct (objects_key a <? objects_key b)%string].
      * specialize (IHl r). simpl. lia.
      * specialize (IHl (b :: r)). simpl in *. lia.
      * simpl in *. lia.
Qed.

Lemma merge_diff_self (l : list row) :
  merge_diff l l = map (fun a => Row (row_key a) 0 0) l.
Proof.
  induction l as [|a l IH]; [reflexivity|].
  rewrite merge_diff_cons, String.eqb_refl, IH. unfold delta.
  rewrite !Z.sub_diag. reflexivity.
Qed.

Lemma val_neg_involutive (a : row) : val_neg (val_neg a) = a.
Proof.
  destruct a as [k c s]. unfold val_neg. simpl.
  rewrite !Z.opp_involutive. reflexivity.
Qed.

Lemma val_neg_delta (a b : row) :
  objects_key a = objects_key b -> val_neg (delta a b) = delta b a.
Proof.
  unfold objects_key, val_neg, delta. simpl. intros <-. f_equal; lia.
Qed.

(** Swapping the two lists negates every row of the merge. *)
Lemma merge_diff_swap (l r : list row) :
  merge_diff r l = map val_neg (merge_diff l r).
Proof.
  revert r. induction l as [|a l IHl]; intros r.
  - rewrite merge_diff_nil_l, merge_diff_nil_r. reflexivity.
  - induction r as [|b r IHr].
    + rewrite merge_diff_nil_l, merge_diff_nil_r, map_map.
      rewrite <- (map_id (a :: l)) at 1. apply map_ext.
      intros x. symmetry. apply val_neg_involutive.
    + rewrite !merge_diff_cons.
      destruct (key_order_total a b) as [E Heq | E L Hlt | E L Hlt];
        rewrite E; try rewrite L.
      * rewrite String.eqb_sym, E. cbn [map].
        rewrite val_neg_delta by exact Heq. f_equal. apply IHl.
      * rewrite String.eqb_sym, E.
        assert (Hba : (objects_key b <? objects_key a)%string = false).
        { destruct (objects_key b <? objects_key a)%string eqn:B; [|reflexivity].
          apply ltb_lt in B. exfalso. exact (key_lt_asym a b Hlt B). }
        rewrite Hba. cbn [map]. rewrite val_neg_involutive. f_equal. apply IHl.
      * rewrite String.eqb_sym, E.
        assert (Hba : (objects_key b <? objects_key a)%string = true)
          by (apply ltb_lt, Hlt).
        rewrite Hba. cbn [map]. f_equal. apply IHr.
Qed.

End MergeAnyInputs.

(* ===================================================================== *)
(** ** What the methods raise                                             *)
(* ===================================================================== *)

Section Raising.

Context (E : exn -> Prop) (I : machine -> Prop).

Lemma raises_only_ret {A} (a : A) : raises_only E I (mret a).
Proof. intros s H. split; [exact H|]. intros e He. discriminate. Qed.

Lemma raises_only_raise {A} (e : exn) : E e -> raises_only E I (@raise A e).
Proof.
  intros He s H. split; [exact H|]. intros e' H'.
  cbn in H'. injection H' as <-. exact He.
Qed.

Lemma raises_only_get_self : raises_only E I get_self.
Proof. intros s H. split; [exact H|]. intros e He. discriminate. Qed.

Lemma raises_only_get_env : raises_only E I get_env.
Proof. intros s H. split; [exact H|]. intros e He. discriminate. Qed.

Lemma raises_only_update (f : plugin -> plugin) :
  (forall s, I s -> I (Machine (f (self s)) (env s) (history s))) ->
  raises_only E I (update f).
Proof. intros Hf s H. split; [apply Hf, H|]. intros e He. discriminate. Qed.

Lemma raises_only_effect (g : world -> world) :
  (forall s, I s -> I (Machine (self s) (g (env s)) (history s))) ->
  raises_only E I (effect g).
Proof. intros Hg s H. split; [apply Hg, H|]. intros e He. discriminate. Qed.

Lemma raises_only_record (x : entry) :
  (forall s, I s -> I (Machine (self s) (env s) (history s ++ [x]))) ->
  raises_only E I (record x).
Proof. intros Hx s H. split; [apply Hx, H|]. intros e He. discriminate. Qed.

Lemma raises_only_bind {A B} (m : M A) (f : A -> M B) :
  raises_only E I m -> (forall a, raises_only E I (f a)) ->
  raises_only E I (m ≫= f).
Proof.
  intros Hm Hf s H. unfold mbind, M_bind.
  destruct (Hm s H) as [H1 H2].
  destruct (m s) as [[a | e] s1]; cbn [fst snd] in *.
  - apply Hf, H1.
  - split; [exact H1|]. intros e' He'. injection He' as <-.
    apply H2. reflexivity.
Qed.

Lemma raises_only_when (b : bool) (m : M unit) :
  raises_only E I m -> raises_only E I (when b m).
Proof. intros Hm. destruct b; [exact Hm | apply raises_only_ret]. Qed.

Lemma raises_only_try (m : M unit) (handler : string -> M unit) :
  raises_only (fun e => E e \/ is_LeakDetected e) I m ->
  (forall message, raises_only E I (handler message)) ->
  raises_only E I (try_except_LeakDetected m handler).
Proof.
  intros Hm Hh s H. unfold try_except_LeakDetected.
  destruct (Hm s H) as [H1 H2].
  destruct (m s) as [[a | [message | k]] s1]; cbn [fst snd] in *.
  - split; [exact H1|]. intros e He. discriminate.
  - apply Hh, H1.
  - split; [exact H1|]. intros e He. injection He as <-.
    destruct (H2 _ eq_refl) as [HE | [message Hl]]; [exact HE | discriminate].
Qed.

Lemma raises_only_repeat (n : nat) (m : M unit) :
  raises_only E I m -> raises_only E I (repeat_M n m).
Proof.
  intros Hm. induction n as [|n IH]; simpl.
  - apply raises_only_ret.
  - apply raises_only_bind; [exact Hm | intros _; exact IH].
Qed.

End Raising.

Lemma raises_only_weaken {A} (E E' : exn -> Prop) (I : machine -> Prop)
      (m : M A) :
  (forall e, E e -> E' e) -> raises_only E I m -> raises_only E' I m.
Proof.
  intros HE Hm s H. destruct (Hm s H) as [H1 H2]. split; [exact H1|].
  intros e He. apply HE, H2, He.
Qed.

(** A method that keeps [I] and raises nothing but [LeakDetected]. *)
Lemma raises_only_leak {A} (I : machine -> Prop) (m : M A) :
  preserves I m ->
  (forall s e, (m s).1 = Raise e -> is_LeakDetected e) ->
  forall E, raises_only (fun e => E e \/ is_LeakDetected e) I m.
Proof.
  intros Hp Hl E s H. split; [apply Hp, H|]. intros e He. right.
  eapply Hl, He.
Qed.

Lemma check_for_leaks_raises_leak (s : machine) (e : exn) :
  (check_for_leaks s).1 = Raise e -> is_LeakDetected e.
Proof.
  intros H. destruct (check_for_leaks s) as [o s1] eqn:Hc. cbn [fst] in H.
  subst o. destruct (check_for_leaks_raise s s1 e Hc) as (_ & message & _ & -> & _).
  exists message. reflexivity.
Qed.

Ltac raising_step :=
  match goal with
  | |- raises_only _ _ (mret _) => apply raises_only_ret
  | |- raises_only _ _ get_self => apply raises_only_get_self
  | |- raises_only _ _ get_env => apply raises_only_get_env
  | |- raises_only _ _ (_ ≫= _) => apply raises_only_bind; [|intros ?]
  | |- raises_only _ _ (when _ _) => apply raises_only_when
  | |- raises_only _ _ (try_except_LeakDetected _ _) =>
      apply raises_only_try; [|intros ?]
  | |- raises_only _ _ (repeat_M _ _) => apply raises_only_repeat
  | |- raises_only _ _ (match ?x with _ => _ end) => destruct x
  end.

Lemma raises_only_subscript_key {V} (I : machine -> Prop) (d : gmap Z V)
      (k : Z) :
  raises_only is_KeyError I (subscript d k).
Proof.
  unfold subscript. destruct (d !! k).
  - apply raises_only_ret.
  - apply raises_only_raise. exists k. reflexivity.
Qed.

Ltac catching_leaf :=
  match goal with
  | |- raises_only _ _ (subscript _ _) => apply raises_only_subscript_key
  | |- raises_only _ _ (update _) => apply raises_only_update; intros; trivial
  | |- raises_only _ _ (effect _) => apply raises_only_effect; intros; trivial
  | |- raises_only _ _ (emit _) => apply raises_only_effect; intros; trivial
  | |- raises_only _ _ gc_pass => apply raises_only_effect; intros; trivial
  | |- raises_only _ _ (record _) => apply raises_only_record; intros; trivial
  end.

Ltac catching := repeat first [raising_step | catching_leaf].

Section LeakIsCaught.

Lemma caught_get_summary : raises_only is_KeyError any_state get_summary.
Proof. unfold get_summary. catching. Qed.

Lemma caught_register_mock (m : weakref) (stack : list string) :
  raises_only is_KeyError any_state (register_mock m stack).
Proof. unfold register_mock. catching. Qed.

Lemma caught_check_for_leaks :
  raises_only (fun e => is_KeyError e \/ is_LeakDetected e) any_state
              check_for_leaks.
Proof.
  apply raises_only_leak.
  - intros s _. exact Logic.I.
  - apply check_for_leaks_raises_leak.
Qed.

Lemma caught_finished_level (level : Z) (name : string) :
  raises_only is_KeyError any_state (finished_level level name).
Proof.
  unfold finished_level, memory_delta_report. catching;
    apply caught_get_summary.
Qed.

Lemma caught_perform (a : action) :
  raises_only is_KeyError any_state (perform a).
Proof. destruct a; unfold perform; catching. apply caught_register_mock. Qed.

Lemma caught_perform_all (body : list action) :
  raises_only is_KeyError any_state (perform_all body).
Proof.
  induction body as [|a body IH]; cbn [perform_all]; catching; [|exact IH].
  apply caught_perform.
Qed.

Lemma caught_do_check (t : test) (result : nat) (before : bool) :
  raises_only is_KeyError any_state (do_check t result before).
Proof.
  unfold do_check, get_level_path. catching. apply caught_check_for_leaks.
Qed.

Lemma caught_final_check : raises_only is_KeyError any_state final_check.
Proof. unfold final_check. catching. apply caught_check_for_leaks. Qed.

Lemma caught_handle (e : event) : raises_only is_KeyError any_state (handle e).
Proof.
  destruct e; cbn [handle].
  - unfold begin, create_initial_summary. catching. apply caught_get_summary.
  - unfold beforeTest, started_level. catching. apply caught_finished_level.
  - unfold run_test. catching;
      first [apply caught_do_check | apply caught_perform_all].
  - unfold afterTest. catching. apply caught_finished_level.
  - unfold report. catching; apply caught_final_check.
  - unfold finalize. catching; apply caught_final_check.
  - apply caught_perform.
Qed.

End LeakIsCaught.

(** Whatever the state, no hook lets a [LeakDetected] out: [run_test],
    [report] and [finalize] catch the exception of every check they make,
    and the other hooks make no check.  (A hook can still raise
    [KeyError].) *)
Theorem leak_detected_never_escapes (e : event) (s : machine)
        (message : string) :
  (handle e s).1 <> Raise (LeakDetected message).
Proof.
  intros H. destruct (caught_handle e s Logic.I) as [_ Hk].
  destruct (Hk _ H) as [k Hk']. discriminate.
Qed.

(* ===================================================================== *)
(** ** No hook raises before the end of the run                           *)
(* ===================================================================== *)

Lemma raises_only_get_self_bind {A} (E : exn -> Prop) (I : machine -> Prop)
      (k : plugin -> M A) :
  (forall s, I s ->
             I (k (self s) s).2 /\ forall e, (k (self s) s).1 = Raise e -> E e) ->
  raises_only E I (get_self ≫= k).
Proof. intros H s Hs. apply H, Hs. Qed.

Lemma four_levels_filled (d : gmap Z summary) (x : summary) :
  four_levels (foldl (fun d i => <[i := x]> d) d (seqZ 1 LEVEL_TEST)).
Proof.
  change (seqZ 1 LEVEL_TEST) with [1; 2; 3; 4]. cbn [foldl].
  intros l Hl.
  assert (Hc : l = 1 \/ l = 2 \/ l = 3 \/ l = 4) by lia.
  destruct Hc as [-> | [-> | [-> | ->]]]; simplify_map_eq; eauto.
Qed.

Lemma four_levels_insert (d : gmap Z summary) (k : Z) (x : summary) :
  four_levels d -> four_levels (<[k := x]> d).
Proof.
  intros H l Hl. destruct (decide (k = l)) as [-> | Hne].
  - rewrite lookup_insert_eq. eauto.
  - rewrite lookup_insert_ne by exact Hne. apply H, Hl.
Qed.

Lemma REPORT_DETAILS_class_test (level : Z) :
  level = LEVEL_CLASS \/ level = LEVEL_TEST -> is_Some (REPORT_DETAILS !! level).
Proof. intros [-> | ->]; vm_compute; eauto. Qed.

Ltac steady_leaf :=
  match goal with
  | |- raises_only _ _ (update _) =>
      apply raises_only_update; intros ? ?; assumption
  | |- raises_only _ _ (effect _) =>
      apply raises_only_effect; intros ? ?; assumption
  | |- raises_only _ _ (emit _) =>
      apply raises_only_effect; intros ? ?; assumption
  | |- raises_only _ _ gc_pass =>
      apply raises_only_effect; intros ? ?; assumption
  | |- raises_only _ _ (record _) =>
      apply raises_only_record; intros ? ?; assumption
  end.

Ltac steadily := repeat first [raising_step | steady_leaf].

Section NoException.

Lemma steady_get_summary (I : plugin -> Prop) :
  raises_only no_exception (fun s => I (self s)) get_summary.
Proof. unfold get_summary. steadily. Qed.

(** With the four summaries there, a delta report at class or test level
    goes through, and leaves the four summaries there. *)
Lemma steady_memory_delta_report (level : Z) (name : string) :
  level = LEVEL_CLASS \/ level = LEVEL_TEST ->
  raises_only no_exception
              (fun s => four_levels (previous_summaries (self s)))
              (memory_delta_report level name).
Proof.
  intros Hl. unfold memory_delta_report.
  apply raises_only_bind.
  { unfold subscript. destruct (REPORT_DETAILS_class_test level Hl) as [d ->].
    apply raises_only_ret. }
  intros detail.
  apply raises_only_bind; [apply raises_only_get_env | intros w].
  apply raises_only_bind; [steady_leaf | intros _].
  match goal with
  | |- raises_only _ ?I (get_self ≫= ?k) =>
      assert (Hk : forall p, four_levels (previous_summaries p) ->
                             raises_only no_exception I (k p))
  end.
  { intros p Hp. cbv beta. apply raises_only_bind.
    { assert (H34 : 1 <= level <= 4)
        by (unfold LEVEL_CLASS, LEVEL_TEST in Hl; lia).
      unfold subscript. destruct (Hp level H34) as [old ->].
      apply raises_only_ret. }
    intros old. steadily.
    - apply (steady_get_summary (fun p => four_levels (previous_summaries p))).
    - apply (steady_get_summary (fun p => four_levels (previous_summaries p))).
    - apply raises_only_update. intros s Hs. cbn [self previous_summaries
        set_previous_summaries]. apply four_levels_insert, Hs. }
  apply raises_only_get_self_bind. intros s Hs. apply (Hk (self s) Hs s Hs).
Qed.

Lemma steady_finished_level (level : Z) (name : string) :
  level = LEVEL_CLASS \/ level = LEVEL_TEST ->
  raises_only no_exception summaries_ready (finished_level level name).
Proof.
  intros Hl s Hs. rewrite finished_level_unfold. cbv zeta.
  assert (Hready : forall s', report_delta (self s') = report_delta (self s) ->
                     reporting_level (self s') = reporting_level (self s) ->
                     previous_summaries (self s') = previous_summaries (self s) ->
                     summaries_ready s').
  { intros s' H1 H2 H3. unfold summaries_ready. rewrite H1, H2, H3. exact Hs. }
  destruct (level >? reporting_level (self s))%Z eqn:G.
  - split; [|discriminate].
    apply Hready; destruct (level <=? reporting_level (self s))%Z; reflexivity.
  - destruct (report_delta (self s)) eqn:D; cbn [when].
    + assert (H3 : 3 <= reporting_level (self s)).
      { assert (level <= reporting_level (self s)) by lia.
        unfold LEVEL_CLASS, LEVEL_TEST in Hl. lia. }
      destruct (steady_memory_delta_report level name Hl
                  (Machine
                     (if (level <=? reporting_level (self s))%Z
                      then set_check_for_leaks_before_next_test true (self s)
                      else self s)
                     (env s) (history s ++ [finished level name])))
        as [H4 Hno].
      { cbn [self]. destruct (level <=? reporting_level (self s))%Z;
          apply Hs; assumption. }
      split; [|exact Hno]. intros _ _. exact H4.
    + split; [|discriminate]. intros Hd _. exfalso.
      destruct (level <=? reporting_level (self s))%Z;
        cbn [mret M_ret snd self report_delta
             set_check_for_leaks_before_next_test] in Hd; congruence.
Qed.

Lemma steady_register_mock (m : weakref) (stack : list string) :
  raises_only no_exception summaries_ready (register_mock m stack).
Proof. unfold register_mock. steadily. Qed.

Lemma steady_perform (a : action) :
  raises_only no_exception summaries_ready (perform a).
Proof. destruct a; unfold perform; steadily. apply steady_register_mock. Qed.

Lemma steady_perform_all (body : list action) :
  raises_only no_exception summaries_ready (perform_all body).
Proof.
  induction body as [|a body IH]; cbn [perform_all]; steadily; [|exact IH].
  apply steady_perform.
Qed.

Lemma steady_check_for_leaks :
  raises_only (fun e => no_exception e \/ is_LeakDetected e) summaries_ready
              check_for_leaks.
Proof.
  apply raises_only_leak; [|apply check_for_leaks_raises_leak].
  intros s Hs. destruct (check_for_leaks_spec s) as (w' & _ & -> & _).
  exact Hs.
Qed.

Lemma steady_do_check (t : test) (result : nat) (before : bool) :
  raises_only no_exception summaries_ready (do_check t result before).
Proof.
  unfold do_check, get_level_path. steadily. apply steady_check_for_leaks.
Qed.

Lemma steady_begin : raises_only no_exception summaries_ready begin.
Proof.
  unfold begin, create_initial_summary. steadily.
  - apply (steady_get_summary
             (fun p => report_delta p = true -> 3 <= reporting_level p ->
                       four_levels (previous_summaries p))).
  - apply raises_only_update. intros s Hs _ _.
    cbn [self previous_summaries set_previous_summaries].
    apply four_levels_filled.
Qed.

Lemma steady_handle (e : event) :
  during_run e -> raises_only no_exception summaries_ready (handle e).
Proof.
  destruct e; cbn [handle during_run]; intros He; try contradiction.
  - apply steady_begin.
  - unfold beforeTest, started_level. steadily.
    apply steady_finished_level. left. reflexivity.
  - unfold run_test. steadily;
      first [apply steady_do_check | apply steady_perform_all].
  - unfold afterTest. steadily. apply steady_finished_level. right. reflexivity.
  - apply steady_perform.
Qed.

Lemma steady_run (es : list event) (s : machine) :
  Forall during_run es -> summaries_ready s -> summaries_ready (run es s).
Proof.
  intros Hes. revert s. induction Hes as [|e es He Hes IH]; intros s Hs;
    cbn [run]; [exact Hs|].
  apply IH. apply (steady_handle e He s Hs).
Qed.

(** [begin] on a plugin whose [previous_summaries] is empty, as
    [__init__] leaves it: it returns, and the summaries are ready. *)
Lemma begin_makes_ready (s : machine) :
  previous_summaries (self s) = ∅ ->
  (begin s).1 = Ret tt /\ summaries_ready (begin s).2.
Proof.
  intros Hempty.
  assert (H0 : (create_initial_summary s).1 = Ret tt /\
               summaries_ready (create_initial_summary s).2).
  { unfold create_initial_summary, get_summary, gc_pass, emit, effect,
      update, when, mbind, M_bind, mret, M_ret, get_self, get_env.
    cbn [self env history fst snd set_current_summary report_delta
         previous_summaries reporting_level].
    rewrite Hempty. rewrite bool_decide_eq_true_2 by reflexivity.
    cbn [andb].
    destruct (report_delta (self s)) eqn:D; cbn [fst snd].
    - destruct (reporting_level (self s) =? 0)%Z eqn:Z0; cbn [negb fst snd].
      + split; [reflexivity|]. intros _ H3.
        change (3 <= reporting_level (self s)) in H3.
        apply Z.eqb_eq in Z0. lia.
      + split; [reflexivity|]. intros _ _.
        cbn [self previous_summaries set_previous_summaries].
        apply four_levels_filled.
    - split; [reflexivity|]. intros Hd.
      change (report_delta (self s) = true) in Hd. congruence. }
  destruct H0 as [Hret Hready].
  assert (E : begin s =
              (p ← get_self;
               when (detect_leaked_mocks p)
                 (gc_pass;;
                  emit muppy_get_objects;;
                  w ← get_env;
                  update (set_mock_refs (get_objects w));;
                  when (patch_mock p)
                    (effect (fun w => set_wrappers (S (wrappers w)) w))))
                (create_initial_summary s).2).
  { unfold begin. unfold mbind at 1, M_bind at 1.
    destruct (create_initial_summary s) as [o s1]. cbn [fst snd] in *.
    subst o. reflexivity. }
  rewrite E. clear E. revert Hready.
  generalize ((create_initial_summary s).2). intros s1 Hready.
  match goal with
  | |- (?k s1).1 = _ /\ _ =>
      assert (Hk : raises_only no_exception summaries_ready k)
  end.
  { steadily. }
  destruct (Hk s1 Hready) as [H1 H2]. split; [|exact H1].
  destruct ((_ : M unit) s1) as [[[] | e] s2] eqn:R; [reflexivity|].
  exfalso. exact (H2 e eq_refl).
Qed.

End NoException.

(** From [begin] to the end of the run no hook raises.  On a plugin whose
    [previous_summaries] is empty, as [__init__] leaves it, [begin]
    returns; and then, whatever the tests and the world do, whatever the
    reporting level and with delta reports on or off, every [beforeTest],
    [run_test] and [afterTest] (and a second [begin]) returns normally:
    the summaries [finished_level] looks up are there. *)
Theorem hooks_return_during_run (s0 : machine) (es : list event) (e : event) :
  previous_summaries (self s0) = ∅ ->
  Forall during_run es -> during_run e ->
  (begin s0).1 = Ret tt /\
  (handle e (run es (begin s0).2)).1 = Ret tt.
Proof.
  intros Hempty Hes He. destruct (begin_makes_ready s0 Hempty) as [Hret Hready].
  split; [exact Hret|].
  pose proof (steady_run es _ Hes Hready) as Hrun.
  destruct (steady_handle e He _ Hrun) as [_ Hno].
  destruct (handle e (run es (begin s0).2)) as [[[] | x] s1]; [reflexivity|].
  exfalso. exact (Hno x eq_refl).
Qed.

(** A scope exit that is to make a delta report, at a level that
    [REPORT_DETAILS] lacks or for which no previous summary is kept, raises
    [KeyError] for that level; the flag has been set by then. *)
Theorem finished_level_missing_key (level : Z) (name : string) (s : machine) :
  report_delta (self s) = true ->
  level <= reporting_level (self s) ->
  REPORT_DETAILS !! level = None \/ previous_summaries (self s) !! level = None ->
  (finished_level level name s).1 = Raise (KeyError level) /\
  check_for_leaks_before_next_test (self (finished_level level name s).2) = true.
Proof.
  intros Hd Hle Hmiss. rewrite finished_level_unfold. cbv zeta.
  assert (L : (level <=? reporting_level (self s))%Z = true)
    by (apply Z.leb_le; exact Hle).
  assert (G : (level >? reporting_level (self s))%Z = false).
  { destruct (level >? reporting_level (self s))%Z eqn:G; [|reflexivity].
    apply Z.gtb_lt in G. lia. }
  rewrite L, G, Hd. cbn [when].
  unfold memory_delta_report, subscript, mbind, M_bind, mret, M_ret, raise,
    get_env, get_self, emit, effect.
  destruct (REPORT_DETAILS !! level) as [detail|] eqn:R.
  - destruct Hmiss as [Hm | Hm]; [discriminate|].
    cbn [self env history fst snd previous_summaries
         set_check_for_leaks_before_next_test].
    rewrite Hm. cbn [fst snd self check_for_leaks_before_next_test
                     set_check_for_leaks_before_next_test]. auto.
  - cbn [fst snd self check_for_leaks_before_next_test
         set_check_for_leaks_before_next_test]. auto.
Qed.

(* ===================================================================== *)
(** ** A released mock is not reported                                    *)
(* ===================================================================== *)

Section Released.

Context (m : weakref) (n : nat).

Lemma gone_not_live (w : world) : gone w m -> is_live (collected w) m = false.
Proof.
  intros H. rewrite is_live_status, status_collected.
  destruct H as [-> | ->]; reflexivity.
Qed.

Lemma gone_collected (w : world) : gone w m -> gone (collected w) m.
Proof.
  unfold gone. rewrite status_collected. intros [-> | ->]; auto.
Qed.

Lemma gone_same_heap (w w' : world) : heap w' = heap w -> gone w m -> gone w' m.
Proof. intros H. unfold gone. rewrite (status_heap w w' m H). auto. Qed.

Lemma gone_alter_state (f : mock_obj -> mock_obj) (i : nat) (w : world) :
  (forall o, mock_state (f o) = mock_state o) ->
  gone w m -> gone (set_heap (alter f i (heap w)) w) m.
Proof. intros Hf. unfold gone. rewrite status_alter by exact Hf. auto. Qed.

Lemma gone_release (i : nat) (w : world) :
  gone w m -> gone (set_heap (alter drop_reference i (heap w)) w) m.
Proof.
  unfold gone, status, set_heap. cbn [heap].
  destruct (decide (i = m)) as [-> | Hne].
  - rewrite list_lookup_alter_eq. destruct (heap w !! m) as [o|]; simpl.
    + unfold drop_reference. destruct (mock_state o) eqn:E; simpl;
        rewrite ?E; intros [H | H]; first [discriminate | auto].
    + auto.
  - rewrite list_lookup_alter_ne by exact Hne. auto.
Qed.

Lemma gone_alloc (o : mock_obj) (w : world) :
  gone w m -> gone (set_heap (heap w ++ [o]) w) m.
Proof.
  intros H. assert (Hm : (m < length (heap w))%nat).
  { apply status_allocated. destruct H as [-> | ->]; eauto. }
  unfold gone. rewrite status_alloc by exact Hm. exact H.
Qed.

Lemma released_effect (g : world -> world) :
  (forall w, gone w m -> gone (g w) m) ->
  preserves (released m n) (effect g).
Proof. intros Hg s [H1 H2]. split; [apply Hg, H1 | exact H2]. Qed.

Lemma released_record_finished (level : Z) (name : string) :
  preserves (released m n) (record (finished level name)).
Proof.
  intros s [H1 H2]. split; [exact H1|].
  cbn [snd record history]. rewrite reports_app, Nat.add_0_r. exact H2.
Qed.

End Released.

Ltac released_leaf :=
  match goal with
  | |- preserves _ (record (finished _ _)) => apply released_record_finished
  | |- preserves _ (update _) => intros ? ?; assumption
  | |- preserves _ (emit _) =>
      apply released_effect; intros ?; apply gone_same_heap; reflexivity
  | |- preserves _ gc_pass =>
      apply released_effect;
      let w := fresh "w" in
      intros w ?; apply (gone_same_heap _ (collected w)); [reflexivity|];
      apply gone_collected; assumption
  | |- preserves _ (effect _) =>
      apply released_effect; intros ?;
      first [ apply gone_same_heap; reflexivity
            | apply gone_alter_state; reflexivity
            | apply gone_release
            | apply gone_alloc ]
  end.

Ltac releasing := repeat first [preserve_step | released_leaf].

Section ReleasedMethods.

Context (m : weakref) (n : nat).

Lemma released_get_summary : preserves (released m n) get_summary.
Proof. unfold get_summary. releasing. Qed.

Lemma released_register_mock (m' : weakref) (stack : list string) :
  preserves (released m n) (register_mock m' stack).
Proof. unfold register_mock. releasing. Qed.

Lemma released_error_messages (l : list weakref) :
  preserves (released m n) (error_messages l).
Proof.
  induction l as [|m' l IH]; cbn [error_messages]; releasing; [|exact IH].
  unfold error_message. releasing.
Qed.

Lemma released_check_for_leaks : preserves (released m n) check_for_leaks.
Proof.
  intros s [H1 H2]. rewrite check_for_leaks_unfold. cbv zeta.
  assert (Hnew : m ∉ new_mocks_of (collected (env s)) (self s)).
  { rewrite elem_of_new_mocks_of. intros (_ & Hl & _).
    rewrite (gone_not_live m (env s) H1) in Hl. discriminate. }
  assert (H : released m n
                (Machine (set_previous_mock_refs
                            (mocks_of (collected (env s)) (self s)) (self s))
                         (log gc_collect (collected (env s)))
                         (history s ++
                          [checked (new_mocks_of (collected (env s)) (self s))]))).
  { split.
    - apply (gone_same_heap m (collected (env s))); [reflexivity|].
      apply gone_collected, H1.
    - cbn [history]. rewrite reports_app.
      destruct (existsb (Nat.eqb m) (new_mocks_of (collected (env s)) (self s)))
        eqn:E; [|lia].
      apply existsb_eqb in E. contradiction. }
  destruct (new_mocks_of (collected (env s)) (self s)) as [|m' l]; [exact H|].
  revert H. generalize (m' :: l). intros new_mocks.
  match goal with
  | |- released m n ?s1 -> released m n (?k ?s1).2 =>
      assert (Hk : preserves (released m n) k); [| intros H; apply Hk, H]
  end.
  releasing. apply released_error_messages.
Qed.

Lemma released_finished_level (level : Z) (name : string) :
  preserves (released m n) (finished_level level name).
Proof.
  unfold finished_level, memory_delta_report.
  releasing; apply released_get_summary.
Qed.

Lemma released_perform (a : action) : preserves (released m n) (perform a).
Proof.
  destruct a; unfold perform; releasing. apply released_register_mock.
Qed.

Lemma released_perform_all (body : list action) :
  preserves (released m n) (perform_all body).
Proof.
  induction body as [|a body IH]; cbn [perform_all]; releasing; [|exact IH].
  apply released_perform.
Qed.

Lemma released_do_check (t : test) (result : nat) (before : bool) :
  preserves (released m n) (do_check t result before).
Proof.
  unfold do_check, get_level_path. releasing. apply released_check_for_leaks.
Qed.

Lemma released_final_check : preserves (released m n) final_check.
Proof. unfold final_check. releasing. apply released_check_for_leaks. Qed.

Lemma released_handle (e : event) : preserves (released m n) (handle e).
Proof.
  destruct e; cbn [handle].
  - unfold begin, create_initial_summary. releasing.
    apply released_get_summary.
  - unfold beforeTest, started_level. releasing.
    apply released_finished_level.
  - unfold run_test. releasing;
      first [apply released_do_check | apply released_perform_all].
  - unfold afterTest. releasing. apply released_finished_level.
  - unfold report. releasing; apply released_final_check.
  - unfold finalize. releasing; apply released_final_check.
  - apply released_perform.
Qed.

End ReleasedMethods.

(** A mock that has been released, whether the collector has reclaimed it
    yet or not, is in the new-leak set of no later check: in any run from
    there the number of checks that reported it stays what it was, and the
    mock stays released. *)
Theorem released_mock_never_reported (es : list event) (s : machine)
        (m : weakref) :
  gone (env s) m ->
  reports m (history (run es s)) = reports m (history s) /\
  gone (env (run es s)) m.
Proof.
  intros Hg.
  assert (G : forall n es s, released m n s -> released m n (run es s)).
  { clear. intros n es. induction es as [|e es IH]; intros s H; cbn [run].
    - exact H.
    - apply IH, (released_handle m n e s H). }
  destruct (G (reports m (history s)) es s) as [H1 H2]; [split; auto|].
  auto.
Qed.

(* ===================================================================== *)
(** ** The summary difference on any two summaries                        *)
(* ===================================================================== *)

(** [_fast_get_summary_diff] sorts its arguments itself, so it needs no
    order on them: on any two summaries it returns a list [out] ascending
    by class key, whose keys are those of [left] together with those of
    [right], and with at most as many rows as the two summaries have
    between them. *)
Theorem fast_get_summary_diff_any_order (left right : list row) :
  exists out : list row,
    _fast_get_summary_diff left right = Some out /\
    StronglySorted key_le out /\
    (forall k, k ∈ keys out <-> k ∈ keys left \/ k ∈ keys right) /\
    (length out <= length left + length right)%nat.
Proof.
  exists (merge_diff (sorted left) (sorted right)).
  split; [apply fast_get_summary_diff_merge|].
  split; [apply merge_diff_ascending; apply sorted_ascending|].
  split.
  - intros k. rewrite merge_diff_keys, !keys_sorted. reflexivity.
  - etransitivity; [apply merge_diff_length|].
    rewrite !sorted_length. reflexivity.
Qed.

(** Exchanging the two summaries negates the difference: the rows of
    [_fast_get_summary_diff right left] are those of
    [_fast_get_summary_diff left right], in the same order, with count and
    size negated. *)
Theorem fast_get_summary_diff_swap (left right : list row) :
  _fast_get_summary_diff right left
  = option_map (map val_neg) (_fast_get_summary_diff left right).
Proof.
  rewrite !fast_get_summary_diff_merge. cbn [option_map].
  rewrite (merge_diff_swap (sorted left) (sorted right)). reflexivity.
Qed.

(** The difference of a summary with itself has one row per row of the
    summary, each with count 0 and size 0, so that nothing of it is left
    by the filter [row[1] or row[2]] of [finished_level]. *)
Theorem fast_get_summary_diff_self (l : list row) :
  exists out : list row,
    _fast_get_summary_diff l l = Some out /\
    keys out ≡ₚ keys l /\
    Forall (fun x => row_count x = 0 /\ row_size x = 0) out /\
    filter_nonzero out = [].
Proof.
  exists (map (fun a => Row (row_key a) 0 0) (sorted l)).
  split; [rewrite fast_get_summary_diff_merge, merge_diff_self; reflexivity|].
  split.
  - unfold keys. rewrite map_map. cbn [objects_key row_key].
    change (map (fun x => row_key x) (sorted l)) with (map objects_key (sorted l)).
    rewrite (sorted_perm l). reflexivity.
  - generalize (sorted l). intros l'. split.
    + induction l' as [|a l' IH]; constructor; auto.
    + induction l' as [|a l' IH]; [reflexivity|].
      cbn [map]. unfold filter_nonzero in *.
      rewrite filter_cons_False; [exact IH|].
      cbn. discriminate.
Qed.

(** Against the empty summary the difference is the other summary, sorted:
    as it is on the right, and with count and size negated on the left.
    The rows are those of the summary, duplicates included. *)
Theorem fast_get_summary_diff_empty (l : list row) :
  _fast_get_summary_diff [] l = Some (sorted l) /\
  _fast_get_summary_diff l [] = Some (map val_neg (sorted l)) /\
  sorted l ≡ₚ l /\ StronglySorted key_le (sorted l).
Proof.
  rewrite !fast_get_summary_diff_merge.
  change (sorted []) with (@nil row).
  rewrite merge_diff_nil_l, merge_diff_nil_r.
  repeat split; [apply sorted_perm | apply sorted_ascending].
Qed.

(* ===================================================================== *)
(** ** The memory delta report of an unchanged summary                    *)
(* ===================================================================== *)

Lemma filter_nonzero_zero (l : list row) :
  filter_nonzero (map (fun a => Row (row_key a) 0 0) l) = [].
Proof.
  induction l as [|a l IH]; [reflexivity|].
  cbn [map]. unfold filter_nonzero in *.
  rewrite filter_cons_False; [exact IH|]. cbn. discriminate.
Qed.

(** With memory deltas reported, when the summary kept for a level is the
    summary in use, [finished_level] at that level returns normally and
    prints, after the peak memory line, the report that ends in
    ["No changes"] and the peak memory usage, in the colour of the level;
    it takes a summary of the heap first (a collection, then the object
    walk) exactly when the plugin holds none.  The summary kept for the
    level is left as it was. *)
Theorem finished_level_no_changes (level : Z) (name : string) (s : machine)
        (detail : ReportDetail) :
  report_delta (self s) = true ->
  level <= reporting_level (self s) ->
  REPORT_DETAILS !! level = Some detail ->
  previous_summaries (self s) !! level = Some (summary_in_use s) ->
  (finished_level level name s).1 = Ret tt /\
  calls (env (finished_level level name s).2)
  = (calls (env s)
     ++ [print (plain ("Peak memory usage for " ++ name ++ ": "
                       ++ pretty (ru_maxrss (env s))))]
     ++ (if no_summary (self s) then [gc_collect; muppy_get_objects] else [])
     ++ [print (colored
           (("Memory Delta Report for " ++ upper (title detail) ++ ": "
             ++ name ++ nl)
            ++ "No changes" ++ nl
            ++ "Peak memory usage: " ++ pretty (ru_maxrss (env s)))
           (color detail))])%list /\
  previous_summaries (self (finished_level level name s).2)
  = previous_summaries (self s) /\
  summary_in_use (finished_level level name s).2 = summary_in_use s.
Proof.
  intros Hd Hle Hdet Hprev. rewrite finished_level_unfold. cbv zeta.
  assert (L : (level <=? reporting_level (self s))%Z = true)
    by (apply Z.leb_le; exact Hle).
  assert (G : (level >? reporting_level (self s))%Z = false).
  { destruct (level >? reporting_level (self s))%Z eqn:G; [|reflexivity].
    apply Z.gtb_lt in G. lia. }
  rewrite L, G, Hd. cbn [when].
  unfold memory_delta_report, subscript. rewrite Hdet.
  unfold mbind, M_bind, mret, M_ret, get_env, get_self, emit, effect.
  cbn [self env history fst snd previous_summaries
       set_check_for_leaks_before_next_test].
  rewrite Hprev.
  unfold summary_in_use, no_summary in *.
  destruct (current_summary (self s)) as [[|c cs]|] eqn:C;
    cbn [self env history fst snd previous_summaries current_summary
         set_check_for_leaks_before_next_test get_summary gc_pass];
    rewrite ?C;
    unfold get_summary, gc_pass, emit, effect, update, mbind, M_bind, mret,
      M_ret, get_env;
    cbn [self env history fst snd heap_summary log collected
         set_current_summary];
    rewrite fast_get_summary_diff_merge, merge_diff_self, filter_nonzero_zero;
    cbn [self env history fst snd heap_summary calls
         previous_summaries current_summary set_previous_summaries
         set_current_summary set_check_for_leaks_before_next_test ru_maxrss
         log collected set_heap];
    rewrite <- ?app_assoc; cbn [app];
    (split; [reflexivity|]); (split; [reflexivity|]);
    (split; [apply insert_id; exact Hprev|]).
  - destruct (heap_summary (env s)); reflexivity.
  - rewrite C. reflexivity.
  - destruct (heap_summary (env s)); reflexivity.
Qed.

(* ===================================================================== *)
(** ** Without the wrapper no mock is registered                          *)
(* ===================================================================== *)

Ltac untracked_leaf :=
  match goal with
  | |- preserves _ (record (finished _ _)) =>
      let H1 := fresh in let H2 := fresh in let H3 := fresh in
      intros ? (H1 & H2 & H3); split; [exact H1|]; split; [exact H2|];
      cbn [snd record history]; rewrite reports_app, Nat.add_0_r; exact H3
  | |- preserves _ (update _) =>
      let H1 := fresh in let H2 := fresh in let H3 := fresh in
      intros ? (H1 & H2 & H3); split; [exact H1|]; split; [exact H2|exact H3]
  | |- preserves _ (emit _) =>
      let H1 := fresh in let H2 := fresh in let H3 := fresh in
      intros ? (H1 & H2 & H3); split; [exact H1|]; split; [exact H2|exact H3]
  | |- preserves _ gc_pass =>
      let H1 := fresh in let H2 := fresh in let H3 := fresh in
      intros ? (H1 & H2 & H3); split; [exact H1|]; split; [exact H2|exact H3]
  | |- preserves _ (effect _) =>
      let H1 := fresh in let H2 := fresh in let H3 := fresh in
      intros ? (H1 & H2 & H3); split; [exact H1|]; split; [exact H2|exact H3]
  end.

Ltac untracking := repeat first [preserve_step | untracked_leaf].

Section Untracked.

Context (m : weakref) (n : nat).

Lemma untracked_get_summary : preserves (untracked m n) get_summary.
Proof. unfold get_summary. untracking. Qed.

Lemma untracked_error_messages (l : list weakref) :
  preserves (untracked m n) (error_messages l).
Proof.
  induction l as [|m' l IH]; cbn [error_messages]; untracking; [|exact IH].
  unfold error_message. untracking.
Qed.

Lemma untracked_check_for_leaks : preserves (untracked m n) check_for_leaks.
Proof.
  intros s (H1 & H2 & H3). rewrite check_for_leaks_unfold. cbv zeta.
  assert (Hnew : m ∉ new_mocks_of (collected (env s)) (self s)).
  { rewrite elem_of_new_mocks_of. intros (Hm & _). contradiction. }
  assert (H : untracked m n
                (Machine (set_previous_mock_refs
                            (mocks_of (collected (env s)) (self s)) (self s))
                         (log gc_collect (collected (env s)))
                         (history s ++
                          [checked (new_mocks_of (collected (env s)) (self s))]))).
  { split; [exact H1|]. split; [exact H2|].
    cbn [history]. rewrite reports_app.
    destruct (existsb (Nat.eqb m) (new_mocks_of (collected (env s)) (self s)))
      eqn:E; [|lia].
    apply existsb_eqb in E. contradiction. }
  destruct (new_mocks_of (collected (env s)) (self s)) as [|m' l]; [exact H|].
  revert H. generalize (m' :: l). intros new_mocks.
  match goal with
  | |- untracked m n ?s1 -> untracked m n (?k ?s1).2 =>
      assert (Hk : preserves (untracked m n) k); [| intros H; apply Hk, H]
  end.
  untracking. apply untracked_error_messages.
Qed.

Lemma untracked_finished_level (level : Z) (name : string) :
  preserves (untracked m n) (finished_level level name).
Proof.
  unfold finished_level, memory_delta_report.
  untracking; apply untracked_get_summary.
Qed.

(** With no wrapper installed nothing calls [register_mock]. *)
Lemma untracked_perform (a : action) : preserves (untracked m n) (perform a).
Proof.
  destruct a; unfold perform; try solve [untracking].
  apply preserves_get_env_bind. intros s H.
  assert (W : wrappers (env s) = 0%nat) by apply H. rewrite W.
  cbn [repeat_M].
  match goal with
  | |- untracked m n (?k s).2 =>
      assert (P : preserves (untracked m n) k) by untracking
  end.
  apply P, H.
Qed.

Lemma untracked_perform_all (body : list action) :
  preserves (untracked m n) (perform_all body).
Proof.
  induction body as [|a body IH]; cbn [perform_all]; untracking; [|exact IH].
  apply untracked_perform.
Qed.

Lemma untracked_do_check (t : test) (result : nat) (before : bool) :
  preserves (untracked m n) (do_check t result before).
Proof.
  unfold do_check, get_level_path. untracking. apply untracked_check_for_leaks.
Qed.

Lemma untracked_final_check : preserves (untracked m n) final_check.
Proof. unfold final_check. untracking. apply untracked_check_for_leaks. Qed.

Lemma untracked_finalize (result : nat) :
  preserves (untracked m n) (finalize result).
Proof.
  unfold finalize. apply preserves_bind; [apply untracked_final_check|].
  intros _. apply preserves_bind; [apply preserves_get_self|]. intros p.
  apply preserves_get_env_bind. intros s H.
  assert (W : wrappers (env s) = 0%nat) by apply H. rewrite W.
  rewrite andb_false_r. cbn [when].
  match goal with
  | |- untracked m n (?k s).2 =>
      assert (P : preserves (untracked m n) k) by untracking
  end.
  apply P, H.
Qed.

Lemma untracked_handle (e : event) :
  e <> ev_begin -> preserves (untracked m n) (handle e).
Proof.
  intros He. destruct e; cbn [handle].
  - contradiction.
  - unfold beforeTest, started_level. untracking.
    apply untracked_finished_level.
  - unfold run_test. untracking;
      first [apply untracked_do_check | apply untracked_perform_all].
  - unfold afterTest. untracking. apply untracked_finished_level.
  - unfold report. untracking; apply untracked_final_check.
  - apply untracked_finalize.
  - apply untracked_perform.
Qed.

End Untracked.

(** Mocks come to the plugin's notice in two ways only: [begin] lists the
    mocks that exist, and the wrapper that [begin] installs around
    [mock.Base.__init__] registers each mock made later.  So while no
    wrapper is installed (the patch option is off, or [begin] has not
    run), a mock the plugin does not track is reported by no check of a
    run in which [begin] is not called, whatever the tests do with it and
    however long it lives. *)
Theorem unpatched_mock_never_reported (es : list event) (s : machine)
        (m : weakref) :
  wrappers (env s) = 0%nat ->
  Forall (fun e => e <> ev_begin) es ->
  m ∉ mock_refs (self s) ->
  reports m (history (run es s)) = reports m (history s) /\
  (m ∉ mock_refs (self (run es s))).
Proof.
  intros Hw Hes Hm.
  assert (G : forall n es s, Forall (fun e => e <> ev_begin) es ->
                untracked m n s -> untracked m n (run es s)).
  { clear. intros n es. induction es as [|e es IH]; intros s Hes H; cbn [run].
    - exact H.
    - inversion Hes as [|? ? He Hes']; subst.
      apply IH; [exact Hes'|]. apply (untracked_handle m n e He s H). }
  destruct (G (reports m (history s)) es s Hes) as (H1 & H2 & H3).
  - repeat split; auto.
  - auto.
Qed.

(* ===================================================================== *)
(** ** The traceback a mock is registered with                            *)
(* ===================================================================== *)

Section Frames.

Context {A : Type}.

Lemma filter_sublist_of (f : A -> bool) (l : list A) :
  List.filter f l `sublist_of` l.
Proof.
  induction l as [|a l IH]; [constructor|].
  cbn [List.filter]. destruct (f a); [apply sublist_skip | apply sublist_cons];
    exact IH.
Qed.

Lemma filter_length (f : A -> bool) (l : list A) :
  (length (List.filter f l) <= length l)%nat.
Proof. apply sublist_length, filter_sublist_of. Qed.

Lemma filter_Forall (f : A -> bool) (l : list A) :
  Forall (fun a => f a = true) (List.filter f l).
Proof.
  induction l as [|a l IH]; [constructor|].
  cbn [List.filter]. destruct (f a) eqn:E; [constructor; assumption | exact IH].
Qed.

Lemma removelast_shorter (l : list A) :
  length (removelast l) = Nat.pred (length l).
Proof.
  induction l as [|a l IH]; [reflexivity|].
  destruct l as [|b l]; [reflexivity|].
  change (removelast (a :: b :: l)) with (a :: removelast (b :: l)).
  cbn [length]. rewrite IH. reflexivity.
Qed.

Lemma removelast_drop_sublist (k : nat) (l : list A) :
  removelast (drop k l) `sublist_of` removelast l.
Proof.
  revert k. induction l as [|a l IH]; intros k.
  - rewrite drop_nil. constructor.
  - destruct k as [|k]; [reflexivity|]. cbn [drop].
    destruct l as [|b l].
    + rewrite drop_nil. constructor.
    + change (removelast (a :: b :: l)) with (a :: removelast (b :: l)).
      apply sublist_cons, IH.
Qed.

End Frames.

(** [register_mock] appends one reference to the mock to the tracked list
    and returns.  A mock that has a (non-empty) traceback keeps it; a mock
    without one is given at most nine frames: frames of the call stack
    below the current one, in the order of the stack reversed, none of them
    from [mock.py].  Nothing else of the mock changes, and no other mock
    is touched. *)
Theorem register_mock_traceback (m : weakref) (stack : list string)
        (s : machine) (o : mock_obj) :
  heap (env s) !! m = Some o ->
  (register_mock m stack s).1 = Ret tt /\
  mock_refs (self (register_mock m stack s).2) = (mock_refs (self s) ++ [m])%list /\
  (forall m', m' <> m ->
     heap (env (register_mock m stack s).2) !! m' = heap (env s) !! m') /\
  exists tb,
    heap (env (register_mock m stack s).2) !! m = Some (set_traceback tb o) /\
    match _mock_traceback o with
    | Some (f :: fs) => tb = Some (f :: fs)
    | _ =>
        exists frames, tb = Some frames /\
          (length frames <= 9)%nat /\
          Forall (fun f => contains "mock.py" f = false) frames /\
          rev frames `sublist_of` removelast stack
    end.
Proof.
  intros Ho.
  set (frames := List.filter (fun f => negb (contains "mock.py" f))
                             (removelast (format_stack 10 stack))).
  assert (F : (length (rev frames) <= 9)%nat /\
              Forall (fun f => contains "mock.py" f = false) (rev frames) /\
              rev (rev frames) `sublist_of` removelast stack).
  { split; [|split].
    - rewrite length_rev. subst frames.
      etransitivity; [apply filter_length|].
      rewrite removelast_shorter. unfold format_stack. rewrite length_drop. lia.
    - apply Forall_rev. subst frames.
      eapply Forall_impl; [apply filter_Forall|].
      intros f Hf. cbn beta in Hf. apply negb_true_iff in Hf. exact Hf.
    - rewrite rev_involutive. subst frames.
      etransitivity; [apply filter_sublist_of|].
      apply removelast_drop_sublist. }
  unfold register_mock, mbind, M_bind, get_env, when, update, effect, mret,
    M_ret.
  rewrite Ho. cbn [mbind option_bind].
  destruct o as [st rp tb vs]. cbn [_mock_traceback] in *.
  destruct tb as [[|f fs]|];
    cbn [fst snd self env history mock_refs set_mock_refs heap set_heap];
    (split; [reflexivity|]); (split; [reflexivity|]).
  - split.
    + intros m' Hne. apply list_lookup_alter_ne. congruence.
    + eexists. split.
      * rewrite list_lookup_alter_eq, Ho. reflexivity.
      * eexists. split; [reflexivity|]. exact F.
  - split; [reflexivity|]. exists (Some (f :: fs)). split; [exact Ho|reflexivity].
  - split.
    + intros m' Hne. apply list_lookup_alter_ne. congruence.
    + eexists. split.
      * rewrite list_lookup_alter_eq, Ho. reflexivity.
      * eexists. split; [reflexivity|]. exact F.
Qed.

(* ===================================================================== *)
(** ** The level path of a leak message                                   *)
(* ===================================================================== *)

Ltac unnamed_leaf :=
  match goal with
  | |- preserves _ (record _) => intros ? ?; assumption
  | |- preserves _ (effect _) => intros ? ?; assumption
  | |- preserves _ (emit _) => intros ? ?; assumption
  | |- preserves _ gc_pass => intros ? ?; assumption
  | |- preserves _ (update _) =>
      let H1 := fresh in let H2 := fresh in
      intros ? [H1 H2]; split; [|exact H2];
      first [ exact H1
            | cbn [snd update self level_name set_level_name];
              rewrite lookup_insert_ne by discriminate; exact H1 ]
  end.

Ltac unnamed := repeat first [preserve_step | unnamed_leaf].

Section DirectoryUnnamed.

Context (n : Z).

Lemma unnamed_get_summary : preserves (directory_unnamed n) get_summary.
Proof. unfold get_summary. unnamed. Qed.

Lemma unnamed_register_mock (m : weakref) (stack : list string) :
  preserves (directory_unnamed n) (register_mock m stack).
Proof. unfold register_mock. unnamed. Qed.

Lemma unnamed_error_messages (l : list weakref) :
  preserves (directory_unnamed n) (error_messages l).
Proof.
  induction l as [|m' l IH]; cbn [error_messages]; unnamed; [|exact IH].
  unfold error_message. unnamed.
Qed.

Lemma unnamed_check_for_leaks : preserves (directory_unnamed n) check_for_leaks.
Proof. unfold check_for_leaks. unnamed. apply unnamed_error_messages. Qed.

Lemma unnamed_finished_level (level : Z) (name : string) :
  preserves (directory_unnamed n) (finished_level level name).
Proof.
  unfold finished_level, memory_delta_report.
  unnamed; apply unnamed_get_summary.
Qed.

Lemma unnamed_perform (a : action) : preserves (directory_unnamed n) (perform a).
Proof. destruct a; unfold perform; unnamed. apply unnamed_register_mock. Qed.

Lemma unnamed_perform_all (body : list action) :
  preserves (directory_unnamed n) (perform_all body).
Proof.
  induction body as [|a body IH]; cbn [perform_all]; unnamed; [|exact IH].
  apply unnamed_perform.
Qed.

Lemma unnamed_do_check (t : test) (result : nat) (before : bool) :
  preserves (directory_unnamed n) (do_check t result before).
Proof.
  unfold do_check, get_level_path. unnamed. apply unnamed_check_for_leaks.
Qed.

Lemma unnamed_final_check : preserves (directory_unnamed n) final_check.
Proof. unfold final_check. unnamed. apply unnamed_check_for_leaks. Qed.

Lemma unnamed_handle (e : event) : preserves (directory_unnamed n) (handle e).
Proof.
  destruct e; cbn [handle].
  - unfold begin, create_initial_summary. unnamed. apply unnamed_get_summary.
  - unfold beforeTest, started_level. unnamed. apply unnamed_finished_level.
  - unfold run_test. unnamed;
      first [apply unnamed_do_check | apply unnamed_perform_all].
  - unfold afterTest. unnamed. apply unnamed_finished_level.
  - unfold report. unnamed; apply unnamed_final_check.
  - unfold finalize. unnamed; apply unnamed_final_check.
  - apply unnamed_perform.
Qed.

Lemma unnamed_run (es : list event) (s : machine) :
  directory_unnamed n s -> directory_unnamed n (run es s).
Proof.
  revert s. induction es as [|e es IH]; intros s H; cbn [run]; [exact H|].
  apply IH, unnamed_handle, H.
Qed.

End DirectoryUnnamed.

Lemma level_path_last (p : plugin) :
  1 <= reporting_level p ->
  level_path p
  = foldl (fun name i => name ++ "/" ++ default "???" (level_name p !! i))
          "" (rev (seqZ 2 (reporting_level p - 1)))
    ++ "/" ++ default "???" (level_name p !! LEVEL_DIR).
Proof.
  intros H. unfold level_path.
  rewrite (seqZ_cons 1 (reporting_level p)) by lia.
  change (Z.succ 1) with 2. replace (Z.pred (reporting_level p))
    with (reporting_level p - 1) by lia.
  cbn [rev]. rewrite foldl_app. reflexivity.
Qed.

(** No hook of the plugin names the directory level: [started_level] is
    called for the class and the test only (the directory and module hooks
    are commented out), and [run_test] names the module.  So from a plugin
    that has no directory name, as a new one has none, the level path that
    [get_level_path] builds for the leak messages ends in ["/???"] at every
    point of every run, when the reporting level is 1 or more; at reporting
    level 0 the path is empty. *)
Theorem level_path_directory_unknown (es : list event) (s : machine) :
  level_name (self s) !! LEVEL_DIR = None ->
  (1 <= reporting_level (self s) ->
   exists pre, (get_level_path (run es s)).1 = Ret (pre ++ "/???")) /\
  (reporting_level (self s) <= 0 ->
   (get_level_path (run es s)).1 = Ret "").
Proof.
  intros Hd.
  destruct (unnamed_run (reporting_level (self s)) es s) as [H1 H2];
    [split; auto|].
  unfold get_level_path, mbind, M_bind, get_self, mret, M_ret. cbn [fst].
  split; intros Hn.
  - rewrite level_path_last by lia. rewrite H1. cbn [default]. eauto.
  - unfold level_path. rewrite H2.
    destruct (reporting_level (self s)) as [|q|q]; try lia; reflexivity.
Qed.

(* ===================================================================== *)
(** ** The class level at a test boundary                                 *)
(* ===================================================================== *)

Lemma names_memory_delta_report (h : list entry) (d : gmap Z string)
      (level : Z) (name : string) :
  preserves (names_are h d) (memory_delta_report level name).
Proof.
  unfold memory_delta_report, get_summary.
  repeat first
    [ preserve_step
    | match goal with
      | |- preserves _ (effect _) => intros ? ?; assumption
      | |- preserves _ (emit _) => intros ? ?; assumption
      | |- preserves _ gc_pass => intros ? ?; assumption
      | |- preserves _ (update _) => intros ? ?; assumption
      end ].
Qed.

Lemma names_finished_level (level : Z) (name : string) (s : machine) :
  names_are (history s ++ [finished level name]) (level_name (self s))
            (finished_level level name s).2.
Proof.
  rewrite finished_level_unfold. cbv zeta.
  match goal with
  | |- names_are ?h ?d (if _ then (_, ?s1) else _).2 =>
      assert (H1 : names_are h d s1)
  end.
  { split; [reflexivity|].
    destruct (level <=? reporting_level (self s))%Z; reflexivity. }
  destruct (level >? reporting_level (self s))%Z; [exact H1|].
  destruct (report_delta (self s)); cbn [when]; [|exact H1].
  apply names_memory_delta_report, H1.
Qed.

(** [beforeTest] at a class boundary.  When the test about to run is of
    another class than the previous one, the class level is finished under
    the previous class's name, and the name recorded for the class level is
    left as it was: the new class is named only when a second test of it
    starts.  Otherwise (the first test, or a test of the same class) no
    level is finished, the test's class is recorded and the hook returns.
    Whenever the hook returns, the test's name is recorded for the test
    level. *)
Theorem beforeTest_class_boundary (t : test) (s : machine) :
  match class_changed (self s) t with
  | Some last =>
      history (beforeTest t s).2
      = (history s
         ++ [finished LEVEL_CLASS (class_name (case_class (test_test last)))])%list /\
      level_name (self (beforeTest t s).2) !! LEVEL_CLASS
      = level_name (self s) !! LEVEL_CLASS
  | None =>
      history (beforeTest t s).2 = history s /\
      level_name (self (beforeTest t s).2) !! LEVEL_CLASS
      = Some (class_name (case_class (test_test t))) /\
      (beforeTest t s).1 = Ret tt
  end /\
  ((beforeTest t s).1 = Ret tt ->
   level_name (self (beforeTest t s).2) !! LEVEL_TEST = Some (test_str t)).
Proof.
  unfold class_changed, beforeTest, mbind, M_bind, get_self. cbv beta iota.
  destruct (last_test (self s)) as [last|].
  - destruct (same_type last t); cbn [negb when].
    + unfold started_level, mbind, M_bind, mret, M_ret, update.
      cbn [fst snd self history level_name set_level_name].
      split; [split; [reflexivity|split; [|reflexivity]]|].
      * rewrite lookup_insert_ne by discriminate. apply lookup_insert_eq.
      * intros _. apply lookup_insert_eq.
    + pose proof (names_finished_level LEVEL_CLASS
                    (class_name (case_class (test_test last))) s) as [Hh Hn].
      unfold mbind, M_bind, mret, M_ret.
      destruct (finished_level LEVEL_CLASS
                  (class_name (case_class (test_test last))) s)
        as [[[]|e] s1]; cbn [fst snd] in *.
      * unfold started_level, update.
        cbn [fst snd self history level_name set_level_name].
        split; [split; [exact Hh|]|].
        -- rewrite lookup_insert_ne by discriminate. rewrite Hn. reflexivity.
        -- intros _. apply lookup_insert_eq.
      * split; [split; [exact Hh | rewrite Hn; reflexivity]|].
        intros H. discriminate.
  - unfold started_level, mbind, M_bind, mret, M_ret, update.
    cbn [fst snd self history level_name set_level_name].
    split; [split; [reflexivity|split; [|reflexivity]]|].
    + rewrite lookup_insert_ne by discriminate. apply lookup_insert_eq.
    + intros _. apply lookup_insert_eq.
Qed.

(* ===================================================================== *)
(** ** A check before every test                                          *)
(* ===================================================================== *)

Ltac flag_leaf :=
  match goal with
  | |- preserves _ (record _) => intros ? ?; assumption
  | |- preserves _ (effect _) => intros ? ?; assumption
  | |- preserves _ (emit _) => intros ? ?; assumption
  | |- preserves _ gc_pass => intros ? ?; assumption
  | |- preserves _ (update _) =>
      intros ? ?; first [assumption | reflexivity]
  end.

Ltac flagging := repeat first [preserve_step | flag_leaf].

Section FlagStaysSet.

Lemma flag_get_summary : preserves flag_set get_summary.
Proof. unfold get_summary. flagging. Qed.

Lemma flag_register_mock (m : weakref) (stack : list string) :
  preserves flag_set (register_mock m stack).
Proof. unfold register_mock. flagging. Qed.

Lemma flag_error_messages (l : list weakref) :
  preserves flag_set (error_messages l).
Proof.
  induction l as [|m' l IH]; cbn [error_messages]; flagging; [|exact IH].
  unfold error_message. flagging.
Qed.

Lemma flag_check_for_leaks : preserves flag_set check_for_leaks.
Proof. unfold check_for_leaks. flagging. apply flag_error_messages. Qed.

Lemma flag_finished_level (level : Z) (name : string) :
  preserves flag_set (finished_level level name).
Proof.
  unfold finished_level, memory_delta_report.
  flagging; apply flag_get_summary.
Qed.

Lemma flag_perform (a : action) : preserves flag_set (perform a).
Proof. destruct a; unfold perform; flagging. apply flag_register_mock. Qed.

Lemma flag_perform_all (body : list action) :
  preserves flag_set (perform_all body).
Proof.
  induction body as [|a body IH]; cbn [perform_all]; flagging; [|exact IH].
  apply flag_perform.
Qed.

Lemma flag_do_check (t : test) (result : nat) (before : bool) :
  preserves flag_set (do_check t result before).
Proof.
  unfold do_check, get_level_path. flagging. apply flag_check_for_leaks.
Qed.

Lemma flag_final_check : preserves flag_set final_check.
Proof. unfold final_check. flagging. apply flag_check_for_leaks. Qed.

Lemma flag_handle (e : event) : preserves flag_set (handle e).
Proof.
  destruct e; cbn [handle].
  - unfold begin, create_initial_summary. flagging. apply flag_get_summary.
  - unfold beforeTest, started_level. flagging. apply flag_finished_level.
  - unfold run_test. flagging;
      first [apply flag_do_check | apply flag_perform_all].
  - unfold afterTest. flagging. apply flag_finished_level.
  - unfold report. flagging; apply flag_final_check.
  - unfold finalize. flagging; apply flag_final_check.
  - apply flag_perform.
Qed.

Lemma flag_run (es : list event) (s : machine) :
  flag_set s -> flag_set (run es s).
Proof.
  revert s. induction es as [|e es IH]; intros s H; cbn [run]; [exact H|].
  apply IH, flag_handle, H.
Qed.

End FlagStaysSet.

Ltac extends_leaf :=
  match goal with
  | |- preserves _ (record _) =>
      let rest := fresh "rest" in let H := fresh in
      intros ? [rest H]; eexists (rest ++ [_])%list;
      cbn [snd record history]; rewrite H, app_assoc; reflexivity
  | |- preserves _ (effect _) => intros ? ?; assumption
  | |- preserves _ (emit _) => intros ? ?; assumption
  | |- preserves _ gc_pass => intros ? ?; assumption
  | |- preserves _ (update _) => intros ? ?; assumption
  end.

Ltac extending := repeat first [preserve_step | extends_leaf].

Section HistoryGrows.

Context (h : list entry).

Lemma extends_register_mock (m : weakref) (stack : list string) :
  preserves (extends h) (register_mock m stack).
Proof. unfold register_mock. extending. Qed.

Lemma extends_error_messages (l : list weakref) :
  preserves (extends h) (error_messages l).
Proof.
  induction l as [|m' l IH]; cbn [error_messages]; extending; [|exact IH].
  unfold error_message. extending.
Qed.

Lemma extends_check_for_leaks : preserves (extends h) check_for_leaks.
Proof. unfold check_for_leaks. extending. apply extends_error_messages. Qed.

Lemma extends_perform (a : action) : preserves (extends h) (perform a).
Proof. destruct a; unfold perform; extending. apply extends_register_mock. Qed.

Lemma extends_perform_all (body : list action) :
  preserves (extends h) (perform_all body).
Proof.
  induction body as [|a body IH]; cbn [perform_all]; extending; [|exact IH].
  apply extends_perform.
Qed.

Lemma extends_do_check (t : test) (result : nat) (before : bool) :
  preserves (extends h) (do_check t result before).
Proof.
  unfold do_check, get_level_path. extending. apply extends_check_for_leaks.
Qed.

End HistoryGrows.

Lemma do_check_checks_first (t : test) (result : nat) (before : bool)
      (s : machine) :
  extends (history s ++ [checked (new_mocks_of (collected (env s)) (self s))])
          (do_check t result before s).2.
Proof.
  unfold do_check.
  match goal with
  | |- extends ?h (try_except_LeakDetected _ ?k s).2 =>
      assert (Hk : forall message, preserves (extends h) (k message))
  end.
  { intros message. unfold get_level_path. extending. }
  unfold try_except_LeakDetected.
  destruct (check_for_leaks_spec s) as (w' & _ & Hs & _). cbv zeta in Hs.
  destruct (check_for_leaks s) as [[[]|[message|k]] s1]; cbn [fst snd] in *.
  - exists []. rewrite Hs, app_nil_r. reflexivity.
  - apply Hk. exists []. rewrite Hs, app_nil_r. reflexivity.
  - exists []. rewrite Hs, app_nil_r. reflexivity.
Qed.

(** The flag [check_for_leaks_before_next_test] is set by [__init__] and
    by [finished_level], and nothing clears it: once set it stays set,
    through every hook of every run.  So [run_test] starts every test with
    a check, at any reporting level, level 0 included: the first thing the
    history gains is that check, with its new-leak set. *)
Theorem check_before_every_test (es : list event) (s0 : machine) (t : test)
        (result : nat) :
  check_for_leaks_before_next_test (self s0) = true ->
  check_for_leaks_before_next_test (self (run es s0)) = true /\
  exists rest,
    history (run_test t result (run es s0)).2
    = (history (run es s0)
       ++ checked (new_mocks_of (collected (env (run es s0))) (self (run es s0)))
       :: rest)%list.
Proof.
  intros H0. pose proof (flag_run es s0 H0) as Hf. unfold flag_set in Hf.
  split; [exact Hf|]. revert Hf. generalize (run es s0). clear. intros s Hf.
  unfold run_test.
  unfold mbind at 1, M_bind at 1, update at 1. cbv beta iota.
  unfold mbind at 1, M_bind at 1, get_self at 1. cbv beta iota.
  cbn [self check_for_leaks_before_next_test set_current_summary].
  rewrite Hf. cbn [when].
  pose proof (do_check_checks_first t result true
                (Machine (set_current_summary None (self s)) (env s) (history s)))
    as H1.
  cbn [self env history] in H1.
  change (new_mocks_of (collected (env s)) (set_current_summary None (self s)))
    with (new_mocks_of (collected (env s)) (self s)) in H1.
  match goal with
  | |- exists rest, history ((?m ≫= ?k) ?s1).2 = _ =>
      assert (Hk : forall a, preserves
                (extends (history s ++
                   [checked (new_mocks_of (collected (env s)) (self s))]))
                (k a))
  end.
  { intros a. extending;
      first [apply extends_do_check | apply extends_perform_all]. }
  unfold mbind at 1, M_bind at 1.
  destruct (do_check t result true _) as [[a|e] s2]; cbn [fst snd] in *.
  - destruct (Hk a s2 H1) as [rest Hr]. exists rest.
    rewrite Hr, <- app_assoc. reflexivity.
  - destruct H1 as [rest Hr]. exists rest.
    rewrite Hr, <- app_assoc. reflexivity.
Qed.

(* ===================================================================== *)
(** ** What a check raises, and what it does to the reported mocks        *)
(* ===================================================================== *)

(** The heap once [error_message] has been called on each mock of [l]. *)
Lemma error_message_effect (m : weakref) (s : machine) :
  exists e : string,
    error_message m s
    = (Ret e,
       Machine (self s)
               (set_heap (alter (set_traceback None) m (heap (env s))) (env s))
               (history s)).
Proof.
  unfold error_message, mbind, M_bind, get_env, effect, mret, M_ret.
  cbn [fst snd self env history].
  destruct (heap (env s) !! m) as [o|] eqn:E.
  - eexists. reflexivity.
  - exists "". f_equal. destruct s as [p w h]. cbn [self env history].
    f_equal. destruct w as [hp k sm rss cs]. unfold set_heap.
    cbn [self env heap wrappers heap_summary ru_maxrss calls] in *. f_equal.
    symmetry. apply list_eq. intros i.
    destruct (decide (i = m)) as [-> | Hne].
    + rewrite list_lookup_alter_eq, E. reflexivity.
    + rewrite list_lookup_alter_ne by congruence. reflexivity.
Qed.

Lemma error_messages_effect (l : list weakref) (s : machine) :
  exists es : list string,
    error_messages l s
    = (Ret es,
       Machine (self s)
               (set_heap (foldl (fun hp m => alter (set_traceback None) m hp)
                                (heap (env s)) l) (env s))
               (history s)) /\
    length es = length l.
Proof.
  revert s. induction l as [|m l IH]; intros s.
  - exists []. split; [|reflexivity]. cbn [error_messages foldl].
    destruct s as [p [hp k sm rss cs] h]. reflexivity.
  - cbn [error_messages foldl]. unfold mbind at 1, M_bind at 1.
    destruct (error_message_effect m s) as (e & ->).
    unfold mbind at 1, M_bind at 1.
    match goal with
    | |- context [error_messages l ?s1] =>
        destruct (IH s1) as (es & -> & Hlen)
    end.
    exists (e :: es). cbn [self env history heap set_heap length].
    split; [reflexivity | congruence].
Qed.

Lemma lookup_tracebacks_popped (l : list weakref) (hp : list mock_obj)
      (m : weakref) :
  foldl (fun hp m => alter (set_traceback None) m hp) hp l !! m
  = if decide (m ∈ l) then set_traceback None <$> hp !! m else hp !! m.
Proof.
  revert hp. induction l as [|m' l IH]; intros hp; cbn [foldl].
  - rewrite decide_False by apply not_elem_of_nil. reflexivity.
  - rewrite IH. destruct (decide (m = m')) as [-> | Hne].
    + rewrite list_lookup_alter_eq.
      rewrite (decide_True (P := m' ∈ m' :: l)) by (apply elem_of_cons; auto).
      destruct (decide (m' ∈ l)); [|reflexivity].
      destruct (hp !! m'); reflexivity.
    + rewrite list_lookup_alter_ne by congruence.
      destruct (decide (m ∈ l)) as [Hin | Hin].
      * rewrite decide_True by (apply elem_of_cons; auto). reflexivity.
      * rewrite decide_False; [reflexivity|].
        rewrite elem_of_cons. tauto.
Qed.

(** A check that has something new. *)
Lemma check_for_leaks_leak (s : machine) :
  new_mocks_of (collected (env s)) (self s) <> [] ->
  exists errs : list string,
    length errs = length (new_mocks_of (collected (env s)) (self s)) /\
    check_for_leaks s
    = (Raise (LeakDetected
                (leak_message
                   (length (new_mocks_of (collected (env s)) (self s))) errs)),
       Machine (set_previous_mock_refs
                  (mocks_of (collected (env s)) (self s)) (self s))
               (set_heap
                  (foldl (fun hp m => alter (set_traceback None) m hp)
                         (heap (collected (env s)))
                         (new_mocks_of (collected (env s)) (self s)))
                  (log gc_collect (collected (env s))))
               (history s
                ++ [checked (new_mocks_of (collected (env s)) (self s))])).
Proof.
  intros Hnew. rewrite check_for_leaks_unfold. cbv zeta.
  destruct (new_mocks_of (collected (env s)) (self s)) as [|m l] eqn:E;
    [contradiction|].
  unfold mbind, M_bind.
  match goal with
  | |- context [error_messages ?l ?s1] =>
      destruct (error_messages_effect l s1) as (es & -> & Hlen)
  end.
  exists es. split; [exact Hlen|]. reflexivity.
Qed.

Lemma check_for_leaks_clean (s : machine) :
  new_mocks_of (collected (env s)) (self s) = [] ->
  check_for_leaks s
  = (Ret tt,
     Machine (set_previous_mock_refs
                (mocks_of (collected (env s)) (self s)) (self s))
             (log gc_collect (collected (env s)))
             (history s ++ [checked []])).
Proof.
  intros Hnew. rewrite check_for_leaks_unfold. cbv zeta. rewrite Hnew.
  reflexivity.
Qed.

Lemma nothing_new_iff (w : world) (p : plugin) :
  new_mocks_of w p = [] <->
  forall m, m ∈ mock_refs p -> is_live w m = true ->
            ignored w m = true \/ m ∈ previous_mock_refs p.
Proof.
  split.
  - intros Hnil m Hm Hl.
    destruct (ignored w m) eqn:Hi; [left; reflexivity|]. right.
    destruct (decide (m ∈ previous_mock_refs p)) as [Hin | Hout]; [exact Hin|].
    exfalso. apply (not_elem_of_nil m). rewrite <- Hnil.
    apply elem_of_new_mocks_of. repeat split; auto.
    rewrite elem_of_previous_ids. tauto.
  - intros H. apply elem_of_nil_inv. intros m Hm.
    apply elem_of_new_mocks_of in Hm. destruct Hm as (Ht & Hl & Hi & Hnew).
    destruct (H m Ht Hl) as [Hig | Hprev]; [congruence|].
    apply Hnew, elem_of_previous_ids. auto.
Qed.

(** [check_for_leaks] returns normally exactly when every tracked mock that
    is live after the collection pass either carries an ignore marker or is
    in the baseline [previous_mock_refs].  Otherwise it raises
    [LeakDetected], with a message that gives the number of new mocks and
    one line per new mock. *)
Theorem check_for_leaks_raises_iff (s : machine) :
  ((check_for_leaks s).1 = Ret tt <->
   forall m, m ∈ mock_refs (self s) ->
             is_live (collected (env s)) m = true ->
             ignored (collected (env s)) m = true \/
             m ∈ previous_mock_refs (self s)) /\
  (forall e, (check_for_leaks s).1 = Raise e ->
     exists errs : list string,
       length errs = length (new_mocks_of (collected (env s)) (self s)) /\
       e = LeakDetected
             (leak_message
                (length (new_mocks_of (collected (env s)) (self s))) errs)).
Proof.
  rewrite <- nothing_new_iff.
  destruct (new_mocks_of (collected (env s)) (self s)) as [|m l] eqn:E.
  - rewrite (check_for_leaks_clean s E). cbn [fst]. split; [tauto|].
    intros e He. discriminate.
  - destruct (check_for_leaks_leak s) as (errs & Hlen & Hc);
      [rewrite E; discriminate|].
    rewrite E in Hc, Hlen. rewrite Hc. cbn [fst]. split.
    + split; intros H; discriminate.
    + intros e He. injection He as <-. exists errs. auto.
Qed.

(** Building the message of a leak takes the traceback off every mock it
    reports ([data.pop] works on the mock's own [__dict__]): after a check,
    whether it raised or returned, the mocks of its new-leak set have no
    [_mock_traceback] and are otherwise as the collection pass left them,
    and no other mock has been touched. *)
Theorem reported_mock_loses_traceback (s : machine) (m : weakref) :
  heap (env (check_for_leaks s).2) !! m
  = if decide (m ∈ new_mocks_of (collected (env s)) (self s))
    then set_traceback None <$> heap (collected (env s)) !! m
    else heap (collected (env s)) !! m.
Proof.
  destruct (new_mocks_of (collected (env s)) (self s)) as [|m' l] eqn:E.
  - rewrite (check_for_leaks_clean s E). cbn [snd env].
    rewrite decide_False by apply not_elem_of_nil. reflexivity.
  - destruct (check_for_leaks_leak s) as (errs & _ & Hc);
      [rewrite E; discriminate|].
    rewrite E in Hc. rewrite Hc. cbn [snd env heap set_heap].
    apply lookup_tracebacks_popped.
Qed.

(* ===================================================================== *)
(** ** The report line                                                    *)
(* ===================================================================== *)

(** [report] returns and writes one line to the stream.  With a leak
    stored by an earlier final check, the line is the red [FAILED] line
    with the stored message, and no check is made.  Otherwise one check is
    made: if nothing is new the line is the green [PASSED] line, and if
    something is new it is the red [FAILED] line with the message of
    that check. *)
Theorem report_passed_or_failed (s : machine) :
  detect_leaked_mocks (self s) = true ->
  (report s).1 = Ret tt /\
  match _final_exc_info (self s),
        new_mocks_of (collected (env s)) (self s) with
  | Some message, _ =>
      calls (env (report s).2)
      = (calls (env s)
         ++ [stream_write
               (colored ("Leak Detector Report: " ++ "FAILED: " ++ message ++ nl)
                        "red")])%list
  | None, [] =>
      calls (env (report s).2)
      = (calls (env s)
         ++ [gc_collect;
             stream_write
               (colored
                  ("Leak Detector Report: "
                   ++ "PASSED: All mocks have been reset or garbage collected."
                   ++ nl)
                  "green")])%list
  | None, new_mocks =>
      exists errs : list string,
        length errs = length new_mocks /\
        calls (env (report s).2)
        = (calls (env s)
           ++ [gc_collect;
               stream_write
                 (colored
                    ("Leak Detector Report: " ++ "FAILED: "
                     ++ leak_message (length new_mocks) errs ++ nl)
                    "red")])%list
  end.
Proof.
  intros Hd. unfold report. unfold mbind, M_bind.
  destruct (_final_exc_info (self s)) as [stored|] eqn:Hf.
  - rewrite (final_check_skip s) by (right; congruence).
    unfold mbind, M_bind, get_self, emit, effect. cbv beta iota.
    rewrite Hf. cbn [fst snd env calls log]. auto.
  - rewrite (final_check_run s Hd Hf). unfold try_except_LeakDetected.
    set (s1 := Machine (summaries_cleared (self s)) (env s) (history s)).
    assert (Hn : new_mocks_of (collected (env s1)) (self s1)
                 = new_mocks_of (collected (env s)) (self s)) by reflexivity.
    destruct (new_mocks_of (collected (env s)) (self s)) as [|m l] eqn:E.
    + rewrite (check_for_leaks_clean s1 Hn).
      unfold mbind, M_bind, get_self, emit, effect. cbv beta iota.
      cbn [self env history fst snd _final_exc_info set_previous_mock_refs
           summaries_cleared set_previous_summaries set_current_summary].
      subst s1. cbn [self env history fst snd _final_exc_info
                     set_previous_mock_refs summaries_cleared
                     set_previous_summaries set_current_summary].
      rewrite Hf. unfold collected, log, set_heap.
      cbn [fst snd env calls]. rewrite <- app_assoc. auto.
    + destruct (check_for_leaks_leak s1) as (errs & Hlen & ->);
        [rewrite Hn; discriminate|].
      rewrite Hn in *.
      unfold mbind, M_bind, get_self, emit, effect, update. cbv beta iota.
      cbn [self env history fst snd _final_exc_info set_final_exc_info
           set_previous_mock_refs].
      split; [reflexivity|]. exists errs. split; [exact Hlen|].
      subst s1. unfold collected, log, set_heap.
      cbn [self env history fst snd calls]. rewrite <- app_assoc. reflexivity.
Qed.

(* ===================================================================== *)
(** ** The patch of [mock.Base.__init__] is undone                        *)
(* ===================================================================== *)




Section Patching.

Context (k : nat) (b : bool).















End Patching.


(* ===================================================================== *)
(** ** [run_test] returns                                                 *)
(* ===================================================================== *)

Section Returns.

Lemma returns_bind {A B} (P : machine -> Prop) (Q : A -> machine -> Prop)
      (R : B -> machine -> Prop) (m : M A) (f : A -> M B) :
  returns P m Q -> (forall a, returns (Q a) (f a) R) -> returns P (m ≫= f) R.
Proof.
  intros Hm Hf s Hs. destruct (Hm s Hs) as (a & Ha & HQ).
  unfold mbind, M_bind. destruct (m s) as [o s1]. cbn [fst snd] in *.
  subst o. apply (Hf a s1 HQ).
Qed.

Lemma returns_update (P : machine -> Prop) (Q : unit -> machine -> Prop)
      (f : plugin -> plugin) :
  (forall s, P s -> Q tt (Machine (f (self s)) (env s) (history s))) ->
  returns P (update f) Q.
Proof. intros H s Hs. exists tt. split; [reflexivity | apply H, Hs]. Qed.

Lemma returns_get_self (P : machine -> Prop) :
  returns P get_self (fun _ => P).
Proof. intros s Hs. exists (self s). auto. Qed.

(** A method that keeps [I] and raises nothing returns in [I]. *)
Lemma returns_steady {A} (I : machine -> Prop) (m : M A) :
  raises_only no_exception I m -> returns I m (fun _ => I).
Proof.
  intros Hm s Hs. destruct (Hm s Hs) as [H1 H2].
  destruct (m s) as [[a|e] s1]; cbn [fst snd] in *.
  - exists a. auto.
  - destruct (H2 e eq_refl).
Qed.

End Returns.

Section PluginInvariant.

Context (I : plugin -> Prop).
Context (I_previous : forall l p, I p -> I (set_previous_mock_refs l p)).
Context (I_failed : forall p, I p -> I (set_failed_test_with_leak true p)).
Context (I_tracked : forall l p, I p -> I (set_mock_refs l p)).

Lemma plugin_check_for_leaks :
  raises_only (fun e => no_exception e \/ is_LeakDetected e)
              (fun s => I (self s)) check_for_leaks.
Proof.
  apply raises_only_leak; [|apply check_for_leaks_raises_leak].
  intros s Hs. destruct (check_for_leaks_spec s) as (w' & _ & -> & _).
  apply I_previous, Hs.
Qed.

Lemma plugin_do_check (t : test) (result : nat) (before : bool) :
  raises_only no_exception (fun s => I (self s)) (do_check t result before).
Proof.
  unfold do_check, get_level_path.
  repeat first
    [ raising_step
    | match goal with
      | |- raises_only _ _ check_for_leaks => apply plugin_check_for_leaks
      | |- raises_only _ _ (update _) =>
          apply raises_only_update; intros ? ?; apply I_failed; assumption
      end
    | steady_leaf ].
Qed.

Lemma plugin_register_mock (m : weakref) (stack : list string) :
  raises_only no_exception (fun s => I (self s)) (register_mock m stack).
Proof.
  unfold register_mock.
  repeat first
    [ raising_step
    | match goal with
      | |- raises_only _ _ (update _) =>
          apply raises_only_update; intros ? ?; apply I_tracked; assumption
      end
    | steady_leaf ].
Qed.

Lemma plugin_perform (a : action) :
  raises_only no_exception (fun s => I (self s)) (perform a).
Proof.
  destruct a; unfold perform; steadily. apply plugin_register_mock.
Qed.

Lemma plugin_perform_all (body : list action) :
  raises_only no_exception (fun s => I (self s)) (perform_all body).
Proof.
  induction body as [|a body IH]; cbn [perform_all]; steadily; [|exact IH].
  apply plugin_perform.
Qed.

End PluginInvariant.

(** [run_test] returns, whatever its two checks find and whatever the test
    does: a leak is recorded on the result objects, not raised.  When it
    returns, the result object is kept as [last_test_result], the module of
    the test's class is the name of the module level, and no summary is
    held. *)
Theorem run_test_returns (t : test) (result : nat) (s : machine) :
  (run_test t result s).1 = Ret tt /\
  last_test_result (self (run_test t result s).2) = Some result /\
  level_name (self (run_test t result s).2) !! LEVEL_MODULE
  = Some (class_module (case_class (test_test t))) /\
  current_summary (self (run_test t result s).2) = None.
Proof.
  set (I0 := fun p : plugin => current_summary p = None).
  set (I1 := fun p : plugin =>
               current_summary p = None /\
               level_name p !! LEVEL_MODULE
               = Some (class_module (case_class (test_test t)))).
  assert (H : returns any_state (run_test t result)
                (fun _ s' => last_test_result (self s') = Some result /\
                             I1 (self s'))).
  { unfold run_test.
    apply (returns_bind _ (fun _ s => I0 (self s))).
    { apply returns_update. intros s0 _. reflexivity. }
    intros _. apply (returns_bind _ (fun _ s => I0 (self s)));
      [apply returns_get_self|]. intros p.
    apply (returns_bind _ (fun _ s => I0 (self s))).
    { apply returns_steady, raises_only_when, plugin_do_check;
        intros; assumption. }
    intros _. apply (returns_bind _ (fun _ s => I1 (self s))).
    { apply returns_update. intros s0 H0. split; [exact H0|].
      cbn [self level_name set_level_name]. apply lookup_insert_eq. }
    intros _. apply (returns_bind _ (fun _ s => I1 (self s))).
    { apply returns_steady, plugin_perform_all; intros; assumption. }
    intros _. apply (returns_bind _ (fun _ s => I1 (self s))).
    { apply returns_steady, raises_only_when, plugin_do_check;
        intros; assumption. }
    intros _. apply returns_update. intros s0 H0. split; [reflexivity|exact H0]. }
  destruct (H s Logic.I) as ([] & Hret & Hres & Hsum & Hmod). auto.
Qed.

(** When a check made by [do_check] raises and no result object of an
    earlier test is known, the error is recorded once, on the current
    result object against the test at hand; the message ends in
    [before test] for the check before the test and in
    [before any tests were run] for the check after it.  [do_check]
    returns, the plugin remembers that a test failed with a leak, and
    [stop] is called on the result object when [fail_fast] is off. *)
Theorem leak_recorded_against_current_only
        (t : test) (result : nat) (before : bool) (s : machine)
        (message : string) :
  (check_for_leaks s).1 = Raise (LeakDetected message) ->
  last_test_result (self s) = None ->
  (do_check t result before s).1 = Ret tt /\
  calls (env (do_check t result before s).2)
  = (calls (env s)
     ++ [gc_collect;
         addError result (of_test t)
           ((message ++ " at " ++ level_path (self s))
            ++ (if before then " before test"
                else " before any tests were run"))]
     ++ (if fail_fast (self s) then [] else [stop result]))%list /\
  failed_test_with_leak (self (do_check t result before s).2) = true.
Proof.
  intros Hraise Hlast.
  destruct (do_check_leak t result before s (check_for_leaks s).2 message)
    as (Hret & Hcalls & Hfailed).
  { destruct (check_for_leaks s) as [o s1]. cbn [fst snd] in *. congruence. }
  split; [exact Hret|]. split; [|exact Hfailed].
  rewrite Hcalls. unfold leak_calls. rewrite Hlast. reflexivity.
Qed.

(* ===================================================================== *)
(** ** The final leak, at [finalize]                                      *)
(* ===================================================================== *)

(** With a leak stored by the final check of [report], [finalize] makes no
    check of its own.  It records the stored leak once, on the result
    object it is given, against the case of the last test that ran
    ([last_test.test], not the nose test); when no test ran there is no
    such case and the leak is recorded nowhere.  [finalize] returns. *)
Theorem finalize_records_final_leak (result : nat) (s : machine)
        (message : string) :
  _final_exc_info (self s) = Some message ->
  (finalize result s).1 = Ret tt /\
  history (finalize result s).2 = history s /\
  calls (env (finalize result s).2)
  = (calls (env s)
     ++ match last_test (self s) with
        | Some last => [addError result (of_case (test_test last)) message]
        | None => []
        end)%list.
Proof.
  intros Hf. unfold finalize. unfold mbind, M_bind.
  rewrite (final_check_skip s) by (right; congruence).
  unfold get_self, get_env, when, emit, effect, mret, M_ret. cbv beta iota.
  rewrite Hf.
  destruct (patch_mock (self s) && (0 <? wrappers (env s))%nat);
    destruct (last_test (self s));
    cbn [fst snd self env history calls log set_wrappers];
    rewrite ?app_nil_r; auto.
Qed.

(* ===================================================================== *)
(** ** The summaries [begin] starts from                                  *)
(* ===================================================================== *)

Lemma summaries_after_create (s : machine) (d : gmap Z summary) :
  previous_summaries (self (create_initial_summary s).2) = d ->
  previous_summaries (self (begin s).2) = d.
Proof.
  intros H. unfold begin. unfold mbind at 1, M_bind at 1.
  destruct (create_initial_summary s) as [[[]|e] s1]; cbn [fst snd] in *;
    [|exact H].
  revert H. generalize s1. clear.
  change (preserves (fun s => previous_summaries (self s) = d)
            (p ← get_self;
             when (detect_leaked_mocks p)
               (gc_pass;;
                emit muppy_get_objects;;
                w ← get_env;
                update (set_mock_refs (get_objects w));;
                when (patch_mock p)
                  (effect (fun w => set_wrappers (S (wrappers w)) w))))).
  repeat first
    [ preserve_step
    | match goal with
      | |- preserves _ (effect _) => intros ? ?; assumption
      | |- preserves _ (emit _) => intros ? ?; assumption
      | |- preserves _ gc_pass => intros ? ?; assumption
      | |- preserves _ (update _) => intros ? ?; assumption
      end ].
Qed.

(** [begin] gives the four levels one and the same first summary, the
    summary of the heap at that moment, when memory deltas are reported,
    the reporting level is not 0 and [previous_summaries] is empty, as it
    is in a new plugin; no other level gets one.  In every other case
    [begin] leaves [previous_summaries] as it was. *)
Theorem begin_initial_summaries (s : machine) :
  (report_delta (self s) = true ->
   previous_summaries (self s) = ∅ ->
   reporting_level (self s) <> 0 ->
   forall level,
     previous_summaries (self (begin s).2) !! level
     = if decide (1 <= level <= 4) then Some (heap_summary (env s)) else None) /\
  (report_delta (self s) = false \/ previous_summaries (self s) <> ∅ \/
   reporting_level (self s) = 0 ->
   previous_summaries (self (begin s).2) = previous_summaries (self s)).
Proof.
  split.
  - intros Hd He Hl level.
    rewrite (summaries_after_create s
               (foldl (fun d i => <[i := heap_summary (env s)]> d)
                      ∅ (seqZ 1 LEVEL_TEST))).
    + cbn [seqZ foldl]. change (seqZ 1 LEVEL_TEST) with [1; 2; 3; 4].
      cbn [foldl].
      destruct (decide (1 <= level <= 4)) as [Hin | Hout].
      * assert (Hc : level = 1 \/ level = 2 \/ level = 3 \/ level = 4) by lia.
        destruct Hc as [-> | [-> | [-> | ->]]]; reflexivity.
      * rewrite !lookup_insert_ne by lia. apply lookup_empty.
    + unfold create_initial_summary, get_summary, gc_pass, emit, effect,
        update, when, mbind, M_bind, mret, M_ret, get_self, get_env.
      cbn [self env history fst snd set_current_summary report_delta].
      rewrite Hd. cbn [fst snd self env history previous_summaries
                       set_current_summary reporting_level].
      rewrite He. rewrite bool_decide_eq_true_2 by reflexivity.
      destruct (reporting_level (self s) =? 0)%Z eqn:E;
        [apply Z.eqb_eq in E; contradiction|].
      unfold collected, log, set_heap.
      cbn [andb negb fst snd self env history previous_summaries
           set_previous_summaries set_current_summary heap_summary].
      rewrite He. reflexivity.
  - intros H. apply summaries_after_create.
    unfold create_initial_summary, get_summary, gc_pass, emit, effect,
      update, when, mbind, M_bind, mret, M_ret, get_self, get_env.
    cbn [self env history fst snd set_current_summary report_delta].
    destruct (report_delta (self s)) eqn:Hd;
      cbn [fst snd self env history previous_summaries set_current_summary
           reporting_level]; [|reflexivity].
    destruct H as [H | [H | H]]; [discriminate | |].
    + rewrite bool_decide_eq_false_2 by exact H. reflexivity.
    + rewrite H, andb_false_r. reflexivity.
Qed.

(* ===================================================================== *)
(** ** A new mock is found by the next check                              *)
(* ===================================================================== *)

Lemma length_tracebacks_popped (l : list weakref) (hp : list mock_obj) :
  length (foldl (fun hp m => alter (set_traceback None) m hp) hp l) = length hp.
Proof.
  revert hp. induction l as [|m l IH]; intros hp; cbn [foldl]; [reflexivity|].
  rewrite IH. apply length_alter.
Qed.

Lemma allocated_effect (g : world -> world) :
  (forall w, length (heap w) <= length (heap (g w)))%nat ->
  preserves refs_allocated (effect g).
Proof.
  intros Hg s H m Hm. cbn [snd effect self env] in *.
  specialize (H m Hm). specialize (Hg (env s)). lia.
Qed.

Lemma allocated_with_effect (m : weakref) (g : world -> world) :
  (forall w, length (heap w) <= length (heap (g w)))%nat ->
  preserves (allocated_with m) (effect g).
Proof.
  intros Hg s [H1 H2]. split; [apply (allocated_effect g Hg s H1)|].
  cbn [snd effect env]. specialize (Hg (env s)). lia.
Qed.

Ltac grows :=
  intros ?; unfold log, collected, set_heap, set_wrappers, set_heap_summary_of,
    set_ru_maxrss; cbn [heap];
  rewrite ?length_alter, ?length_map, ?length_app; cbn [length]; lia.

Ltac allocated_leaf :=
  match goal with
  | |- preserves _ (record _) => intros ? ?; assumption
  | |- preserves _ (update _) => intros ? ?; assumption
  | |- preserves refs_allocated (emit _) => apply allocated_effect; grows
  | |- preserves refs_allocated gc_pass => apply allocated_effect; grows
  | |- preserves refs_allocated (effect _) => apply allocated_effect; grows
  | |- preserves (allocated_with _) (emit _) =>
      apply allocated_with_effect; grows
  | |- preserves (allocated_with _) gc_pass =>
      apply allocated_with_effect; grows
  | |- preserves (allocated_with _) (effect _) =>
      apply allocated_with_effect; grows
  end.

Ltac allocating := repeat first [preserve_step | allocated_leaf].

Section Allocated.

Lemma allocated_get_summary : preserves refs_allocated get_summary.
Proof. unfold get_summary. allocating. Qed.

Lemma allocated_register_mock (m : weakref) (stack : list string) :
  preserves (allocated_with m) (register_mock m stack).
Proof.
  unfold register_mock. allocating.
  intros s [H1 H2]. split; [|exact H2].
  intros m' Hm'. cbn [snd update self env mock_refs previous_mock_refs
                      set_mock_refs] in *.
  rewrite elem_of_app, list_elem_of_singleton in Hm'.
  destruct Hm' as [[Hm' | ->] | Hm']; [apply H1; auto | exact H2 | apply H1; auto].
Qed.

Lemma allocated_check_for_leaks : preserves refs_allocated check_for_leaks.
Proof.
  intros s H.
  assert (G : forall w' h',
             length (heap w') = length (heap (env s)) ->
             refs_allocated
               (Machine (set_previous_mock_refs
                           (mocks_of (collected (env s)) (self s)) (self s))
                        w' h')).
  { intros w' h' Hlen m Hm.
    cbn [self env mock_refs previous_mock_refs set_previous_mock_refs] in *.
    rewrite Hlen. apply H. left. destruct Hm as [Hm | Hm]; [exact Hm|].
    apply elem_of_mocks_of in Hm. apply Hm. }
  destruct (new_mocks_of (collected (env s)) (self s)) as [|m l] eqn:E.
  - rewrite (check_for_leaks_clean s E). apply G.
    unfold log, collected, set_heap. cbn [heap]. apply length_map.
  - destruct (check_for_leaks_leak s) as (errs & _ & ->);
      [rewrite E; discriminate|].
    apply G. unfold log, collected, set_heap. cbn [heap].
    rewrite length_tracebacks_popped. apply length_map.
Qed.

Lemma allocated_finished_level (level : Z) (name : string) :
  preserves refs_allocated (finished_level level name).
Proof.
  unfold finished_level, memory_delta_report.
  allocating; apply allocated_get_summary.
Qed.

Lemma allocated_perform (a : action) : preserves refs_allocated (perform a).
Proof.
  destruct a; unfold perform; try solve [allocating].
  apply preserves_get_env_bind. intros s H.
  match goal with
  | |- refs_allocated ((effect ?g ;; repeat_M ?n ?m) s).2 =>
      assert (P : preserves (allocated_with (length (heap (env s))))
                            (repeat_M n m))
        by (apply preserves_repeat, allocated_register_mock);
      assert (Q : allocated_with (length (heap (env s))) (effect g s).2)
  end.
  { split.
    - intros m' Hm'. specialize (H m' Hm').
      cbn [snd effect env]. unfold set_heap. cbn [heap].
      rewrite length_app. lia.
    - cbn [snd effect env]. unfold set_heap. cbn [heap].
      rewrite length_app. cbn [length]. lia. }
  unfold mbind, M_bind, effect in *. cbn [fst snd] in *.
  apply P, Q.
Qed.

Lemma allocated_perform_all (body : list action) :
  preserves refs_allocated (perform_all body).
Proof.
  induction body as [|a body IH]; cbn [perform_all]; allocating; [|exact IH].
  apply allocated_perform.
Qed.

Lemma allocated_do_check (t : test) (result : nat) (before : bool) :
  preserves refs_allocated (do_check t result before).
Proof.
  unfold do_check, get_level_path. allocating. apply allocated_check_for_leaks.
Qed.

Lemma allocated_final_check : preserves refs_allocated final_check.
Proof. unfold final_check. allocating. apply allocated_check_for_leaks. Qed.

Lemma allocated_begin : preserves refs_allocated begin.
Proof.
  unfold begin, create_initial_summary.
  apply preserves_bind; [allocating; apply allocated_get_summary|]. intros _.
  apply preserves_bind; [apply preserves_get_self|]. intros p.
  apply preserves_when.
  apply preserves_bind; [allocating|]. intros _.
  apply preserves_bind; [allocating|]. intros _.
  apply preserves_get_env_bind. intros s H.
  match goal with
  | |- refs_allocated ((update ?f ;; ?k) s).2 =>
      assert (P : preserves refs_allocated k) by allocating;
      assert (Q : refs_allocated (update f s).2)
  end.
  { intros m Hm. cbn [snd update self env mock_refs previous_mock_refs
                      set_mock_refs] in *.
    destruct Hm as [Hm | Hm]; [|apply H; auto].
    apply elem_of_get_objects in Hm. rewrite is_live_status in Hm.
    apply status_allocated. destruct (status (env s) m); [eauto|discriminate]. }
  unfold mbind, M_bind, update in *. cbn [fst snd] in *. apply P, Q.
Qed.

Lemma allocated_handle (e : event) : preserves refs_allocated (handle e).
Proof.
  destruct e; cbn [handle].
  - apply allocated_begin.
  - unfold beforeTest, started_level. allocating.
    apply allocated_finished_level.
  - unfold run_test. allocating;
      first [apply allocated_do_check | apply allocated_perform_all].
  - unfold afterTest. allocating. apply allocated_finished_level.
  - unfold report. allocating; apply allocated_final_check.
  - unfold finalize. allocating; apply allocated_final_check.
  - apply allocated_perform.
Qed.

Lemma allocated_run (es : list event) (s : machine) :
  refs_allocated s -> refs_allocated (run es s).
Proof.
  revert s. induction es as [|e es IH]; intros s H; cbn [run]; [exact H|].
  apply IH, allocated_handle, H.
Qed.

End Allocated.

(** What registering does, [n] times over. *)
Lemma register_mock_effect (m : weakref) (stack : list string) (s : machine) :
  (register_mock m stack s).1 = Ret tt /\
  mock_refs (self (register_mock m stack s).2) = (mock_refs (self s) ++ [m])%list /\
  previous_mock_refs (self (register_mock m stack s).2)
  = previous_mock_refs (self s) /\
  status (env (register_mock m stack s).2) m = status (env s) m /\
  repr (env (register_mock m stack s).2) m = repr (env s) m.
Proof.
  unfold register_mock, mbind, M_bind, get_env, when, update, effect, mret,
    M_ret.
  cbv beta iota.
  match goal with
  | |- context [if ?b then _ else _] => destruct b
  end; cbn [fst snd self env history mock_refs previous_mock_refs set_mock_refs];
    repeat split; auto.
  - apply status_alter. reflexivity.
  - apply repr_alter. reflexivity.
Qed.

Lemma repeat_register_mock (n : nat) (m : weakref) (stack : list string)
      (s : machine) :
  (repeat_M n (register_mock m stack) s).1 = Ret tt /\
  mock_refs (self (repeat_M n (register_mock m stack) s).2)
  = (mock_refs (self s) ++ replicate n m)%list /\
  previous_mock_refs (self (repeat_M n (register_mock m stack) s).2)
  = previous_mock_refs (self s) /\
  status (env (repeat_M n (register_mock m stack) s).2) m = status (env s) m /\
  repr (env (repeat_M n (register_mock m stack) s).2) m = repr (env s) m.
Proof.
  revert s. induction n as [|n IH]; intros s; cbn [repeat_M replicate].
  - rewrite app_nil_r. repeat split; reflexivity.
  - destruct (register_mock_effect m stack s) as (H1 & H2 & H3 & H4 & H5).
    unfold mbind, M_bind.
    destruct (register_mock m stack s) as [o s1]. cbn [fst snd] in *. subst o.
    destruct (IH s1) as (G1 & G2 & G3 & G4 & G5).
    rewrite G2, G3, G4, G5, H2, H3, H4, H5, <- app_assoc.
    repeat split; auto.
Qed.

(** The state after [mock.Mock(...)]. *)
Lemma perform_new_mock (r vars : string) (stack : list string) (s : machine) :
  mock_refs (self (perform (new_mock r vars stack) s).2)
  = (mock_refs (self s)
     ++ replicate (wrappers (env s)) (length (heap (env s))))%list /\
  previous_mock_refs (self (perform (new_mock r vars stack) s).2)
  = previous_mock_refs (self s) /\
  reachable (env (perform (new_mock r vars stack) s).2) (length (heap (env s))) /\
  repr (env (perform (new_mock r vars stack) s).2) (length (heap (env s))) = r.
Proof.
  assert (E : perform (new_mock r vars stack) s
              = repeat_M (wrappers (env s))
                  (register_mock (length (heap (env s))) stack)
                  (Machine (self s)
                     (set_heap (heap (env s) ++ [MockObj Reachable r None vars])
                               (env s))
                     (history s))) by reflexivity.
  rewrite E. clear E.
  match goal with
  | |- context [repeat_M ?n (register_mock ?m ?st) ?s1] =>
      destruct (repeat_register_mock n m st s1) as (_ & G2 & G3 & G4 & G5)
  end.
  rewrite G2, G3. unfold reachable. rewrite G4, G5.
  cbn [self env]. unfold status, repr, set_heap. cbn [heap].
  rewrite lookup_app_r by lia. rewrite Nat.sub_diag. cbn.
  repeat split; reflexivity.
Qed.

(** Detection: with the wrapper installed by [begin] in place, a mock made
    at any point of a run is registered as it is made, and if its
    representation has no ignore marker the check that comes next, with
    the mock still referenced, finds it new and raises [LeakDetected].  The
    run is any run of a plugin that started with no references, as a new
    plugin does. *)
Theorem new_mock_is_reported (es : list event) (s0 : machine)
        (r vars : string) (stack : list string) :
  mock_refs (self s0) = [] ->
  previous_mock_refs (self s0) = [] ->
  (0 < wrappers (env (run es s0)))%nat ->
  existsb (fun word => contains word r) IGNORED_MOCK_NAME_WORDS = false ->
  length (heap (env (run es s0)))
  ∈ new_mocks_of
      (collected (env (perform (new_mock r vars stack) (run es s0)).2))
      (self (perform (new_mock r vars stack) (run es s0)).2) /\
  exists message,
    (check_for_leaks (perform (new_mock r vars stack) (run es s0)).2).1
    = Raise (LeakDetected message).
Proof.
  intros Hrefs Hprev Hw Hig.
  assert (Ha : refs_allocated (run es s0)).
  { apply allocated_run. intros m [Hm | Hm]; [rewrite Hrefs in Hm | rewrite Hprev in Hm];
      apply elem_of_nil in Hm; contradiction. }
  revert Hw Ha. generalize (run es s0). clear Hrefs Hprev. intros s Hw Ha.
  destruct (perform_new_mock r vars stack s) as (H1 & H2 & H3 & H4).
  set (s1 := (perform (new_mock r vars stack) s).2) in *.
  assert (Hin : length (heap (env s)) ∈ new_mocks_of (collected (env s1)) (self s1)).
  { apply elem_of_new_mocks_of. split; [|split; [|split]].
    - rewrite H1. apply elem_of_app. right.
      destruct (wrappers (env s)) as [|n]; [lia|].
      cbn [replicate]. apply elem_of_cons. auto.
    - apply is_live_collected, H3.
    - unfold ignored. rewrite repr_collected, H4. exact Hig.
    - rewrite elem_of_previous_ids, H2. intros [Hm _].
      specialize (Ha _ (or_intror Hm)). lia. }
  split; [exact Hin|].
  destruct (check_for_leaks_leak s1) as (errs & _ & ->).
  - intros E. rewrite E in Hin. apply elem_of_nil in Hin. contradiction.
  - eexists. reflexivity.
Qed.

(* ===================================================================== *)
(** ** The theorems above, on runs                                        *)
(* ===================================================================== *)

Lemma hooks_return_during_run_witness :
  (begin delta_run_start).1 = Ret tt /\
  (handle (ev_afterTest test_leaky)
     (run [ev_beforeTest test_leaky; ev_run_test test_leaky 7]
          (begin delta_run_start).2)).1 = Ret tt.
Proof.
  apply (hooks_return_during_run
           delta_run_start
           [ev_beforeTest test_leaky; ev_run_test test_leaky 7]
           (ev_afterTest test_leaky)).
  - reflexivity.
  - repeat constructor.
  - exact Logic.I.
Defined.

Lemma finished_level_missing_key_witness :
  (finished_level LEVEL_TEST "test_clean (mod_a.CaseA)" after_final_report).1
  = Raise (KeyError LEVEL_TEST) /\
  check_for_leaks_before_next_test
    (self (finished_level LEVEL_TEST "test_clean (mod_a.CaseA)"
             after_final_report).2) = true.
Proof.
  apply (finished_level_missing_key
           LEVEL_TEST "test_clean (mod_a.CaseA)" after_final_report).
  - vm_compute. reflexivity.
  - vm_compute. intros H. discriminate H.
  - right. vm_compute. reflexivity.
Defined.

Lemma released_mock_never_reported_witness :
  reports 0 (history (run one_clean_test released_mock))
  = reports 0 (history released_mock) /\
  gone (env (run one_clean_test released_mock)) 0.
Proof.
  apply (released_mock_never_reported one_clean_test released_mock 0%nat).
  left. vm_compute. reflexivity.
Defined.

Lemma finished_level_no_changes_witness :
  (finished_level LEVEL_TEST "test_a" test_level_after_begin).1 = Ret tt /\
  calls (env (finished_level LEVEL_TEST "test_a" test_level_after_begin).2)
  = (calls (env test_level_after_begin)
     ++ [print (plain "Peak memory usage for test_a: 1024");
         gc_collect; muppy_get_objects;
         print (colored
                  ("Memory Delta Report for TEST: test_a" ++ nl
                   ++ "No changes" ++ nl ++ "Peak memory usage: 1024")
                  "red")])%list.
Proof.
  destruct (finished_level_no_changes
              LEVEL_TEST "test_a" test_level_after_begin
              {| title := "Test"; color := "red" |}) as (H1 & H2 & _).
  - vm_compute. reflexivity.
  - vm_compute. intros H. discriminate H.
  - vm_compute. reflexivity.
  - vm_compute. reflexivity.
  - split; [exact H1|]. rewrite H2. vm_compute. reflexivity.
Defined.

Lemma unpatched_mock_never_reported_witness :
  reports 0 (history (run one_leaky_test unpatched_after_begin))
  = reports 0 (history unpatched_after_begin) /\
  (0%nat ∉ mock_refs (self (run one_leaky_test unpatched_after_begin))).
Proof.
  apply (unpatched_mock_never_reported one_leaky_test unpatched_after_begin
                                       0%nat).
  - reflexivity.
  - repeat constructor; discriminate.
  - intros H. vm_compute in H. inversion H.
Defined.

Lemma register_mock_traceback_witness :
  mock_refs (self (register_mock 0 stack_of_test_leaky
                                 (start world_with_mock)).2) = [0%nat] /\
  heap (env (register_mock 0 stack_of_test_leaky (start world_with_mock)).2)
  = [MockObj Reachable "<Mock id='140'>"
       (Some ["File plugin.py, in wrapper"; "File test_a.py, in test_leaky";
              "File run.py"])
       "{}"].
Proof.
  destruct (register_mock_traceback
              0%nat stack_of_test_leaky (start world_with_mock)
              (MockObj Reachable "<Mock id='140'>" None "{}"))
    as (_ & H2 & _).
  - reflexivity.
  - split; [exact H2|]. vm_compute. reflexivity.
Defined.

Lemma level_path_directory_unknown_witness :
  exists pre,
    (get_level_path (run two_tests (configured LEVEL_CLASS))).1
    = Ret (pre ++ "/???").
Proof.
  destruct (level_path_directory_unknown two_tests (configured LEVEL_CLASS))
    as [H _].
  - reflexivity.
  - apply H. vm_compute. intros E. discriminate E.
Defined.

Lemma check_before_every_test_witness :
  check_for_leaks_before_next_test
    (self (run [ev_begin; ev_beforeTest test_clean] (configured 0))) = true /\
  exists rest,
    history (run_test test_clean 8
               (run [ev_begin; ev_beforeTest test_clean] (configured 0))).2
    = (history (run [ev_begin; ev_beforeTest test_clean] (configured 0))
       ++ checked
            (new_mocks_of
               (collected
                  (env (run [ev_begin; ev_beforeTest test_clean] (configured 0))))
               (self (run [ev_begin; ev_beforeTest test_clean] (configured 0))))
       :: rest)%list.
Proof.
  apply (check_before_every_test
           [ev_begin; ev_beforeTest test_clean] (configured 0) test_clean 8).
  reflexivity.
Defined.

Lemma report_passed_or_failed_witness :
  (report after_leaky_test).1 = Ret tt /\
  calls (env (report after_leaky_test).2)
  = (calls (env after_leaky_test)
     ++ [gc_collect;
         stream_write
           (colored ("Leak Detector Report: " ++ "FAILED: "
                     ++ leak_of_first_test ++ nl)
                    "red")])%list.
Proof.
  destruct (report_passed_or_failed after_leaky_test) as [H1 _].
  - reflexivity.
  - split; [exact H1|]. vm_compute. reflexivity.
Defined.


Lemma leak_recorded_against_current_only_witness :
  (do_check test_nothing 7 true (begin (start world_with_mock)).2).1 = Ret tt /\
  calls (env (do_check test_nothing 7 true (begin (start world_with_mock)).2).2)
  = (calls (env (begin (start world_with_mock)).2)
     ++ [gc_collect;
         addError 7 (of_test test_nothing)
           ((leak_of_existing_mock ++ " at "
             ++ level_path (self (begin (start world_with_mock)).2))
            ++ " before test")]
     ++ [])%list /\
  failed_test_with_leak
    (self (do_check test_nothing 7 true (begin (start world_with_mock)).2).2)
  = true.
Proof.
  apply (leak_recorded_against_current_only
           test_nothing 7 true (begin (start world_with_mock)).2
           leak_of_existing_mock).
  - vm_compute. reflexivity.
  - reflexivity.
Defined.

Lemma new_mock_is_reported_witness :
  0%nat
  ∈ new_mocks_of
      (collected
         (env (perform (new_mock "<Mock id='141'>" "{}" stack_of_test_leaky)
                       (run [ev_begin] (configured LEVEL_CLASS))).2))
      (self (perform (new_mock "<Mock id='141'>" "{}" stack_of_test_leaky)
                     (run [ev_begin] (configured LEVEL_CLASS))).2) /\
  exists message,
    (check_for_leaks
       (perform (new_mock "<Mock id='141'>" "{}" stack_of_test_leaky)
                (run [ev_begin] (configured LEVEL_CLASS))).2).1
    = Raise (LeakDetected message).
Proof.
  apply (new_mock_is_reported
           [ev_begin] (configured LEVEL_CLASS)
           "<Mock id='141'>" "{}" stack_of_test_leaky).
  - reflexivity.
  - reflexivity.
  - vm_compute. constructor.
  - vm_compute. reflexivity.
Defined.

Lemma finalize_records_final_leak_witness :
  calls (env (finalize 9 (run [ev_report] after_leaky_test)).2)
  = (calls (env (run [ev_report] after_leaky_test))
     ++ [addError 9 (of_case (test_test test_leaky)) leak_of_first_test])%list.
Proof.
  destruct (finalize_records_final_leak
              9 (run [ev_report] after_leaky_test) leak_of_first_test)
    as (_ & _ & H).
  - vm_compute. reflexivity.
  - exact H.
Defined.

Lemma begin_initial_summaries_witness :
  previous_summaries (self (begin delta_run_start).2) !! LEVEL_CLASS
  = Some [Row "A" 3 300] /\
  previous_summaries (self (begin delta_run_start).2) !! 5 = None /\
  previous_summaries (self (begin (configured LEVEL_CLASS)).2) = ∅.
Proof.
  destruct (begin_initial_summaries delta_run_start) as [H1 _].
  destruct (begin_initial_summaries (configured LEVEL_CLASS)) as [_ H2].
  split; [|split].
  - apply (H1 eq_refl eq_refl ltac:(discriminate) LEVEL_CLASS).
  - apply (H1 eq_refl eq_refl ltac:(discriminate) 5).
  - apply H2. left. reflexivity.
Defined.

(* ===================================================================== *)
(** ** The baseline of the memory delta report                            *)
(* ===================================================================== *)

(** A memory delta report that goes through (deltas are reported, the
    level is at or coarser than the reporting level and has its entry in
    both dicts) returns and makes the summary in use the summary kept for
    that level, so that the next report at the level is relative to this
    one; the summaries kept for the other levels stay.  The summary in use
    is the one the plugin holds, and it is held on: the heap is walked
    (after a collection pass) only when the plugin holds no summary. *)
Theorem finished_level_updates_baseline (level : Z) (name : string)
        (s : machine) (detail : ReportDetail) (old : summary) :
  report_delta (self s) = true ->
  level <= reporting_level (self s) ->
  REPORT_DETAILS !! level = Some detail ->
  previous_summaries (self s) !! level = Some old ->
  (finished_level level name s).1 = Ret tt /\
  previous_summaries (self (finished_level level name s).2)
  = <[level := summary_in_use s]> (previous_summaries (self s)) /\
  summary_in_use (finished_level level name s).2 = summary_in_use s /\
  List.filter (fun c => match c with muppy_get_objects => true | _ => false end)
              (calls (env (finished_level level name s).2))
  = (List.filter (fun c => match c with muppy_get_objects => true | _ => false end)
                 (calls (env s))
     ++ (if no_summary (self s) then [muppy_get_objects] else []))%list.
Proof.
  intros Hd Hle Hdet Hprev. rewrite finished_level_unfold. cbv zeta.
  assert (L : (level <=? reporting_level (self s))%Z = true)
    by (apply Z.leb_le; exact Hle).
  assert (G : (level >? reporting_level (self s))%Z = false).
  { destruct (level >? reporting_level (self s))%Z eqn:G; [|reflexivity].
    apply Z.gtb_lt in G. lia. }
  rewrite L, G, Hd. cbn [when].
  unfold memory_delta_report, subscript. rewrite Hdet.
  unfold mbind, M_bind, mret, M_ret, get_env, get_self, emit, effect.
  cbn [self env history fst snd previous_summaries
       set_check_for_leaks_before_next_test].
  rewrite Hprev.
  unfold summary_in_use, no_summary in *.
  destruct (current_summary (self s)) as [[|c cs]|] eqn:C;
    cbn [self env history fst snd previous_summaries current_summary
         set_check_for_leaks_before_next_test get_summary gc_pass];
    rewrite ?C;
    unfold get_summary, gc_pass, emit, effect, update, mbind, M_bind, mret,
      M_ret, get_env;
    cbn [self env history fst snd heap_summary log collected
         set_current_summary];
    rewrite fast_get_summary_diff_merge;
    match goal with
    | |- context [filter_nonzero ?d] => destruct (filter_nonzero d)
    end;
    cbn [self env history fst snd heap_summary calls
         previous_summaries current_summary set_previous_summaries
         set_current_summary set_check_for_leaks_before_next_test ru_maxrss
         log collected set_heap];
    rewrite ?List.filter_app; cbn [List.filter app]; rewrite ?app_nil_r;
    unfold summary_in_use, no_summary;
    cbn [self env history fst snd heap_summary calls
         previous_summaries current_summary set_previous_summaries
         set_current_summary set_check_for_leaks_before_next_test ru_maxrss
         log collected set_heap];
    rewrite ?C; rewrite ?app_nil_r;
    (split; [reflexivity|]); (split; [reflexivity|]);
    (split; [|reflexivity]);
    first [ reflexivity | destruct (heap_summary (env s)); reflexivity ].
Qed.

Lemma finished_level_updates_baseline_witness :
  previous_summaries
    (self (finished_level LEVEL_TEST "test_a" test_level_after_begin).2)
  = <[LEVEL_TEST := [Row "A" 3 300]]>
      (previous_summaries (self test_level_after_begin)).
Proof.
  destruct (finished_level_updates_baseline
              LEVEL_TEST "test_a" test_level_after_begin
              {| title := "Test"; color := "red" |} [Row "A" 3 300])
    as (_ & H & _).
  - vm_compute. reflexivity.
  - vm_compute. intros E. discriminate E.
  - vm_compute. reflexivity.
  - vm_compute. reflexivity.
  - exact H.
Defined.

(* ===================================================================== *)
(** ** A check that finds nothing, and the end of the run                 *)
(* ===================================================================== *)

(** When the check finds nothing new, [do_check] is the check and no
    more: the only call made is the collection pass, nothing is recorded
    on a result object, [stop] is not called and the plugin does not take
    the test to have failed with a leak. *)
Theorem clean_check_records_nothing (t : test) (result : nat) (before : bool)
        (s : machine) :
  new_mocks_of (collected (env s)) (self s) = [] ->
  do_check t result before s = check_for_leaks s /\
  (do_check t result before s).1 = Ret tt /\
  calls (env (do_check t result before s).2)
  = (calls (env s) ++ [gc_collect])%list /\
  failed_test_with_leak (self (do_check t result before s).2)
  = failed_test_with_leak (self s).
Proof.
  intros Hnew. unfold do_check, try_except_LeakDetected.
  rewrite (check_for_leaks_clean s Hnew). repeat split; reflexivity.
Qed.

Lemma clean_check_records_nothing_witness :
  calls (env (do_check test_clean 8 true (configured LEVEL_CLASS)).2)
  = [gc_collect].
Proof.
  destruct (clean_check_records_nothing
              test_clean 8 true (configured LEVEL_CLASS)) as (_ & _ & H & _).
  - reflexivity.
  - exact H.
Defined.

Lemma final_check_raises_nothing :
  raises_only no_exception any_state final_check.
Proof.
  unfold final_check.
  repeat first
    [ raising_step
    | match goal with
      | |- raises_only _ _ check_for_leaks =>
          apply (plugin_check_for_leaks (fun _ => True)); intros; exact Logic.I
      end
    | catching_leaf ].
Qed.

(** The two hooks of the end of the run, [report] and [finalize], return
    in every state: the final check keeps a leak for the report line and
    raises nothing, and nothing after it can raise. *)
Theorem report_and_finalize_return (s : machine) (result : nat) :
  (report s).1 = Ret tt /\ (finalize result s).1 = Ret tt.
Proof.
  assert (R : raises_only no_exception any_state report).
  { unfold report.
    repeat first [raising_step | apply final_check_raises_nothing
                 | catching_leaf]. }
  assert (F : raises_only no_exception any_state (finalize result)).
  { unfold finalize.
    repeat first [raising_step | apply final_check_raises_nothing
                 | catching_leaf]. }
  split.
  - destruct (R s Logic.I) as [_ H]. destruct (report s) as [[[]|e] s1];
      [reflexivity | destruct (H e eq_refl)].
  - destruct (F s Logic.I) as [_ H]. destruct (finalize result s) as [[[]|e] s1];
      [reflexivity | destruct (H e eq_refl)].
Qed.
